(** * go-tax: the word/sentence dispenser, the statement record and the
      text extractor, embedded in Rocq.

    The three Go packages of the repository are embedded one module each:
    [dispenser] (the cursor over the fragment list), [statement] (the result
    record and its currency type) and [pdf] (the operator interpreter's text
    tracker and the extraction pass).  Go's [int] is read as [Z] (every
    cursor value stays within a few units of the length of the fragment
    list; where an argument of the caller enters an expression the 64-bit
    wrap-around is written out), Go's [string] as a [string] of bytes and
    [float64] as the kernel's binary64 numbers.  A run-time panic (an index
    out of range) is an outcome of its own. *)

From Stdlib Require Import Floats.PrimFloat Floats.FloatOps Floats.SpecFloat.
From Stdlib Require Import Numbers.Cyclic.Int63.Uint63.
From Stdlib Require Import ZArith List String Ascii Bool Lia.
From Stdlib Require Import Permutation DecimalString.
Import ListNotations.

Local Open Scope string_scope.
Local Open Scope Z_scope.

(** ** Outcomes of a call *)

(** A call returns ([Ok]), panics ([Panic]: Go's run-time error on an index
    out of range) or has not returned within the iterations granted to one of
    its loops ([Diverge]). *)
Inductive outcome (A : Type) : Type :=
| Ok (a : A)
| Panic
| Diverge.

Arguments Ok {A} a.
Arguments Panic {A}.
Arguments Diverge {A}.

(** ** Slices and byte strings *)

Definition len {A : Type} (l : list A) : Z := Z.of_nat (List.length l).

(** [l[k]]: [None] is the index out of range. *)
Definition index {A : Type} (l : list A) (k : Z) : option A :=
  if k <? 0 then None else nth_error l (Z.to_nat k).

(** [s[len(s)-1]], the byte the trailing-space test reads; [None] on the
    empty string, where Go panics. *)
Fixpoint lastByte (s : string) : option ascii :=
  match s with
  | EmptyString => None
  | String c EmptyString => Some c
  | String _ rest => lastByte rest
  end.

Definition space : ascii := " "%char.

Definition isSpace (c : ascii) : bool := Ascii.eqb c space.

(** [s[:len(s)-1]] for a non-empty [s]. *)
Fixpoint dropLastByte (s : string) : string :=
  match s with
  | EmptyString => EmptyString
  | String _ EmptyString => EmptyString
  | String c rest => String c (dropLastByte rest)
  end.

(** The functions of Go's [strings] package that work byte by byte. *)
Module strings.

(** [strings.Replace(s, ",", "", -1)] at the one use the code has: every
    byte [old] is removed. *)
Fixpoint RemoveAll (old : ascii) (s : string) : string :=
  match s with
  | EmptyString => EmptyString
  | String c rest =>
      if Ascii.eqb c old then RemoveAll old rest
      else String c (RemoveAll old rest)
  end.

(** [strings.TrimLeft(s, cutset)] for a cutset of one byte. *)
Fixpoint TrimLeft (s : string) (cut : ascii) : string :=
  match s with
  | EmptyString => EmptyString
  | String c rest => if Ascii.eqb c cut then TrimLeft rest cut else s
  end.

(** [strings.Split(s, sep)] for a separator of one byte: the result is
    never empty. *)
Fixpoint Split (s : string) (sep : ascii) : list string :=
  match s with
  | EmptyString => [EmptyString]
  | String c rest =>
      if Ascii.eqb c sep then EmptyString :: Split rest sep
      else
        match Split rest sep with
        | [] => [String c EmptyString]
        | w :: ws => String c w :: ws
        end
  end.

(** [strings.Join(parts, sep)]. *)
Fixpoint Join (parts : list string) (sep : string) : string :=
  match parts with
  | [] => EmptyString
  | [p] => p
  | p :: rest => p ++ sep ++ Join rest sep
  end.

(** [len(s) >= len(p) && s[:len(p)] == p]. *)
Definition HasPrefix (s p : string) : bool := String.prefix p s.

(** [strings.Contains(s, sub)]. *)
Fixpoint Contains (s sub : string) : bool :=
  String.prefix sub s
  || match s with
     | EmptyString => false
     | String _ rest => Contains rest sub
     end.

End strings.

(** ** What the code takes from Go's library

    [strings.TrimSpace], [strings.ToLower] and [strings.ToUpper] follow
    Unicode, [strconv.ParseFloat] accepts every Go floating-point syntax and
    [time.Parse] a layout language: the development takes them as they are,
    as operations of a class, and proves its theorems for every instance.
    [ParseFloat s] is [None] exactly when Go's call returns an error;
    [ParseTime layout s] likewise. *)
Class GoLib : Type := {
  TrimSpace : string -> string;
  ToLower : string -> string;
  ToUpper : string -> string;
  ParseFloat : string -> option float;
  Time : Type;
  zeroTime : Time;
  ParseTime : string -> string -> option Time
}.

(** ** Package dispenser *)
Module dispenser.

Record Dispenser : Type := {
  i : Z;
  continueNextSentence : bool;
  str : list string
}.

Definition setI (d : Dispenser) (k : Z) : Dispenser :=
  {| i := k; continueNextSentence := continueNextSentence d; str := str d |}.

Definition setContinue (d : Dispenser) (b : bool) : Dispenser :=
  {| i := i d; continueNextSentence := b; str := str d |}.

(** A method on [*Dispenser]: it reads and writes the receiver and may
    panic. *)
Definition M (A : Type) : Type := Dispenser -> outcome (A * Dispenser).

Definition ret {A : Type} (a : A) : M A := fun d => Ok (a, d).

Definition bind {A B : Type} (m : M A) (k : A -> M B) : M B :=
  fun d =>
    match m d with
    | Ok (a, d') => k a d'
    | Panic => Panic
    | Diverge => Diverge
    end.

Definition get : M Dispenser := fun d => Ok (d, d).
Definition put_i (k : Z) : M unit := fun d => Ok (tt, setI d k).
Definition put_continue (b : bool) : M unit := fun d => Ok (tt, setContinue d b).
Definition panic {A : Type} : M A := fun _ => Panic.
Definition diverge {A : Type} : M A := fun _ => Diverge.

Definition lift {A : Type} (o : option A) : M A :=
  match o with
  | Some a => ret a
  | None => panic
  end.

Declare Scope disp_scope.
Delimit Scope disp_scope with disp.
Notation "x <- m ;; k" := (bind m (fun x => k))
  (at level 61, m at next level, right associativity) : disp_scope.
Notation "m ;;; k" := (bind m (fun _ => k))
  (at level 61, right associativity) : disp_scope.
Local Open Scope disp_scope.

(** [d.str[k]] and [d.str[k][len(d.str[k])-1] != ' ']. *)
Definition fragment (k : Z) : M string :=
  d <- get ;; lift (index (str d) k).

Definition noTrailingSpace (k : Z) : M bool :=
  s <- fragment k ;;
  c <- lift (lastByte s) ;;
  ret (negb (isSpace c)).

Definition NewDispenser (s : list string) : Dispenser :=
  {| i := 0; continueNextSentence := false; str := s |}.

(** Every word of the split gets a space appended, then the last one loses
    it again; [strings.Split] returns at least one word, so the two
    accesses to [strArr[len(strArr)-1]] are in range. *)
Definition NewDispenserFromSentence (s : string) : Dispenser :=
  let strArr := map (fun word => word ++ " ") (strings.Split s space) in
  let lastWord := last strArr EmptyString in
  {| i := 0; continueNextSentence := false;
     str := removelast strArr ++ [dropLastByte lastWord] |}.

Section Operations.

Context {L : GoLib}.

Definition getNumeral (s : string) : option float :=
  let s := strings.RemoveAll ","%char s in
  let clean := strings.TrimLeft (TrimSpace s) "$"%char in
  ParseFloat clean.

Definition isNumeral (s : string) : bool :=
  match getNumeral s with Some _ => true | None => false end.

Definition LastWord : M string :=
  d <- get ;;
  if (i d - 2 <? 0) || (len (str d) <=? i d - 2) then ret EmptyString
  else fragment (i d - 2).

(** Go's [int] is 64 bits wide: [wrap] is the value an expression over the
    caller's [n] has after the wrap-around. *)
Definition wrap (z : Z) : Z := (z + 2 ^ 63) mod 2 ^ 64 - 2 ^ 63.

(** The bounds guard tests [d.i-n-1], the access reads [d.str[d.i-2]]. *)
Definition LastNWords (n : Z) : M string :=
  d <- get ;;
  let k := wrap (wrap (i d - n) - 1) in
  if (k <? 0) || (len (str d) <=? k) then ret EmptyString
  else fragment (i d - 2).

Definition NextWord : M bool :=
  d <- get ;;
  if len (str d) <=? i d then ret false
  else if negb (continueNextSentence d) then ret false
  else
    s <- fragment (i d) ;;
    if isNumeral s then ret false
    else
      noSpace <- noTrailingSpace (i d) ;;
      (if noSpace || (i d + 1 =? len (str d))
       then put_continue false else ret tt) ;;;
      put_i (i d + 1) ;;;
      ret true.

Definition Word : M string :=
  d <- get ;;
  if (len (str d) <? i d) || (i d =? 0) then ret EmptyString
  else
    s <- fragment (i d - 1) ;;
    ret (TrimSpace s).

(** [for ; d.i < len(d.str); d.i++ { if no trailing space { d.i++; break } }]:
    every iteration moves the cursor forward, [fuel] bounds their number. *)
Fixpoint skipToNextSentence (fuel : nat) : M unit :=
  d <- get ;;
  if i d <? len (str d) then
    match fuel with
    | O => diverge
    | S fuel' =>
        noSpace <- noTrailingSpace (i d) ;;
        if noSpace then put_i (i d + 1)
        else put_i (i d + 1) ;;; skipToNextSentence fuel'
    end
  else ret tt.

Definition NextSentence : M bool :=
  d <- get ;;
  if len (str d) <=? i d then ret false
  else if negb (continueNextSentence d) then
    put_continue true ;;; ret true
  else
    skipToNextSentence (Z.to_nat (len (str d) - i d)) ;;;
    d <- get ;;
    if i d + 1 =? len (str d) then put_i (i d + 1) ;;; ret false
    else if len (str d) <=? i d then ret false
    else ret true.

(** [for ; d.i > 0; d.i-- { if no trailing space { d.i++; return } }]. *)
Fixpoint rewindToSentenceStart (fuel : nat) : M unit :=
  d <- get ;;
  if 0 <? i d then
    match fuel with
    | O => diverge
    | S fuel' =>
        noSpace <- noTrailingSpace (i d) ;;
        if noSpace then put_i (i d + 1)
        else put_i (i d - 1) ;;; rewindToSentenceStart fuel'
    end
  else ret tt.

(** The first test of [StartOfSentence], with [&&] evaluated from the left:
    a fragment is read only when the tests before it hold. *)
Definition singleWordSentence : M bool :=
  d <- get ;;
  if (0 <? i d) && (i d <? len (str d)) then
    here <- noTrailingSpace (i d) ;;
    if here then noTrailingSpace (i d - 1) else ret false
  else ret false.

Definition StartOfSentence : M unit :=
  d <- get ;;
  single <- singleWordSentence ;;
  if single then
    if negb (continueNextSentence d) then
      put_i (i d - 1) ;;; put_continue true
    else ret tt
  else if i d =? 0 then put_continue true
  else if len (str d) =? 1 then put_i 0
  else
    (if (i d =? len (str d)) || negb (continueNextSentence d)
     then put_i (i d - 2) else ret tt) ;;;
    d <- get ;;
    (if i d <? 0 then put_i 0 else ret tt) ;;;
    put_continue true ;;;
    d <- get ;;
    rewindToSentenceStart (Z.to_nat (i d)).

Definition LastSentence : M unit :=
  StartOfSentence ;;;
  d <- get ;;
  noSpace <- noTrailingSpace (i d) ;;
  if noSpace then put_i (i d - 1)
  else
    put_i (i d - 2) ;;;
    d <- get ;;
    if i d <=? 0 then put_i 1
    else StartOfSentence.

(** [for ; d.i < len(d.str); d.i++ { sentence += d.str[d.i]; if no trailing
    space { d.i++; break } }]. *)
Fixpoint dumpLoop (fuel : nat) (sentence : string) : M string :=
  d <- get ;;
  if i d <? len (str d) then
    match fuel with
    | O => diverge
    | S fuel' =>
        s <- fragment (i d) ;;
        let sentence := sentence ++ s in
        noSpace <- noTrailingSpace (i d) ;;
        if noSpace then put_i (i d + 1) ;;; ret sentence
        else put_i (i d + 1) ;;; dumpLoop fuel' sentence
    end
  else ret sentence.

Definition DumpSentence : M string :=
  d <- get ;;
  if negb (continueNextSentence d) then ret EmptyString
  else
    sentence <- dumpLoop (Z.to_nat (len (str d) - i d)) EmptyString ;;
    put_continue false ;;;
    ret sentence.

(** [for i := 0; i < n-1; i++ { if !d.NextSentence() { break }; sentences =
    append(sentences, d.DumpSentence()) }], [count] being the number of
    iterations the counter still allows. *)
Fixpoint dumpMore (count : nat) (sentences : list string) : M (list string) :=
  match count with
  | O => ret sentences
  | S count' =>
      more <- NextSentence ;;
      if more then
        s <- DumpSentence ;;
        dumpMore count' (sentences ++ [s])
      else ret sentences
  end.

Definition DumpNSentences (n : Z) : M (list string) :=
  d <- get ;;
  let start := i d in
  let continueState := continueNextSentence d in
  first <- DumpSentence ;;
  sentences <- dumpMore (Z.to_nat (wrap (n - 1))) [first] ;;
  put_i start ;;;
  put_continue continueState ;;;
  ret sentences.

Definition AtEndOfSentence : M bool :=
  d <- get ;;
  if negb (continueNextSentence d) then ret true
  else if len (str d) <=? i d then ret true
  else ret false.

Definition NextNumeral : M bool :=
  d <- get ;;
  if len (str d) <=? i d then ret false
  else if negb (continueNextSentence d) then ret false
  else
    s <- fragment (i d) ;;
    if isNumeral s then
      noSpace <- noTrailingSpace (i d) ;;
      (if noSpace then put_continue false else ret tt) ;;;
      put_i (i d + 1) ;;;
      ret true
    else ret false.

Definition Position : M Z :=
  d <- get ;; ret (i d).

(** [for !d.AtEndOfSentence() { if d.NextNumeral() { d.i--;
    d.continueNextSentence = true; break } else { d.NextWord() } }]. *)
Fixpoint scanForNumeral (fuel : nat) : M unit :=
  atEnd <- AtEndOfSentence ;;
  if atEnd then ret tt
  else
    match fuel with
    | O => diverge
    | S fuel' =>
        isNum <- NextNumeral ;;
        if isNum then
          d <- get ;;
          put_i (i d - 1) ;;; put_continue true
        else
          NextWord ;;; scanForNumeral fuel'
    end.

Definition JumpNextNumeral : M bool :=
  d <- get ;;
  let start := i d in
  scanForNumeral (Z.to_nat (len (str d) - i d)) ;;;
  hasNext <- NextNumeral ;;
  atEnd <- AtEndOfSentence ;;
  if negb hasNext && atEnd then
    put_i start ;;; ret false
  else
    put_continue true ;;; ret true.

Definition Numeral : M float :=
  d <- get ;;
  if (len (str d) <? i d) || (i d =? 0) then ret 0%float
  else
    s <- fragment (i d - 1) ;;
    match getNumeral s with
    | Some num => ret num
    | None => ret 0%float
    end.

End Operations.

End dispenser.


(** ** float64 conversions *)

(** [int64(x)] and [int(x)] for a float64 [x]: the fraction is discarded
    (truncation towards zero).  Where the value is not an int64 (NaN, an
    infinity, beyond the range) Go leaves the result to the implementation;
    the amd64 instruction answers the smallest int64. *)
Definition int64_of_float (x : float) : Z :=
  let minInt64 := - 2 ^ 63 in
  match Prim2SF x with
  | S754_zero _ => 0
  | S754_finite s m e =>
      let magnitude :=
        if 0 <=? e then Z.shiftl (Zpos m) e else Z.shiftr (Zpos m) (- e) in
      let v := if s then - magnitude else magnitude in
      if (minInt64 <=? v) && (v <? 2 ^ 63) then v else minInt64
  | S754_infinity _ | S754_nan => minInt64
  end.

(** [float64(n)] for an int64 [n]: the nearest float64, ties to even. *)
Definition float_of_int64 (n : Z) : float :=
  SF2Prim (binary_normalize prec emax n 0 false).

(** The decimal digits of a natural number. *)
Definition digits (n : Z) : string :=
  DecimalString.NilZero.string_of_uint (N.to_uint (Z.to_N n)).

(** [strconv.FormatFloat(x, 'f', 2, 64)]: the exact value of [x], rounded to
    two decimals (ties to even), printed with its sign. *)
Definition FormatFloat_f2 (x : float) : string :=
  match Prim2SF x with
  | S754_nan => "NaN"
  | S754_infinity s => if s then "-Inf" else "+Inf"
  | S754_zero s => if s then "-0.00" else "0.00"
  | S754_finite s m e =>
      (* x = num / den exactly; hundredths = 100 * num / den *)
      let num := if 0 <=? e then 100 * Z.shiftl (Zpos m) e else 100 * Zpos m in
      let den := if 0 <=? e then 1 else Z.shiftl 1 (- e) in
      let q := num / den in
      let r := num mod den in
      let up := (den <? 2 * r) || ((2 * r =? den) && Z.odd q) in
      let h := if up then q + 1 else q in
      let cents := h mod 100 in
      (if s then "-" else "")
        ++ digits (h / 100) ++ "."
        ++ (if cents <? 10 then "0" else "") ++ digits cents
  end.

(** ** Package statement *)
Module statement.

Record Dollar : Type := {
  Cents : Z;
  HasValue : bool
}.

(** The product and the sum are rounded to float64 one after the other, as
    the amd64 compiler evaluates them (Go allows an implementation to fuse
    the two into one operation rounded once). *)
Definition NewDollar (number : float) : Dollar :=
  {| Cents := int64_of_float (number * 100 + 0.5)%float; HasValue := true |}.

Definition MarshalJSON (d : Dollar) : string :=
  if negb (HasValue d) then "null"
  else FormatFloat_f2 (float_of_int64 (Cents d) / 100)%float.

(** The zero value of [Dollar], what a field nothing was bound to holds. *)
Definition noDollar : Dollar := {| Cents := 0; HasValue := false |}.

Record Statement {L : GoLib} : Type := {
  Entity : string;
  ASXCode : string;
  AccountHolders : list string;
  PaymentDate : Time;
  TotalPayment : Dollar;
  FrankingCredit : Dollar;
  UnfrankedAmount : Dollar;
  FrankedAmount : Dollar;
  WithholdingTax : Dollar;
  SharesAllotted : Z;
  CostOfSharesAllotted : Dollar;
  TotalShares : Z
}.

(** [var state statement.Statement]: every field at its zero value. *)
Definition zeroStatement {L : GoLib} : Statement :=
  {| Entity := ""; ASXCode := ""; AccountHolders := [];
     PaymentDate := zeroTime;
     TotalPayment := noDollar; FrankingCredit := noDollar;
     UnfrankedAmount := noDollar; FrankedAmount := noDollar;
     WithholdingTax := noDollar; SharesAllotted := 0;
     CostOfSharesAllotted := noDollar; TotalShares := 0 |}.

End statement.

(** ** Package pdf *)
Module pdf.

Import dispenser statement.

Inductive headerType : Type :=
| headerFranked
| headerUnfranked
| headerFrankingCredit
| headerWithholdingTax
| headerSharesAllotted
| headerCostOfSharesAllotted
| headerTotalShares
| headerTotalPayment
| headerOther.

(** *** The text tracker of the operator interpreter *)

Record textTracker : Type := {
  text : list string;
  font : string;
  stack : list string
}.

Definition setText (t : textTracker) (tx : list string) : textTracker :=
  {| text := tx; font := font t; stack := stack t |}.

Definition setFont (t : textTracker) (f : string) : textTracker :=
  {| text := text t; font := f; stack := stack t |}.

Definition setStack (t : textTracker) (s : list string) : textTracker :=
  {| text := text t; font := font t; stack := s |}.

Section Interpreter.

(** The reader of the document structure is another library:
    [ForcedArray a] are the elements [pd.ForcedArray(a)] returns, and
    [Decode f e] is [string(cmapi.Decode(ps.String(e), t.cmap(f)))], the
    text of the operand [e] under the character map of the font [f]. *)
Variable ForcedArray : string -> list string.
Variable Decode : string -> string -> string.

(** [t.text[len(t.text)-1] += " "], on a list that is not empty. *)
Definition appendToLast (tx : list string) : list string :=
  removelast tx ++ [last tx EmptyString ++ " "].

(** One round of the loop of [write]: [e] is [tx[k]], and reading [e[0]]
    panics on an empty element. *)
Definition writeElement (t : textTracker) (e : string) : outcome textTracker :=
  match e with
  | EmptyString => Panic
  | String c _ =>
      if Ascii.eqb c "("%char || Ascii.eqb c "<"%char then
        let s := Decode (font t) e in
        if String.eqb s " " && (0 <? len (text t))
        then Ok (setText t (appendToLast (text t)))
        else Ok (setText t (text t ++ [s]))
      else Ok t
  end.

Fixpoint writeElements (t : textTracker) (tx : list string) : outcome textTracker :=
  match tx with
  | [] => Ok t
  | e :: rest =>
      match writeElement t e with
      | Ok t' => writeElements t' rest
      | Panic => Panic
      | Diverge => Diverge
      end
  end.

Definition write (t : textTracker) (a : string) : outcome textTracker :=
  writeElements t (ForcedArray a).

Definition push (t : textTracker) (a : string) : textTracker :=
  setStack t (stack t ++ [a]).

(** [drop] slices the stack at [len(t.stack)-num]: a panic when the stack
    holds fewer than [num] operands. *)
Definition drop (t : textTracker) (num : nat) : outcome (list string * textTracker) :=
  let n := List.length (stack t) in
  if (n <? num)%nat then Panic
  else Ok (skipn (n - num) (stack t), setStack t (firstn (n - num) (stack t))).

Definition dropOnly (t : textTracker) (num : nat) : outcome textTracker :=
  match drop t num with
  | Ok (_, t') => Ok t'
  | Panic => Panic
  | Diverge => Diverge
  end.

Definition isOneOf (token : string) (names : list string) : bool :=
  existsb (String.eqb token) names.

(** The body of the loop of [process] for one token that is not empty. *)
Definition processToken (t : textTracker) (token : string) : outcome textTracker :=
  if isOneOf token ["B"; "B*"; "F"; "S"; "b"; "b*"; "f"; "f*"; "h"; "n"; "s";
                    "BT"; "ET"; "T*"; "EMC"] then Ok t
  else if isOneOf token ["G"; "J"; "M"; "g"; "gs"; "i"; "j"; "w"; "TL"; "Tc";
                         "Tr"; "Ts"; "Tw"; "Tz"; "BMC"; "MP"] then dropOnly t 1
  else if isOneOf token ["l"; "m"; "TD"; "Td"; "BDC"; "DP"] then dropOnly t 2
  else if isOneOf token ["RG"; "rg"] then dropOnly t 3
  else if isOneOf token ["re"; "v"; "y"; "K"; "k"] then dropOnly t 4
  else if isOneOf token ["c"; "cm"; "Tm"] then dropOnly t 6
  else if isOneOf token ["Tf"] then
    match drop t 2 with
    | Ok (ops, t') =>
        match nth_error ops 0 with
        | Some f => Ok (setFont t' f)
        | None => Panic
        end
    | Panic => Panic
    | Diverge => Diverge
    end
  else if isOneOf token ["'"; "TJ"; "Tj"] then
    match drop t 1 with
    | Ok (ops, t') =>
        match nth_error ops 0 with
        | Some a => write t' a
        | None => Panic
        end
    | Panic => Panic
    | Diverge => Diverge
    end
  else if isOneOf token [String (ascii_of_nat 34) EmptyString] then
    match drop t 3 with
    | Ok (ops, t') =>
        match nth_error ops 2 with
        | Some a => write t' a
        | None => Panic
        end
    | Panic => Panic
    | Diverge => Diverge
    end
  else Ok (push t token).

(** [process], over the tokens [ps.Token] returns one after the other: the
    loop ends at the first empty token. *)
Fixpoint process (t : textTracker) (tokens : list string) : outcome textTracker :=
  match tokens with
  | [] => Ok t
  | EmptyString :: _ => Ok t
  | token :: rest =>
      match processToken t token with
      | Ok t' => process t' rest
      | Panic => Panic
      | Diverge => Diverge
      end
  end.

End Interpreter.

(** *** The extraction pass *)

(** The table of label phrases, in the order of its declaration.  Go ranges
    over a map in an order of its own choosing: the order of one range is an
    argument of [numeralHeader] below. *)
Definition numeralHeaders : list (headerType * list string) :=
  [ (headerFranked, ["franked amount"]);
    (headerUnfranked, ["unfranked"]);
    (headerWithholdingTax, ["withholding tax"; "less withholding tax"]);
    (headerSharesAllotted, ["number of shares allotted"]);
    (headerCostOfSharesAllotted, ["cost of shares allotted"]);
    (headerTotalShares, ["total shares"]);
    (headerTotalPayment, ["total payment"; "total amount"]);
    (headerFrankingCredit, ["franking credit"]);
    (headerOther, ["dividend rate"; "participating shares";
                   "participating holding"; "net amount";
                   "dividend reinvestment plan amount";
                   "cash balance brought forward";
                   "amount available from this payment";
                   "total amount available for reinvestment";
                   "cash balance carried forward"]) ].

Definition dateLayout : string := "02 January 2006".

Section Extraction.

Context {L : GoLib}.

(** The test of the [switch] in [numeralHeader]: the field of the header
    already holds a value.  [headerOther] has no case and no field. *)
Definition populated (h : headerType) (state : Statement) : bool :=
  match h with
  | headerFranked => HasValue (FrankedAmount state)
  | headerUnfranked => HasValue (UnfrankedAmount state)
  | headerWithholdingTax => HasValue (WithholdingTax state)
  | headerSharesAllotted => negb (SharesAllotted state =? 0)
  | headerCostOfSharesAllotted => HasValue (CostOfSharesAllotted state)
  | headerTotalShares => negb (TotalShares state =? 0)
  | headerTotalPayment => HasValue (TotalPayment state)
  | headerFrankingCredit => HasValue (FrankingCredit state)
  | headerOther => false
  end.

(** The inner loop, over the phrases of one header; [lowered] is the
    sentence after [strings.ToLower]. *)
Fixpoint matchesHeader (lowered : string) (h : headerType)
    (phrases : list string) (state : Statement) : bool :=
  match phrases with
  | [] => false
  | headerText :: rest =>
      if strings.HasPrefix lowered headerText then
        if populated h state then matchesHeader lowered h rest state
        else true
      else matchesHeader lowered h rest state
  end.

(** The outer loop, over the entries in the order [range] of this run. *)
Fixpoint firstHeader (lowered : string)
    (range : list (headerType * list string)) (state : Statement)
    : option headerType :=
  match range with
  | [] => None
  | (headType, header) :: rest =>
      if matchesHeader lowered headType header state then Some headType
      else firstHeader lowered rest state
  end.

Definition numeralHeader (range : list (headerType * list string))
    (s : string) (state : Statement) : option headerType :=
  firstHeader (ToLower s) range state.

(** The order the map is ranged over at a call of [numeralHeader], for the
    sentence and the state of the call. *)
Variable rangeOrder : string -> Statement -> list (headerType * list string).

Definition setEntity (state : Statement) (v : string) : Statement :=
  {| Entity := v; ASXCode := ASXCode state;
     AccountHolders := AccountHolders state; PaymentDate := PaymentDate state;
     TotalPayment := TotalPayment state; FrankingCredit := FrankingCredit state;
     UnfrankedAmount := UnfrankedAmount state; FrankedAmount := FrankedAmount state;
     WithholdingTax := WithholdingTax state; SharesAllotted := SharesAllotted state;
     CostOfSharesAllotted := CostOfSharesAllotted state;
     TotalShares := TotalShares state |}.

Definition setASXCode (state : Statement) (v : string) : Statement :=
  {| Entity := Entity state; ASXCode := v;
     AccountHolders := AccountHolders state; PaymentDate := PaymentDate state;
     TotalPayment := TotalPayment state; FrankingCredit := FrankingCredit state;
     UnfrankedAmount := UnfrankedAmount state; FrankedAmount := FrankedAmount state;
     WithholdingTax := WithholdingTax state; SharesAllotted := SharesAllotted state;
     CostOfSharesAllotted := CostOfSharesAllotted state;
     TotalShares := TotalShares state |}.

Definition setAccountHolders (state : Statement) (v : list string) : Statement :=
  {| Entity := Entity state; ASXCode := ASXCode state;
     AccountHolders := v; PaymentDate := PaymentDate state;
     TotalPayment := TotalPayment state; FrankingCredit := FrankingCredit state;
     UnfrankedAmount := UnfrankedAmount state; FrankedAmount := FrankedAmount state;
     WithholdingTax := WithholdingTax state; SharesAllotted := SharesAllotted state;
     CostOfSharesAllotted := CostOfSharesAllotted state;
     TotalShares := TotalShares state |}.

Definition setPaymentDate (state : Statement) (v : Time) : Statement :=
  {| Entity := Entity state; ASXCode := ASXCode state;
     AccountHolders := AccountHolders state; PaymentDate := v;
     TotalPayment := TotalPayment state; FrankingCredit := FrankingCredit state;
     UnfrankedAmount := UnfrankedAmount state; FrankedAmount := FrankedAmount state;
     WithholdingTax := WithholdingTax state; SharesAllotted := SharesAllotted state;
     CostOfSharesAllotted := CostOfSharesAllotted state;
     TotalShares := TotalShares state |}.

(** The [switch] of [processText] that binds the numeral [num] to the field
    of the header [h]: [NewDollar] for a currency field, [int] for a count,
    nothing for [headerOther]. *)
Definition bindField (h : headerType) (num : float) (state : Statement) : Statement :=
  let dollar := NewDollar num in
  let count := int64_of_float num in
  {| Entity := Entity state; ASXCode := ASXCode state;
     AccountHolders := AccountHolders state; PaymentDate := PaymentDate state;
     TotalPayment :=
       match h with headerTotalPayment => dollar | _ => TotalPayment state end;
     FrankingCredit :=
       match h with headerFrankingCredit => dollar | _ => FrankingCredit state end;
     UnfrankedAmount :=
       match h with headerUnfranked => dollar | _ => UnfrankedAmount state end;
     FrankedAmount :=
       match h with headerFranked => dollar | _ => FrankedAmount state end;
     WithholdingTax :=
       match h with headerWithholdingTax => dollar | _ => WithholdingTax state end;
     SharesAllotted :=
       match h with headerSharesAllotted => count | _ => SharesAllotted state end;
     CostOfSharesAllotted :=
       match h with
       | headerCostOfSharesAllotted => dollar
       | _ => CostOfSharesAllotted state
       end;
     TotalShares :=
       match h with headerTotalShares => count | _ => TotalShares state end |}.

(** A call of a method of the dispenser [d], inside the extraction pass. *)
Definition andThen {A B : Type} (o : outcome A) (k : A -> outcome B) : outcome B :=
  match o with
  | Ok a => k a
  | Panic => Panic
  | Diverge => Diverge
  end.

Notation "' p <- o ; k" := (andThen o (fun p => k))
  (at level 61, p pattern, o at next level, right associativity).

Definition findOtherData (sentence : string) (d : Dispenser) (state : Statement)
    : outcome (Dispenser * Statement) :=
  '(d, state) <-
    (if (3 <? Z.of_nat (String.length sentence))
        && String.eqb (substring 0 3 sentence) "ABN"
     then
       '(_, d) <- LastSentence d ;
       '(sent, d) <- DumpSentence d ;
       '(_, d) <- NextSentence d ;
       Ok (d, setEntity state sent)
     else Ok (d, state)) ;
  let state :=
    if (10 <? Z.of_nat (String.length sentence))
       && String.eqb (ToLower (substring 0 10 sentence)) "asx code: "
    then setASXCode state
           (ToUpper (substring 10 (String.length sentence - 10) sentence))
    else state in
  if strings.Contains (ToLower sentence) "payment date"
     || strings.Contains (ToLower sentence) "holder reference number"
  then
    '(_, d) <- NextSentence d ;
    '(sent, d) <- DumpSentence d ;
    let state :=
      match ParseTime dateLayout sent with
      | Some t => setPaymentDate state t
      | None => state
      end in
    '(_, d) <- LastSentence d ;
    Ok (d, state)
  else Ok (d, state).

(** The last part of the loop of [processText]: with a header pending, the
    first numeral of the sentence is looked for by a dispenser of its own. *)
Definition bindPending (sentence : string) (state : Statement)
    (numeralHeadTracker : list headerType)
    : outcome (Statement * list headerType) :=
  match numeralHeadTracker with
  | [] => Ok (state, numeralHeadTracker)
  | oldest :: remaining =>
      let numD := NewDispenserFromSentence sentence in
      '(_, numD) <- NextSentence numD ;
      '(found, numD) <- JumpNextNumeral numD ;
      '(position, numD) <- Position numD ;
      if found && (position <? 5) then
        match oldest with
        | headerOther => Ok (state, remaining)
        | _ =>
            '(num, numD) <- Numeral numD ;
            Ok (bindField oldest num state, remaining)
        end
      else Ok (state, numeralHeadTracker)
  end.

(** The holders whose name the text contains, in the order of [holders]. *)
Definition matchHolders (newSentence : string) (holders : list string)
    (state : Statement) : Statement :=
  if len (AccountHolders state) =? 0 then
    fold_left
      (fun st holder =>
         if strings.Contains (ToLower newSentence) (ToLower holder)
         then setAccountHolders st (AccountHolders st ++ [holder])
         else st)
      holders state
  else state.

(** The body of the loop of [processText], entered after [d.NextSentence()]
    answered true. *)
Definition processSentence (holders : list string) (d : Dispenser)
    (state : Statement) (numeralHeadTracker : list headerType)
    : outcome (Dispenser * Statement * list headerType) :=
  '(sentence, d) <- DumpSentence d ;
  match numeralHeader (rangeOrder sentence state) sentence state with
  | Some headType => Ok (d, state, (numeralHeadTracker ++ [headType])%list)
  | None =>
      '(_, d) <- StartOfSentence d ;
      '(sentences, d) <- DumpNSentences 5 d ;
      let newSentence := strings.Join sentences " " in
      let state := matchHolders newSentence holders state in
      match numeralHeader (rangeOrder newSentence state) newSentence state with
      | Some headType => Ok (d, state, (numeralHeadTracker ++ [headType])%list)
      | None =>
          '(d, state) <- findOtherData sentence d state ;
          '(state, numeralHeadTracker) <-
            bindPending sentence state numeralHeadTracker ;
          Ok (d, state, numeralHeadTracker)
      end
  end.

(** [for d.NextSentence() { ... }]: nothing bounds the number of rounds
    ([findOtherData] moves the cursor back), [fuel] is the number granted. *)
Fixpoint processLoop (fuel : nat) (holders : list string) (d : Dispenser)
    (state : Statement) (numeralHeadTracker : list headerType)
    : outcome (Dispenser * Statement * list headerType) :=
  '(more, d) <- NextSentence d ;
  if more then
    match fuel with
    | O => Diverge
    | S fuel' =>
        '(d, state, numeralHeadTracker) <-
          processSentence holders d state numeralHeadTracker ;
        processLoop fuel' holders d state numeralHeadTracker
    end
  else Ok (d, state, numeralHeadTracker).

(** The variables of [processText] after [rounds] rounds of its loop (or at
    its end, when it ends before). *)
Fixpoint processRounds (rounds : nat) (holders : list string) (d : Dispenser)
    (state : Statement) (numeralHeadTracker : list headerType)
    : outcome (Dispenser * Statement * list headerType) :=
  match rounds with
  | O => Ok (d, state, numeralHeadTracker)
  | S rounds' =>
      '(more, d) <- NextSentence d ;
      if more then
        '(d, state, numeralHeadTracker) <-
          processSentence holders d state numeralHeadTracker ;
        processRounds rounds' holders d state numeralHeadTracker
      else Ok (d, state, numeralHeadTracker)
  end.

Definition processText (fuel : nat) (fragments : list string)
    (holders : list string) : outcome Statement :=
  '(_, state, _) <-
    processLoop fuel holders (NewDispenser fragments) zeroStatement [] ;
  Ok state.

End Extraction.

End pdf.

(** ** An instance of the library, for plain ASCII text

    The instance below agrees with Go on ASCII input written in plain decimal
    notation, which is what the examples of this development use:
    [TrimSpace] trims the six ASCII white-space bytes (Go also trims the
    white space of Unicode), the case mappings change the letters A-Z and
    a-z only, [ParseFloat] reads a sign, digits and a fraction (Go also reads
    exponents, hexadecimal numerals, infinities and NaN) and [ParseTime]
    reads the one layout the code uses.  No theorem depends on it: each is
    proved for every [GoLib]. *)
Module ascii.

Definition isWhite (c : ascii) : bool :=
  let n := Z.of_nat (nat_of_ascii c) in
  ((9 <=? n) && (n <=? 13)) || (n =? 32).

Fixpoint trimLeftWhite (s : string) : string :=
  match s with
  | EmptyString => EmptyString
  | String c rest => if isWhite c then trimLeftWhite rest else s
  end.

(** The string without its trailing white space. *)
Fixpoint trimRightWhite (s : string) : string :=
  match s with
  | EmptyString => EmptyString
  | String c rest =>
      match trimRightWhite rest with
      | EmptyString => if isWhite c then EmptyString else String c EmptyString
      | kept => String c kept
      end
  end.

Definition TrimSpace (s : string) : string := trimRightWhite (trimLeftWhite s).

Definition lowerByte (c : ascii) : ascii :=
  let n := nat_of_ascii c in
  if ((65 <=? n) && (n <=? 90))%nat then ascii_of_nat (n + 32) else c.

Definition upperByte (c : ascii) : ascii :=
  let n := nat_of_ascii c in
  if ((97 <=? n) && (n <=? 122))%nat then ascii_of_nat (n - 32) else c.

Fixpoint mapBytes (f : ascii -> ascii) (s : string) : string :=
  match s with
  | EmptyString => EmptyString
  | String c rest => String (f c) (mapBytes f rest)
  end.

Definition ToLower : string -> string := mapBytes lowerByte.
Definition ToUpper : string -> string := mapBytes upperByte.

Definition digitValue (c : ascii) : option Z :=
  let n := Z.of_nat (nat_of_ascii c) in
  if (48 <=? n) && (n <=? 57) then Some (n - 48) else None.

(** The digits at the head of [s]: their value after [acc], their number,
    and the rest of the string. *)
Fixpoint readDigits (s : string) (acc : Z) (count : nat) : Z * nat * string :=
  match s with
  | EmptyString => (acc, count, s)
  | String c rest =>
      match digitValue c with
      | Some v => readDigits rest (10 * acc + v) (S count)
      | None => (acc, count, s)
      end
  end.

(** The float64 nearest to [n / 10^k] (ties to even) for [n > 0]: the
    quotient is taken with more than 64 bits and a sticky last bit, then
    rounded once. *)
Definition nearestFloat (n : Z) (k : nat) : spec_float :=
  let s := 64 + 4 * Z.of_nat k in
  let num := n * 2 ^ s in
  let den := 10 ^ Z.of_nat k in
  let q := num / den in
  let sticky := if num mod den =? 0 then 0 else 1 in
  binary_normalize prec emax (2 * q + sticky) (- s - 1) false.

Definition ParseFloat (s : string) : option float :=
  let '(negative, body) :=
    match s with
    | String c rest =>
        if Ascii.eqb c "-"%char then (true, rest)
        else if Ascii.eqb c "+"%char then (false, rest)
        else (false, s)
    | EmptyString => (false, s)
    end in
  let '(whole, nWhole, rest) := readDigits body 0 O in
  let '(n, nFrac, rest) :=
    match rest with
    | String c rest' =>
        if Ascii.eqb c "."%char then
          let '(n, nFrac, rest'') := readDigits rest' whole O in
          (n, nFrac, rest'')
        else (whole, O, rest)
    | EmptyString => (whole, O, rest)
    end in
  match rest with
  | String _ _ => None
  | EmptyString =>
      if (nWhole + nFrac =? 0)%nat then None
      else if n =? 0 then Some (if negative then (- 0)%float else 0%float)
      else
        match nearestFloat n nFrac with
        | S754_finite _ m e =>
            let x := SF2Prim (S754_finite false m e) in
            Some (if negative then (- x)%float else x)
        | S754_zero _ => Some (if negative then (- 0)%float else 0%float)
        | S754_infinity _ | S754_nan => None
        end
  end.

Definition monthNames : list string :=
  ["january"; "february"; "march"; "april"; "may"; "june"; "july";
   "august"; "september"; "october"; "november"; "december"].

Fixpoint monthNumber (name : string) (names : list string) (k : Z) : option Z :=
  match names with
  | [] => None
  | m :: rest => if String.eqb name m then Some k else monthNumber name rest (k + 1)
  end.

Definition daysIn (year month : Z) : Z :=
  if month =? 2 then
    if ((year mod 4 =? 0) && negb (year mod 100 =? 0)) || (year mod 400 =? 0)
    then 29 else 28
  else if (month =? 4) || (month =? 6) || (month =? 9) || (month =? 11) then 30
  else 31.

(** [time.Parse("02 January 2006", s)]: two digits, the full name of a
    month, four digits; the date is year, month, day. *)
Definition ParseTime (layout s : string) : option (Z * Z * Z) :=
  match strings.Split s space with
  | [dd; month; yyyy] =>
      match readDigits dd 0 O, monthNumber (ToLower month) monthNames 1,
            readDigits yyyy 0 O with
      | (day, 2%nat, EmptyString), Some m, (year, 4%nat, EmptyString) =>
          if (1 <=? day) && (day <=? daysIn year m) then Some (year, m, day)
          else None
      | _, _, _ => None
      end
  | _ => None
  end.

End ascii.

#[export] Instance asciiLib : GoLib := {|
  TrimSpace := ascii.TrimSpace;
  ToLower := ascii.ToLower;
  ToUpper := ascii.ToUpper;
  ParseFloat := ascii.ParseFloat;
  Time := Z * Z * Z;
  zeroTime := (1, 1, 1);
  ParseTime := ascii.ParseTime
|}.

(** ** The words of the specification *)

(** The trailing-space marker of a fragment: a fragment whose last byte is
    not a space ends its sentence. *)
Definition endsSentence (s : string) : bool :=
  match lastByte s with
  | Some c => negb (isSpace c)
  | None => false
  end.

(** The fragments of the sentence that starts the list [l]: the fragments
    up to the first one that ends a sentence, that one included. *)
Fixpoint sentenceFrom (l : list string) : list string :=
  match l with
  | [] => []
  | s :: rest => if endsSentence s then [s] else s :: sentenceFrom rest
  end.

Definition concatAll (l : list string) : string :=
  fold_right String.append EmptyString l.

(** The fragments from position [k] on. *)
Definition fragmentsFrom (l : list string) (k : Z) : list string :=
  skipn (Z.to_nat k) l.

(** The space-suffix convention reads the last byte of every fragment: a
    fragment sequence respects it when every fragment has one.  A dispenser
    is well formed when moreover its cursor is a position of the sequence
    or the position after its last fragment. *)
Definition nonEmptyFragments (l : list string) : Prop :=
  Forall (fun s => s <> EmptyString) l.

Definition wellFormed (d : dispenser.Dispenser) : Prop :=
  0 <= dispenser.i d <= len (dispenser.str d)
  /\ nonEmptyFragments (dispenser.str d).

(** [round(num/den)], halves upwards: the integer below [num/den + 1/2]. *)
Definition roundHalfUp (num den : Z) : Z := (2 * num + den) / (2 * den).

(** The bounds guard of [LastNWords] passes: [d.i-n-1], as Go computes it,
    is an index of the fragment list. *)
Definition lastNWordsGuard (n : Z) (d : dispenser.Dispenser) : Prop :=
  0 <= dispenser.wrap (dispenser.wrap (dispenser.i d - n) - 1)
    < len (dispenser.str d).

(** A method keeps the fragment list: no operation of the dispenser writes
    to [str]. *)
Definition keepsStr {A : Type} (m : dispenser.M A) : Prop :=
  forall d a d', m d = Ok (a, d') -> dispenser.str d' = dispenser.str d.

(** A method returns or panics: none of its loops runs out of the
    iterations it was granted. *)
Definition terminates {A : Type} (m : dispenser.M A) : Prop :=
  forall d, m d <> Diverge.

(** A method is safe: on a well-formed dispenser it returns, without a
    panic, and leaves the dispenser well formed. *)
Definition safe {A : Type} (m : dispenser.M A) : Prop :=
  forall d, wellFormed d -> exists a d', m d = Ok (a, d') /\ wellFormed d'.

(** What the loop of [JumpNextNumeral] has established when it ends at the
    dispenser [d'], started at [d]: the fragments it went over are words,
    and either the sentence is at its end or the cursor is on a numeral of
    the open sentence. *)
Definition scanned {L : GoLib} (d d' : dispenser.Dispenser) : Prop :=
  dispenser.str d' = dispenser.str d
  /\ dispenser.i d <= dispenser.i d'
  /\ (forall k, dispenser.i d <= k < dispenser.i d' ->
      exists s, index (dispenser.str d) k = Some s /\ dispenser.isNumeral s = false)
  /\ ((dispenser.continueNextSentence d' = false \/ len (dispenser.str d) <= dispenser.i d')
      \/ (dispenser.continueNextSentence d' = true
          /\ exists s, index (dispenser.str d) (dispenser.i d') = Some s /\ dispenser.isNumeral s = true
                       /\ s <> EmptyString)).

(** The headers whose field is a currency amount. *)
Definition isCurrency (h : pdf.headerType) : bool :=
  match h with
  | pdf.headerSharesAllotted | pdf.headerTotalShares | pdf.headerOther => false
  | _ => true
  end.

(** The exact value of the finite float64 [m * 2^e] as a fraction, and the
    integer below it. *)
Definition exactNum (m : positive) (e : Z) : Z :=
  if 0 <=? e then Zpos m * 2 ^ e else Zpos m.

Definition exactDen (e : Z) : Z :=
  if 0 <=? e then 1 else 2 ^ (- e).

Definition floatFloor (m : positive) (e : Z) : Z :=
  exactNum m e / exactDen e.

(** ** Sample inputs *)

(** A range over the table in the order of its declaration, one of the
    orders Go may choose. *)
Definition declaredOrder {L : GoLib}
    : string -> statement.Statement -> list (pdf.headerType * list string) :=
  fun _ _ => pdf.numeralHeaders.

(** A document reader whose arrays have one element, the operand itself, and
    whose fonts map every byte to itself: the text of a literal string is
    what stands between its delimiters. *)
Definition oneElementArray (a : string) : list string := [a].

Definition identityDecode (font e : string) : string :=
  match e with
  | EmptyString => EmptyString
  | String _ rest => dropLastByte rest
  end.

(** A dispenser at the start of the open sentence "total $4,500.50 paid",
    which another sentence follows. *)
Definition sampleDispenser : dispenser.Dispenser :=
  {| dispenser.i := 0; dispenser.continueNextSentence := true;
     dispenser.str := ["total "; "$4,500.50 "; "paid"; "next"] |}.

(** A sentence of two words. *)
Definition twoWords : list string := ["a "; "b"].

(** A document in which a label of [headerOther] is followed by another,
    and one in which the label "franked amount" comes twice before the
    first amount. *)
Definition otherLabels : list string :=
  ["dividend rate"; "net amount"; "1.00"; "2.00"; "x"; "y"].

Definition frankedTwice : list string :=
  ["franked amount"; "franked amount"; "1.00"; "2.00"; "x"; "y"].

(** A document that states the number of shares allotted twice, first as
    0. *)
Definition sharesTwice : list string :=
  ["number of shares allotted"; "0";
   "number of shares allotted"; "7"; "x"; "y"].

(** A text tracker that has shown nothing yet, with the literal string of
    one space as its operand. *)
Definition freshTracker : pdf.textTracker :=
  {| pdf.text := []; pdf.font := "F1"; pdf.stack := ["( )"] |}.

(** The queue, the franked amount and the number of shares allotted after
    some rounds of [processText] over the fragments [l]. *)
Definition afterRounds (rounds : nat) (l : list string)
    : option (list pdf.headerType * statement.Dollar * Z) :=
  match pdf.processRounds declaredOrder rounds [] (dispenser.NewDispenser l)
          statement.zeroStatement [] with
  | Ok (_, state, queue) =>
      Some (queue, statement.FrankedAmount state, statement.SharesAllotted state)
  | _ => None
  end.

(** ** More words for the dispenser *)

(** The first [count] sentences of the fragment list [l], each the
    concatenation of its fragments. *)
Fixpoint sentencesOf (count : nat) (l : list string) : list string :=
  match count with
  | O => []
  | S count' =>
      match l with
      | [] => []
      | _ :: _ =>
          concatAll (sentenceFrom l)
            :: sentencesOf count' (skipn (List.length (sentenceFrom l)) l)
      end
  end.

(** The position of the first numeral among the fragments [l]. *)
Fixpoint firstNumeral {L : GoLib} (l : list string) : option Z :=
  match l with
  | [] => None
  | s :: rest =>
      if dispenser.isNumeral s then Some 0
      else option_map Z.succ (firstNumeral rest)
  end.

(** ** More words for the extraction pass *)

(** No label phrase of the table is a prefix of the sentence, once
    lowered. *)
Definition labelFree {L : GoLib} (s : string) : bool :=
  forallb
    (fun entry =>
       forallb (fun phrase => negb (strings.HasPrefix (ToLower s) phrase))
               (snd entry))
    pdf.numeralHeaders.

(** A sentence [findOtherData] passes over: it does not start with "ABN" and
    holds neither of the two phrases that announce the payment date. *)
Definition noOtherData {L : GoLib} (s : string) : bool :=
  negb (String.eqb (substring 0 3 s) "ABN")
  && negb (strings.Contains (ToLower s) "payment date")
  && negb (strings.Contains (ToLower s) "holder reference number").

(** A sentence none of the tests of the extraction pass recognises. *)
Definition plainSentence {L : GoLib} (s : string) : bool :=
  labelFree s && noOtherData s.

(** The holders whose lowered name the lowered text contains, in the order
    of the list. *)
Definition holdersIn {L : GoLib} (text : string) (holders : list string)
    : list string :=
  filter (fun holder => strings.Contains (ToLower text) (ToLower holder)) holders.

(** The currency amounts and the counts of a statement. *)
Definition amounts {L : GoLib} (state : statement.Statement)
    : list statement.Dollar * list Z :=
  ([statement.TotalPayment state; statement.FrankingCredit state;
    statement.UnfrankedAmount state; statement.FrankedAmount state;
    statement.WithholdingTax state; statement.CostOfSharesAllotted state],
   [statement.SharesAllotted state; statement.TotalShares state]).

(** ** More words for the text tracker *)

(** The fragment list [new] continues the list [old]: it is at least as
    long, and every fragment of [old] is still there, at its position, as a
    prefix of what that position now holds. *)
Definition grows (old new : list string) : Prop :=
  (List.length old <= List.length new)%nat
  /\ forall k s, nth_error old k = Some s ->
                 exists s', nth_error new k = Some s' /\ String.prefix s s' = true.

(** The four operators that show text. *)
Definition showsText (token : string) : bool :=
  pdf.isOneOf token ["'"; "TJ"; "Tj"; String (ascii_of_nat 34) EmptyString].

(** The operators the interpreter knows, each with the number of operands
    it takes from the stack; the last one is the double-quote operator.  A
    token that is not in the table is an operand. *)
Definition operatorTable : list (string * nat) :=
  [("B", 0); ("B*", 0); ("F", 0); ("S", 0); ("b", 0); ("b*", 0); ("f", 0);
   ("f*", 0); ("h", 0); ("n", 0); ("s", 0); ("BT", 0); ("ET", 0); ("T*", 0);
   ("EMC", 0);
   ("G", 1); ("J", 1); ("M", 1); ("g", 1); ("gs", 1); ("i", 1); ("j", 1);
   ("w", 1); ("TL", 1); ("Tc", 1); ("Tr", 1); ("Ts", 1); ("Tw", 1); ("Tz", 1);
   ("BMC", 1); ("MP", 1);
   ("l", 2); ("m", 2); ("TD", 2); ("Td", 2); ("BDC", 2); ("DP", 2);
   ("RG", 3); ("rg", 3);
   ("re", 4); ("v", 4); ("y", 4); ("K", 4); ("k", 4);
   ("c", 6); ("cm", 6); ("Tm", 6);
   ("Tf", 2);
   ("'", 1); ("TJ", 1); ("Tj", 1);
   (String (ascii_of_nat 34) EmptyString, 3)]%nat.

Definition operandCount (token : string) : option nat :=
  option_map snd
    (find (fun entry => String.eqb token (fst entry)) operatorTable).

(** [h.String()], the name of a header. *)
Definition headerType_String (h : pdf.headerType) : string :=
  match h with
  | pdf.headerFranked => "Franked"
  | pdf.headerUnfranked => "Unfranked"
  | pdf.headerFrankingCredit => "Franking Credit"
  | pdf.headerWithholdingTax => "Withholding Tax"
  | pdf.headerSharesAllotted => "Shares Allotted"
  | pdf.headerCostOfSharesAllotted => "Cost Of Shares Allotted"
  | pdf.headerTotalShares => "Total Shares"
  | pdf.headerTotalPayment => "Total Payment"
  | pdf.headerOther => "Other"
  end.

(** ** Package main *)

Definition newline : ascii := ascii_of_nat 10.

(** The holders [main] reads: the lines of the file [holders.txt], without
    the last one when it is empty.  [strings.Split] returns at least one
    line, so [holders[len(holders)-1]] is in range. *)
Definition readHolders (data : string) : list string :=
  let holders := strings.Split data newline in
  if String.eqb (last holders EmptyString) EmptyString
  then removelast holders
  else holders.

(** The byte [c] occurs in [s]. *)
Fixpoint hasByte (c : ascii) (s : string) : bool :=
  match s with
  | EmptyString => false
  | String c' rest => Ascii.eqb c' c || hasByte c rest
  end.

(** ** Amounts in decimal notation *)

(** A number of cents written as an amount with two decimals. *)
Definition decimal2 (cents : Z) : string :=
  digits (cents / 100) ++ "."
    ++ (if cents mod 100 <? 10 then "0" else "") ++ digits (cents mod 100).

(** The amount of [cents] cents, read as a numeral, bound and serialized,
    is the amount again. *)
Definition amountSurvives (cents : Z) : bool :=
  match @dispenser.getNumeral asciiLib (decimal2 cents) with
  | Some number =>
      (statement.Cents (statement.NewDollar number) =? cents)
      && String.eqb (statement.MarshalJSON (statement.NewDollar number))
                    (decimal2 cents)
  | None => false
  end.

(** [f] holds of [count] consecutive integers from [start] on, and of
    [chunks] runs of [count] integers. *)
Fixpoint allFrom (f : Z -> bool) (count : nat) (start : Z) : bool :=
  match count with
  | O => true
  | S count' => f start && allFrom f count' (start + 1)
  end.

Fixpoint allChunks (f : Z -> bool) (chunks count : nat) (start : Z) : bool :=
  match chunks with
  | O => true
  | S chunks' =>
      allFrom f count start
      && allChunks f chunks' count (start + Z.of_nat count)
  end.

(** The field a header stands for: a currency amount, a count, or none for
    [headerOther]. *)
Definition fieldOf {L : GoLib} (h : pdf.headerType) (state : statement.Statement)
    : option (statement.Dollar + Z) :=
  match h with
  | pdf.headerFranked => Some (inl (statement.FrankedAmount state))
  | pdf.headerUnfranked => Some (inl (statement.UnfrankedAmount state))
  | pdf.headerFrankingCredit => Some (inl (statement.FrankingCredit state))
  | pdf.headerWithholdingTax => Some (inl (statement.WithholdingTax state))
  | pdf.headerSharesAllotted => Some (inr (statement.SharesAllotted state))
  | pdf.headerCostOfSharesAllotted =>
      Some (inl (statement.CostOfSharesAllotted state))
  | pdf.headerTotalShares => Some (inr (statement.TotalShares state))
  | pdf.headerTotalPayment => Some (inl (statement.TotalPayment state))
  | pdf.headerOther => None
  end.

(** The value of a header, as the constants are declared with [iota]. *)
Definition headerIndex (h : pdf.headerType) : Z :=
  match h with
  | pdf.headerFranked => 0
  | pdf.headerUnfranked => 1
  | pdf.headerFrankingCredit => 2
  | pdf.headerWithholdingTax => 3
  | pdf.headerSharesAllotted => 4
  | pdf.headerCostOfSharesAllotted => 5
  | pdf.headerTotalShares => 6
  | pdf.headerTotalPayment => 7
  | pdf.headerOther => 8
  end.

(** How many times the header [h] stands in the queue of pending headers. *)
Definition pendingCount (h : pdf.headerType) (queue : list pdf.headerType) : nat :=
  List.length (filter (fun h' => headerIndex h' =? headerIndex h) queue).

(** An element of an array of [TJ] that is a string, literal or
    hexadecimal: [write] shows these and skips the others. *)
Definition isStringOperand (e : string) : bool :=
  match e with
  | EmptyString => false
  | String c _ => Ascii.eqb c "("%char || Ascii.eqb c "<"%char
  end.

(** ** More sample inputs *)

(** A document that names two holders in its first sentence, and a list of
    holders. *)
Definition holdersDocument : list string :=
  ["Mr John Smith "; "and "; "Jane Doe"; "x "; "y"; "z"; "w"].

Definition holdersList : list string := ["john smith"; "Bob"; "JANE DOE"].

(** A dispenser on the one-fragment sentence "ABN 123", open, after the
    one-fragment sentence "Foo Ltd". *)
Definition entityDispenser : dispenser.Dispenser :=
  {| dispenser.i := 1; dispenser.continueNextSentence := true;
     dispenser.str := ["Foo Ltd"; "ABN 123"; "x"] |}.

(** A document whose first two fragments are sentences and whose third
    fragment starts a longer one. *)
Definition loopingDocument : list string := ["a"; "b"; "c "; "d"].

(** A document in which the label "franked amount" comes again after its
    amount, and the statement with 1.00 bound to the franked amount. *)
Definition frankedAgain : list string :=
  ["franked amount"; "1.00"; "franked amount"; "2.00"; "x"; "y"].

Definition frankedBound : statement.Statement :=
  pdf.bindField pdf.headerFranked 1%float statement.zeroStatement.

(** * Theorems *)

(** ** Slices and fragments *)

Lemma index_Some {A : Type} (l : list A) (k : Z) :
  0 <= k < len l -> exists a, index l k = Some a.
Proof.
  intros [Hlo Hhi]. unfold index, len in *.
  destruct (Z.ltb_spec k 0) as [Hneg|_]; [lia|].
  destruct (nth_error l (Z.to_nat k)) as [a|] eqn:Hnth; [now exists a|].
  apply nth_error_None in Hnth. lia.
Qed.

Lemma index_range {A : Type} (l : list A) (k : Z) (a : A) :
  index l k = Some a -> 0 <= k < len l.
Proof.
  unfold index, len. destruct (Z.ltb_spec k 0) as [|Hk]; [discriminate|].
  intros Hnth.
  assert (Hlt : (Z.to_nat k < List.length l)%nat)
    by (apply nth_error_Some; congruence).
  lia.
Qed.

Lemma index_None {A : Type} (l : list A) (k : Z) :
  index l k = None -> k < 0 \/ len l <= k.
Proof.
  unfold index, len. destruct (Z.ltb_spec k 0) as [|Hk]; [now left|].
  intros Hnth. apply nth_error_None in Hnth. right. lia.
Qed.

Lemma index_In {A : Type} (l : list A) (k : Z) (a : A) :
  index l k = Some a -> In a l.
Proof.
  unfold index. destruct (k <? 0); [discriminate|]. apply nth_error_In.
Qed.

Lemma lastByte_nonempty (s : string) :
  s <> EmptyString -> exists c, lastByte s = Some c.
Proof.
  induction s as [|c s IH]; [congruence|]. intros _.
  destruct s as [|c' s']; [now exists c|].
  destruct IH as [c0 Hc0]; [discriminate|]. exists c0. exact Hc0.
Qed.

Lemma lastByte_empty (s : string) : lastByte s = None -> s = EmptyString.
Proof.
  intros H. destruct s as [|c s]; [reflexivity|].
  destruct (lastByte_nonempty (String c s)) as [c0 Hc0]; [discriminate|].
  congruence.
Qed.

Lemma fragment_nonempty (l : list string) (k : Z) (s : string) :
  nonEmptyFragments l -> index l k = Some s -> s <> EmptyString.
Proof.
  intros Hall Hk. apply index_In in Hk.
  unfold nonEmptyFragments in Hall. rewrite Forall_forall in Hall.
  now apply Hall.
Qed.

(** ** The dispenser, operation by operation *)

Section DispenserFacts.

Context {L : GoLib}.
Import dispenser.

Lemma fragment_eq (k : Z) (d : Dispenser) :
  fragment k d =
  match index (str d) k with
  | Some s => Ok (s, d)
  | None => Panic
  end.
Proof.
  unfold fragment, bind, get, lift. destruct (index (str d) k); reflexivity.
Qed.

Lemma noTrailingSpace_eq (k : Z) (d : Dispenser) :
  noTrailingSpace k d =
  match index (str d) k with
  | Some s =>
      match lastByte s with
      | Some c => Ok (negb (isSpace c), d)
      | None => Panic
      end
  | None => Panic
  end.
Proof.
  unfold noTrailingSpace, bind. rewrite fragment_eq.
  destruct (index (str d) k) as [s|]; [|reflexivity].
  unfold lift. destruct (lastByte s); reflexivity.
Qed.

Lemma endsSentence_lastByte (s : string) (c : ascii) :
  lastByte s = Some c -> endsSentence s = negb (isSpace c).
Proof. unfold endsSentence. now intros ->. Qed.

(** On a fragment that is not empty the test of the code is
    [endsSentence]. *)
Lemma noTrailingSpace_ok (k : Z) (d : Dispenser) (s : string) :
  index (str d) k = Some s -> s <> EmptyString ->
  noTrailingSpace k d = Ok (endsSentence s, d).
Proof.
  intros Hk Hs. rewrite noTrailingSpace_eq, Hk.
  destruct (lastByte_nonempty s Hs) as [c Hc].
  now rewrite Hc, (endsSentence_lastByte s c Hc).
Qed.

Lemma noTrailingSpace_empty (k : Z) (d : Dispenser) :
  index (str d) k = Some EmptyString -> noTrailingSpace k d = Panic.
Proof. intros Hk. now rewrite noTrailingSpace_eq, Hk. Qed.

(** [NextWord] without the plumbing. *)
Lemma NextWord_eq (d : Dispenser) :
  NextWord d =
  if len (str d) <=? i d then Ok (false, d)
  else if negb (continueNextSentence d) then Ok (false, d)
  else
    match index (str d) (i d) with
    | None => Panic
    | Some s =>
        if isNumeral s then Ok (false, d)
        else
          match lastByte s with
          | None => Panic
          | Some c =>
              Ok (true,
                  {| i := i d + 1;
                     continueNextSentence :=
                       if negb (isSpace c) || (i d + 1 =? len (str d))
                       then false else continueNextSentence d;
                     str := str d |})
          end
    end.
Proof.
  unfold NextWord, bind, get.
  destruct (len (str d) <=? i d); [reflexivity|].
  destruct (negb (continueNextSentence d)); [reflexivity|].
  rewrite fragment_eq. destruct (index (str d) (i d)) as [s|] eqn:Hs; [|reflexivity].
  destruct (isNumeral s); [reflexivity|].
  rewrite noTrailingSpace_eq, Hs.
  destruct (lastByte s) as [c|]; [|reflexivity].
  destruct (negb (isSpace c) || (i d + 1 =? len (str d))); reflexivity.
Qed.

(** C8.  [NextWord] answers false and leaves the cursor and the flag as they
    are when the cursor is at the end of the fragments, when the sentence is
    closed, and when the current fragment is a numeral.  When it answers
    true, the consumed fragment is a word of the open sentence, the sentence
    is closed exactly when that fragment has no trailing space or is the last
    fragment of the sequence, and the cursor has advanced by one, whether the
    sentence was closed or not.  It answers true on every word that is not
    empty. *)
Theorem NextWord_contract (d : Dispenser) :
  (len (str d) <= i d -> NextWord d = Ok (false, d))
  /\ (continueNextSentence d = false -> NextWord d = Ok (false, d))
  /\ (forall s, index (str d) (i d) = Some s -> isNumeral s = true ->
      NextWord d = Ok (false, d))
  /\ (forall d', NextWord d = Ok (true, d') ->
      exists s,
        index (str d) (i d) = Some s /\ isNumeral s = false
        /\ continueNextSentence d = true
        /\ (continueNextSentence d' = false <->
            endsSentence s = true \/ i d + 1 = len (str d))
        /\ i d' = i d + 1 /\ str d' = str d)
  /\ (forall s, continueNextSentence d = true ->
      index (str d) (i d) = Some s -> isNumeral s = false ->
      s <> EmptyString ->
      exists d', NextWord d = Ok (true, d')).
Proof.
  rewrite NextWord_eq. repeat split.
  - intros Hend. destruct (Z.leb_spec (len (str d)) (i d)); [reflexivity|lia].
  - intros Hclosed. rewrite Hclosed. cbn.
    destruct (len (str d) <=? i d); reflexivity.
  - intros s Hs Hnum. rewrite Hs, Hnum.
    destruct (len (str d) <=? i d); [reflexivity|].
    destruct (negb (continueNextSentence d)); reflexivity.
  - intros d'. destruct (len (str d) <=? i d); [discriminate|].
    destruct (continueNextSentence d) eqn:Hopen; cbn; [|discriminate].
    destruct (index (str d) (i d)) as [s|]; [|discriminate].
    destruct (isNumeral s) eqn:Hnum; [discriminate|].
    destruct (lastByte s) as [c|] eqn:Hc; [|discriminate].
    intros Hok. injection Hok as <-. exists s. cbn.
    rewrite (endsSentence_lastByte s c Hc).
    repeat split; try reflexivity; try assumption.
    + destruct (negb (isSpace c)); cbn; [now left|].
      destruct (Z.eqb_spec (i d + 1) (len (str d))); [now right|discriminate].
    + intros [Hsp|Hlast].
      * now rewrite Hsp.
      * apply Z.eqb_eq in Hlast. rewrite Hlast. now rewrite orb_true_r.
  - intros s Hopen Hs Hnum Hne. rewrite Hs, Hnum, Hopen. cbn.
    apply index_range in Hs.
    destruct (Z.leb_spec (len (str d)) (i d)); [lia|].
    destruct (lastByte_nonempty s Hne) as [c ->]. eexists. reflexivity.
Qed.

(** C9, as the code has it.  When the bounds guard passes, [LastNWords]
    reads the fragment two positions behind the cursor, whatever [n] is: it
    returns that fragment when there is one and panics when that position is
    outside the sequence.  For [1 <= n] and a cursor within the sequence or
    just after it the fragment is there. *)
Theorem LastNWords_two_back (n : Z) (d : Dispenser) :
  lastNWordsGuard n d ->
  LastNWords n d =
    match index (str d) (i d - 2) with
    | Some s => Ok (s, d)
    | None => Panic
    end
  /\ (1 <= n < 2 ^ 62 -> len (str d) < 2 ^ 62 ->
      - 2 ^ 62 < i d <= len (str d) + 1 ->
      exists s, index (str d) (i d - 2) = Some s).
Proof.
  unfold lastNWordsGuard. intros Hguard. split.
  - unfold LastNWords, bind, get. cbv zeta.
    destruct (Z.ltb_spec (wrap (wrap (i d - n) - 1)) 0); [lia|].
    destruct (Z.leb_spec (len (str d)) (wrap (wrap (i d - n) - 1))); [lia|].
    cbn. apply fragment_eq.
  - intros Hn Hbound Hi. apply index_Some.
    assert (Hlen : 0 <= len (str d)) by (unfold len; lia).
    assert (Hw : forall z, - 2 ^ 63 <= z < 2 ^ 63 -> wrap z = z).
    { intros z Hz. unfold wrap.
      rewrite Z.mod_small; lia. }
    assert (H1 : wrap (i d - n) = i d - n).
    { apply Hw. unfold len in *. lia. }
    rewrite H1 in Hguard.
    assert (H2 : wrap (i d - n - 1) = i d - n - 1).
    { apply Hw. unfold len in *. lia. }
    rewrite H2 in Hguard. lia.
Qed.

End DispenserFacts.

(** ** No operation writes to the fragment list *)

Section KeepsStr.

Context {L : GoLib}.
Import dispenser.

Lemma keeps_ret {A : Type} (a : A) : keepsStr (ret a).
Proof. intros d a' d' H. injection H as _ <-. reflexivity. Qed.

Lemma keeps_get : keepsStr get.
Proof. intros d a' d' H. injection H as _ <-. reflexivity. Qed.

Lemma keeps_put_i (k : Z) : keepsStr (put_i k).
Proof. intros d a' d' H. injection H as _ <-. reflexivity. Qed.

Lemma keeps_put_continue (b : bool) : keepsStr (put_continue b).
Proof. intros d a' d' H. injection H as _ <-. reflexivity. Qed.

Lemma keeps_panic {A : Type} : keepsStr (@panic A).
Proof. intros d a' d' H. discriminate. Qed.

Lemma keeps_diverge {A : Type} : keepsStr (@diverge A).
Proof. intros d a' d' H. discriminate. Qed.

Lemma keeps_lift {A : Type} (o : option A) : keepsStr (lift o).
Proof. destruct o; [apply keeps_ret|apply keeps_panic]. Qed.

Lemma keeps_bind {A B : Type} (m : M A) (k : A -> M B) :
  keepsStr m -> (forall a, keepsStr (k a)) -> keepsStr (bind m k).
Proof.
  intros Hm Hk d b d' H. unfold bind in H.
  destruct (m d) as [[a d1]| |] eqn:Hmd; try discriminate.
  rewrite (Hk a d1 b d' H). exact (Hm d a d1 Hmd).
Qed.

Ltac keeps_step :=
  match goal with
  | |- keepsStr (bind _ _) => apply keeps_bind; [|intros ?]
  | |- keepsStr (ret _) => apply keeps_ret
  | |- keepsStr get => apply keeps_get
  | |- keepsStr (put_i _) => apply keeps_put_i
  | |- keepsStr (put_continue _) => apply keeps_put_continue
  | |- keepsStr panic => apply keeps_panic
  | |- keepsStr diverge => apply keeps_diverge
  | |- keepsStr (lift _) => apply keeps_lift
  | |- keepsStr (if ?b then _ else _) => destruct b
  | |- keepsStr (match ?x with _ => _ end) => destruct x
  | H : keepsStr ?m |- keepsStr ?m => exact H
  | H : forall x, keepsStr (?m x) |- keepsStr (?m _) => apply H
  | H : forall x y, keepsStr (?m x y) |- keepsStr (?m _ _) => apply H
  end.

Ltac keeps := repeat keeps_step.

Lemma keeps_fragment (k : Z) : keepsStr (fragment k).
Proof. unfold fragment. keeps. Qed.

Lemma keeps_noTrailingSpace (k : Z) : keepsStr (noTrailingSpace k).
Proof. unfold noTrailingSpace. keeps. apply keeps_fragment. Qed.

Lemma keeps_NextWord : keepsStr NextWord.
Proof.
  unfold NextWord. keeps; try apply keeps_fragment; apply keeps_noTrailingSpace.
Qed.

Lemma keeps_NextNumeral : keepsStr NextNumeral.
Proof.
  unfold NextNumeral. keeps; try apply keeps_fragment; apply keeps_noTrailingSpace.
Qed.

Lemma keeps_AtEndOfSentence : keepsStr AtEndOfSentence.
Proof. unfold AtEndOfSentence. keeps. Qed.

Lemma keeps_skipToNextSentence (fuel : nat) : keepsStr (skipToNextSentence fuel).
Proof.
  induction fuel as [|fuel IH]; cbn [skipToNextSentence];
    keeps; apply keeps_noTrailingSpace.
Qed.

Lemma keeps_NextSentence : keepsStr NextSentence.
Proof. unfold NextSentence. keeps. apply keeps_skipToNextSentence. Qed.

Lemma keeps_dumpLoop (fuel : nat) : forall sentence, keepsStr (dumpLoop fuel sentence).
Proof.
  induction fuel as [|fuel IH]; intros sentence; cbn [dumpLoop];
    keeps; try apply keeps_fragment; apply keeps_noTrailingSpace.
Qed.

Lemma keeps_DumpSentence : keepsStr DumpSentence.
Proof. unfold DumpSentence. keeps. apply keeps_dumpLoop. Qed.

Lemma keeps_dumpMore (count : nat) : forall sentences, keepsStr (dumpMore count sentences).
Proof.
  induction count as [|count IH]; intros sentences; cbn [dumpMore]; keeps.
  - apply keeps_NextSentence.
  - apply keeps_DumpSentence.
Qed.

Lemma keeps_DumpNSentences (n : Z) : keepsStr (DumpNSentences n).
Proof.
  unfold DumpNSentences. keeps.
  - apply keeps_DumpSentence.
  - apply keeps_dumpMore.
Qed.

Lemma keeps_scanForNumeral (fuel : nat) : keepsStr (scanForNumeral fuel).
Proof.
  induction fuel as [|fuel IH]; cbn [scanForNumeral]; keeps;
    first [apply keeps_AtEndOfSentence | apply keeps_NextNumeral
          | apply keeps_NextWord].
Qed.

Lemma keeps_JumpNextNumeral : keepsStr JumpNextNumeral.
Proof.
  unfold JumpNextNumeral. keeps;
    first [apply keeps_scanForNumeral | apply keeps_NextNumeral
          | apply keeps_AtEndOfSentence].
Qed.

Lemma keeps_rewindToSentenceStart (fuel : nat) :
  keepsStr (rewindToSentenceStart fuel).
Proof.
  induction fuel as [|fuel IH]; cbn [rewindToSentenceStart];
    keeps; apply keeps_noTrailingSpace.
Qed.

Lemma keeps_StartOfSentence : keepsStr StartOfSentence.
Proof.
  unfold StartOfSentence, singleWordSentence. keeps;
    first [apply keeps_noTrailingSpace | apply keeps_rewindToSentenceStart].
Qed.

End KeepsStr.

(** ** Fragments from a position, strings *)

Lemma append_assoc (a b c : string) : ((a ++ b) ++ c = a ++ (b ++ c))%string.
Proof. induction a as [|x a IH]; cbn; [reflexivity|now rewrite IH]. Qed.

Lemma append_empty_r (a : string) : (a ++ "")%string = a.
Proof. induction a as [|x a IH]; cbn; [reflexivity|now rewrite IH]. Qed.

Lemma skipn_nth_error {A : Type} (l : list A) (n : nat) (a : A) :
  nth_error l n = Some a -> skipn n l = a :: skipn (S n) l.
Proof.
  revert n. induction l as [|x l IH]; intros [|n] H; cbn in *;
    try discriminate.
  - now injection H as ->.
  - now apply IH.
Qed.

Lemma fragmentsFrom_cons (l : list string) (k : Z) (s : string) :
  index l k = Some s -> fragmentsFrom l k = s :: fragmentsFrom l (k + 1).
Proof.
  unfold index, fragmentsFrom. destruct (Z.ltb_spec k 0) as [|Hk]; [discriminate|].
  intros H. replace (Z.to_nat (k + 1)) with (S (Z.to_nat k)) by lia.
  now apply skipn_nth_error.
Qed.

Lemma fragmentsFrom_end (l : list string) (k : Z) :
  len l <= k -> fragmentsFrom l k = [].
Proof. unfold len, fragmentsFrom. intros H. apply skipn_all2. lia. Qed.

Lemma len_nonneg {A : Type} (l : list A) : 0 <= len l.
Proof. unfold len. lia. Qed.

Lemma len_cons {A : Type} (a : A) (l : list A) : len (a :: l) = 1 + len l.
Proof. unfold len. cbn [List.length]. lia. Qed.

Lemma len_fragmentsFrom (l : list string) (k : Z) :
  0 <= k <= len l -> len (fragmentsFrom l k) = len l - k.
Proof.
  unfold len, fragmentsFrom. intros H. rewrite length_skipn. lia.
Qed.

Lemma len_sentenceFrom (l : list string) : len (sentenceFrom l) <= len l.
Proof.
  induction l as [|s l IH]; cbn [sentenceFrom]; [lia|].
  pose proof (len_nonneg l).
  destruct (endsSentence s); rewrite !len_cons; [|lia].
  change (len (@nil string)) with 0. lia.
Qed.

Lemma len_sentenceFrom_pos (l : list string) :
  l <> [] -> 1 <= len (sentenceFrom l).
Proof.
  destruct l as [|s l]; [congruence|]. intros _. cbn [sentenceFrom].
  pose proof (len_nonneg (sentenceFrom l)).
  destruct (endsSentence s); rewrite len_cons;
    [change (len (@nil string)) with 0|]; lia.
Qed.

(** The sentence is made of the first fragments of the list: all but the
    last carry the trailing space, and the last one ends the sentence unless
    the list ends first. *)
Lemma sentenceFrom_shape (l : list string) :
  exists rest,
    l = (sentenceFrom l ++ rest)%list
    /\ Forall (fun s => endsSentence s = false) (removelast (sentenceFrom l))
    /\ (rest = [] \/ exists s, last (sentenceFrom l) EmptyString = s
                               /\ In s (sentenceFrom l)
                               /\ endsSentence s = true).
Proof.
  induction l as [|s l (rest & Hl & Hall & Hlast)]; cbn [sentenceFrom].
  - exists []. repeat split; [constructor|now left].
  - destruct (endsSentence s) eqn:Hs.
    + exists l. repeat split; [constructor|]. right. exists s.
      repeat split; [now left|exact Hs].
    + exists rest. split; [cbn; now rewrite <- Hl|]. split.
      * destruct (sentenceFrom l) as [|s' l'] eqn:Hsl; [constructor|].
        cbn [removelast]. constructor; [exact Hs|exact Hall].
      * destruct Hlast as [->|(s' & Hs' & Hin & Hends)]; [now left|].
        right. exists s'. repeat split; [|now right|exact Hends].
        destruct (sentenceFrom l); [contradiction|exact Hs'].
Qed.

(** ** The monad of the dispenser *)

Section MonadFacts.

Import dispenser.

Lemma bind_get {B : Type} (k : Dispenser -> M B) (d : Dispenser) :
  bind get k d = k d d.
Proof. reflexivity. Qed.

Lemma bind_ret {A B : Type} (a : A) (k : A -> M B) (d : Dispenser) :
  bind (ret a) k d = k a d.
Proof. reflexivity. Qed.

Lemma bind_put_i {B : Type} (z : Z) (k : unit -> M B) (d : Dispenser) :
  bind (put_i z) k d = k tt (setI d z).
Proof. reflexivity. Qed.

Lemma bind_put_continue {B : Type} (b : bool) (k : unit -> M B) (d : Dispenser) :
  bind (put_continue b) k d = k tt (setContinue d b).
Proof. reflexivity. Qed.

Lemma bind_Ok {A B : Type} (m : M A) (k : A -> M B) (d d1 : Dispenser) (a : A) :
  m d = Ok (a, d1) -> bind m k d = k a d1.
Proof. unfold bind. now intros ->. Qed.

Lemma bind_Panic {A B : Type} (m : M A) (k : A -> M B) (d : Dispenser) :
  m d = Panic -> bind m k d = Panic.
Proof. unfold bind. now intros ->. Qed.

Lemma bind_inv {A B : Type} (m : M A) (k : A -> M B) (d d' : Dispenser) (b : B) :
  bind m k d = Ok (b, d') ->
  exists a d1, m d = Ok (a, d1) /\ k a d1 = Ok (b, d').
Proof.
  unfold bind. destruct (m d) as [[a d1]| |]; try discriminate.
  intros H. now exists a, d1.
Qed.

Lemma bind_Diverge_inv {A B : Type} (m : M A) (k : A -> M B) (d : Dispenser) :
  bind m k d = Diverge ->
  m d = Diverge \/ exists a d1, m d = Ok (a, d1) /\ k a d1 = Diverge.
Proof.
  unfold bind. destruct (m d) as [[a d1]| |]; try discriminate.
  - intros H. right. now exists a, d1.
  - now left.
Qed.

Lemma setI_setI (d : Dispenser) (a b : Z) : setI (setI d a) b = setI d b.
Proof. reflexivity. Qed.

Lemma setI_same (d : Dispenser) : setI d (i d) = d.
Proof. now destruct d. Qed.

Lemma setContinue_same (d : Dispenser) :
  setContinue d (continueNextSentence d) = d.
Proof. now destruct d. Qed.

End MonadFacts.

(** ** Sentences: [NextSentence] and [DumpSentence] *)

Section SentenceFacts.

Context {L : GoLib}.
Import dispenser.

(** The loop of [NextSentence] leaves the cursor after the sentence the
    cursor is in. *)
Lemma skipToNextSentence_spec (fuel : nat) : forall d,
  nonEmptyFragments (str d) -> 0 <= i d ->
  len (str d) - i d <= Z.of_nat fuel ->
  skipToNextSentence fuel d =
    Ok (tt, setI d (i d + len (sentenceFrom (fragmentsFrom (str d) (i d))))).
Proof.
  induction fuel as [|fuel IH]; intros d Hne Hlo Hfuel;
    cbn [skipToNextSentence]; rewrite bind_get;
    destruct (Z.ltb_spec (i d) (len (str d))) as [Hlt|Hge]; try lia.
  - rewrite fragmentsFrom_end by lia. change (len (@nil string)) with 0.
    now rewrite Z.add_0_r, setI_same.
  - destruct (index_Some (str d) (i d)) as [s Hs]; [lia|].
    rewrite (bind_Ok _ _ _ _ _
               (noTrailingSpace_ok _ _ _ Hs (fragment_nonempty _ _ _ Hne Hs))).
    rewrite (fragmentsFrom_cons _ _ _ Hs). cbn [sentenceFrom].
    destruct (endsSentence s).
    + reflexivity.
    + rewrite bind_put_i, IH; cbn [str i setI]; try assumption; try lia.
      rewrite len_cons, setI_setI. do 3 f_equal. lia.
  - rewrite fragmentsFrom_end by lia. change (len (@nil string)) with 0.
    now rewrite Z.add_0_r, setI_same.
Qed.

Lemma skipToNextSentence_terminates (fuel : nat) : forall d,
  len (str d) - i d <= Z.of_nat fuel -> skipToNextSentence fuel d <> Diverge.
Proof.
  induction fuel as [|fuel IH]; intros d Hfuel;
    cbn [skipToNextSentence]; rewrite bind_get;
    destruct (Z.ltb_spec (i d) (len (str d))) as [Hlt|Hge];
    try lia; try discriminate.
  unfold bind at 1. rewrite noTrailingSpace_eq.
  destruct (index (str d) (i d)) as [s|]; [|discriminate].
  destruct (lastByte s) as [c|]; [|discriminate].
  destruct (negb (isSpace c)); [discriminate|].
  rewrite bind_put_i. apply IH. cbn. lia.
Qed.

(** The loop of [DumpSentence] collects the fragments of the sentence and
    leaves the cursor after them. *)
Lemma dumpLoop_spec (fuel : nat) : forall d sentence,
  nonEmptyFragments (str d) -> 0 <= i d ->
  len (str d) - i d <= Z.of_nat fuel ->
  dumpLoop fuel sentence d =
    Ok ((sentence ++ concatAll (sentenceFrom (fragmentsFrom (str d) (i d))))%string,
        setI d (i d + len (sentenceFrom (fragmentsFrom (str d) (i d))))).
Proof.
  induction fuel as [|fuel IH]; intros d sentence Hne Hlo Hfuel;
    cbn [dumpLoop]; rewrite bind_get;
    destruct (Z.ltb_spec (i d) (len (str d))) as [Hlt|Hge]; try lia.
  - rewrite fragmentsFrom_end by lia. change (len (@nil string)) with 0.
    cbn [sentenceFrom concatAll fold_right].
    now rewrite Z.add_0_r, setI_same, append_empty_r.
  - destruct (index_Some (str d) (i d)) as [s Hs]; [lia|].
    unfold bind at 1. rewrite fragment_eq, Hs.
    rewrite (bind_Ok _ _ _ _ _
               (noTrailingSpace_ok _ _ _ Hs (fragment_nonempty _ _ _ Hne Hs))).
    rewrite (fragmentsFrom_cons _ _ _ Hs). cbn [sentenceFrom].
    destruct (endsSentence s).
    + rewrite bind_put_i. cbn [concatAll fold_right]. unfold ret.
      now rewrite append_empty_r.
    + rewrite bind_put_i, IH; cbn [str i setI]; try assumption; try lia.
      rewrite len_cons, setI_setI. cbn [concatAll fold_right].
      rewrite append_assoc. do 3 f_equal. lia.
  - rewrite fragmentsFrom_end by lia. change (len (@nil string)) with 0.
    cbn [sentenceFrom concatAll fold_right].
    now rewrite Z.add_0_r, setI_same, append_empty_r.
Qed.

Lemma dumpLoop_terminates (fuel : nat) : forall d sentence,
  len (str d) - i d <= Z.of_nat fuel -> dumpLoop fuel sentence d <> Diverge.
Proof.
  induction fuel as [|fuel IH]; intros d sentence Hfuel;
    cbn [dumpLoop]; rewrite bind_get;
    destruct (Z.ltb_spec (i d) (len (str d))) as [Hlt|Hge];
    try lia; try discriminate.
  unfold bind at 1. rewrite fragment_eq.
  destruct (index (str d) (i d)) as [s|] eqn:Hs; [|discriminate].
  unfold bind at 1. rewrite noTrailingSpace_eq, Hs.
  destruct (lastByte s) as [c|]; [|discriminate].
  destruct (negb (isSpace c)); [discriminate|].
  rewrite bind_put_i. apply IH. cbn. lia.
Qed.

Lemma DumpSentence_closed (d : Dispenser) :
  continueNextSentence d = false -> DumpSentence d = Ok (EmptyString, d).
Proof. intros H. unfold DumpSentence. rewrite bind_get, H. reflexivity. Qed.

Lemma DumpSentence_open (d : Dispenser) :
  nonEmptyFragments (str d) -> 0 <= i d ->
  continueNextSentence d = true ->
  DumpSentence d =
    Ok (concatAll (sentenceFrom (fragmentsFrom (str d) (i d))),
        {| i := i d + len (sentenceFrom (fragmentsFrom (str d) (i d)));
           continueNextSentence := false;
           str := str d |}).
Proof.
  intros Hne Hlo Hopen. unfold DumpSentence. rewrite bind_get, Hopen.
  cbn [negb]. erewrite bind_Ok by (apply dumpLoop_spec; [assumption|assumption|lia]).
  reflexivity.
Qed.

Lemma DumpSentence_terminates : terminates DumpSentence.
Proof.
  intros d. unfold DumpSentence. rewrite bind_get.
  destruct (negb (continueNextSentence d)); [discriminate|].
  intros H. apply bind_Diverge_inv in H as [H|(a & d1 & _ & H)].
  - revert H. apply dumpLoop_terminates. lia.
  - discriminate.
Qed.

(** C6.  With no sentence open [DumpSentence] returns the empty string (and
    leaves the dispenser as it is).  With a sentence open, on a fragment
    sequence that respects the space-suffix convention, it returns the
    concatenation of the fragments of the sentence from the cursor through
    its last fragment, leaves the cursor after that fragment and the sentence
    closed.  The fragments of the sentence are the first fragments from the
    cursor on: all but the last carry the trailing space, and the last one
    has none unless the fragments end with it. *)
Theorem DumpSentence_contract (d : Dispenser) :
  (continueNextSentence d = false -> DumpSentence d = Ok (EmptyString, d))
  /\ (wellFormed d -> continueNextSentence d = true ->
      let sentence := sentenceFrom (fragmentsFrom (str d) (i d)) in
      DumpSentence d =
        Ok (concatAll sentence,
            {| i := i d + len sentence;
               continueNextSentence := false;
               str := str d |})
      /\ i d + len sentence <= len (str d)
      /\ exists rest,
           fragmentsFrom (str d) (i d) = (sentence ++ rest)%list
           /\ Forall (fun s => endsSentence s = false) (removelast sentence)
           /\ (rest = []
               \/ endsSentence (last sentence EmptyString) = true)).
Proof.
  split; [apply DumpSentence_closed|].
  intros [[Hlo Hhi] Hne] Hopen. cbv zeta. split; [|split].
  - now apply DumpSentence_open.
  - pose proof (len_sentenceFrom (fragmentsFrom (str d) (i d))) as Hle.
    rewrite len_fragmentsFrom in Hle by lia. lia.
  - destruct (sentenceFrom_shape (fragmentsFrom (str d) (i d)))
      as (rest & Hsplit & Hall & Hlast).
    exists rest. split; [exact Hsplit|]. split; [exact Hall|].
    destruct Hlast as [->|(s & <- & _ & Hends)]; [now left|now right].
Qed.

(** [NextSentence] on a well-formed dispenser. *)
Lemma NextSentence_spec (d : Dispenser) :
  nonEmptyFragments (str d) -> 0 <= i d ->
  NextSentence d =
    if len (str d) <=? i d then Ok (false, d)
    else if negb (continueNextSentence d) then Ok (true, setContinue d true)
    else
      let next := i d + len (sentenceFrom (fragmentsFrom (str d) (i d))) in
      if next + 1 =? len (str d) then Ok (false, setI d (next + 1))
      else if len (str d) <=? next then Ok (false, setI d next)
      else Ok (true, setI d next).
Proof.
  intros Hne Hlo. unfold NextSentence. rewrite bind_get.
  destruct (len (str d) <=? i d); [reflexivity|].
  destruct (negb (continueNextSentence d)); [reflexivity|].
  erewrite bind_Ok by (apply skipToNextSentence_spec; [assumption|assumption|lia]).
  rewrite bind_get. cbn [i str setI]. cbv zeta.
  destruct (_ + 1 =? len (str d)); [reflexivity|].
  destruct (len (str d) <=? _); reflexivity.
Qed.

Lemma NextSentence_terminates : terminates NextSentence.
Proof.
  intros d. unfold NextSentence. rewrite bind_get.
  destruct (len (str d) <=? i d); [discriminate|].
  destruct (negb (continueNextSentence d)); [discriminate|].
  intros H. apply bind_Diverge_inv in H as [H|(a & d1 & _ & H)].
  - revert H. apply skipToNextSentence_terminates. lia.
  - rewrite bind_get in H.
    destruct (i d1 + 1 =? len (str d1)); [discriminate|].
    destruct (len (str d1) <=? i d1); discriminate.
Qed.

Lemma terminates_bind {A B : Type} (m : M A) (k : A -> M B) :
  terminates m -> (forall a, terminates (k a)) -> terminates (bind m k).
Proof.
  intros Hm Hk d H. apply bind_Diverge_inv in H as [H|(a & d1 & _ & H)].
  - exact (Hm d H).
  - exact (Hk a d1 H).
Qed.

Lemma terminates_ret {A : Type} (a : A) : terminates (ret a).
Proof. intros d. discriminate. Qed.

Lemma safe_bind {A B : Type} (m : M A) (k : A -> M B) :
  safe m -> (forall a, safe (k a)) -> safe (bind m k).
Proof.
  intros Hm Hk d Hwf. destruct (Hm d Hwf) as (a & d1 & Hmd & Hwf1).
  destruct (Hk a d1 Hwf1) as (b & d2 & Hkd & Hwf2).
  exists b, d2. split; [|exact Hwf2]. now rewrite (bind_Ok _ _ _ _ _ Hmd).
Qed.

Lemma safe_ret {A : Type} (a : A) : safe (ret a).
Proof. intros d Hwf. now exists a, d. Qed.

Lemma safe_DumpSentence : safe DumpSentence.
Proof.
  intros d Hwf. destruct (continueNextSentence d) eqn:Hopen.
  - destruct Hwf as [[Hlo Hhi] Hne].
    eexists _, _. split; [now apply DumpSentence_open|].
    split; cbn [i str]; [|exact Hne].
    pose proof (len_nonneg (sentenceFrom (fragmentsFrom (str d) (i d)))).
    pose proof (len_sentenceFrom (fragmentsFrom (str d) (i d))) as Hle.
    rewrite len_fragmentsFrom in Hle by lia. lia.
  - exists EmptyString, d. split; [now apply DumpSentence_closed|exact Hwf].
Qed.

Lemma safe_NextSentence : safe NextSentence.
Proof.
  intros d [[Hlo Hhi] Hne]. rewrite NextSentence_spec by assumption.
  pose proof (len_sentenceFrom (fragmentsFrom (str d) (i d))) as Hle.
  rewrite len_fragmentsFrom in Hle by lia.
  pose proof (len_nonneg (sentenceFrom (fragmentsFrom (str d) (i d)))) as Hpos.
  destruct (Z.leb_spec (len (str d)) (i d)).
  { eexists _, _. split; [reflexivity|]. now split. }
  destruct (negb (continueNextSentence d)).
  { eexists _, _. split; [reflexivity|]. now split. }
  cbv zeta.
  destruct (Z.eqb_spec (i d + len (sentenceFrom (fragmentsFrom (str d) (i d))) + 1)
              (len (str d))).
  { eexists _, _. split; [reflexivity|]. split; cbn [i str setI]; [lia|exact Hne]. }
  destruct (Z.leb_spec (len (str d))
              (i d + len (sentenceFrom (fragmentsFrom (str d) (i d))))).
  { eexists _, _. split; [reflexivity|]. split; cbn [i str setI]; [lia|exact Hne]. }
  eexists _, _. split; [reflexivity|]. split; cbn [i str setI]; [lia|exact Hne].
Qed.

Lemma safe_dumpMore (count : nat) : forall sentences, safe (dumpMore count sentences).
Proof.
  induction count as [|count IH]; intros sentences; cbn [dumpMore].
  - apply safe_ret.
  - apply safe_bind; [apply safe_NextSentence|]. intros [|].
    + apply safe_bind; [apply safe_DumpSentence|]. intros s. apply IH.
    + apply safe_ret.
Qed.

Lemma dumpMore_terminates (count : nat) : forall sentences,
  terminates (dumpMore count sentences).
Proof.
  induction count as [|count IH]; intros sentences; cbn [dumpMore].
  - apply terminates_ret.
  - apply terminates_bind; [apply NextSentence_terminates|]. intros [|].
    + apply terminates_bind; [apply DumpSentence_terminates|]. intros s. apply IH.
    + apply terminates_ret.
Qed.

(** [DumpNSentences] in one equation: the sentences are those of
    [DumpSentence] and [dumpMore], the dispenser gets its cursor and its flag
    back. *)
Lemma DumpNSentences_eq (n : Z) (d : Dispenser) :
  DumpNSentences n d =
    match bind DumpSentence
            (fun first => dumpMore (Z.to_nat (wrap (n - 1))) [first]) d with
    | Ok (sentences, d') =>
        Ok (sentences,
            {| i := i d; continueNextSentence := continueNextSentence d;
               str := str d' |})
    | Panic => Panic
    | Diverge => Diverge
    end.
Proof.
  unfold DumpNSentences, bind, get, put_i, put_continue, ret. cbv zeta.
  destruct (DumpSentence d) as [[first d1]| |]; reflexivity.
Qed.

Lemma DumpNSentences_restores (n : Z) (d d' : Dispenser) (sentences : list string) :
  DumpNSentences n d = Ok (sentences, d') -> d' = d.
Proof.
  intros H. rewrite DumpNSentences_eq in H.
  destruct (bind DumpSentence _ d) as [[l d2]| |] eqn:Hrun; try discriminate.
  assert (Hstr : str d2 = str d).
  { revert Hrun. apply keeps_bind; [apply keeps_DumpSentence|].
    intros first. apply keeps_dumpMore. }
  injection H as _ <-. rewrite Hstr. now destruct d.
Qed.

Lemma DumpNSentences_terminates (n : Z) : terminates (DumpNSentences n).
Proof.
  intros d. rewrite DumpNSentences_eq.
  destruct (bind DumpSentence _ d) as [[l d2]| |] eqn:Hrun; try discriminate.
  exfalso. revert Hrun.
  apply terminates_bind; [apply DumpSentence_terminates|].
  intros first. apply dumpMore_terminates.
Qed.

Lemma safe_DumpNSentences (n : Z) : safe (DumpNSentences n).
Proof.
  intros d Hwf.
  assert (Hsafe : safe (bind DumpSentence
                          (fun first => dumpMore (Z.to_nat (wrap (n - 1))) [first]))).
  { apply safe_bind; [apply safe_DumpSentence|]. intros first. apply safe_dumpMore. }
  destruct (Hsafe d Hwf) as (l & d2 & Hrun & _).
  assert (Hd : DumpNSentences n d =
               Ok (l, {| i := i d;
                         continueNextSentence := continueNextSentence d;
                         str := str d2 |}))
    by now rewrite DumpNSentences_eq, Hrun.
  eexists _, _. split; [exact Hd|].
  now rewrite (DumpNSentences_restores _ _ _ _ Hd).
Qed.

(** C5.  [DumpNSentences] is a lookahead that moves nothing: whenever it
    returns, the dispenser it leaves is the dispenser it was given (cursor,
    open/closed flag and fragments), so a repeated call returns the same
    list and again the same dispenser.  It never loops for ever, and on every
    well-formed dispenser it does return. *)
Theorem DumpNSentences_peek (n : Z) (d : Dispenser) :
  (forall sentences d',
      DumpNSentences n d = Ok (sentences, d') ->
      i d' = i d /\ continueNextSentence d' = continueNextSentence d
      /\ d' = d /\ DumpNSentences n d' = Ok (sentences, d'))
  /\ DumpNSentences n d <> Diverge
  /\ (wellFormed d -> exists sentences, DumpNSentences n d = Ok (sentences, d)).
Proof.
  split; [|split].
  - intros sentences d' H.
    pose proof (DumpNSentences_restores _ _ _ _ H) as ->. now repeat split.
  - apply DumpNSentences_terminates.
  - intros Hwf. destruct (safe_DumpNSentences n d Hwf) as (l & d' & Hd & _).
    exists l. now rewrite <- (DumpNSentences_restores _ _ _ _ Hd) at 2.
Qed.

End SentenceFacts.

(** ** Numerals: [NextNumeral] and [JumpNextNumeral] *)

Section NumeralFacts.

Context {L : GoLib}.
Import dispenser.

Lemma AtEndOfSentence_eq (d : Dispenser) :
  AtEndOfSentence d =
    Ok (negb (continueNextSentence d) || (len (str d) <=? i d), d).
Proof.
  unfold AtEndOfSentence. rewrite bind_get.
  destruct (negb (continueNextSentence d)); [reflexivity|].
  destruct (len (str d) <=? i d); reflexivity.
Qed.

Lemma NextNumeral_eq (d : Dispenser) :
  NextNumeral d =
  if len (str d) <=? i d then Ok (false, d)
  else if negb (continueNextSentence d) then Ok (false, d)
  else
    match index (str d) (i d) with
    | None => Panic
    | Some s =>
        if isNumeral s then
          match lastByte s with
          | None => Panic
          | Some c =>
              Ok (true,
                  {| i := i d + 1;
                     continueNextSentence :=
                       if negb (isSpace c) then false
                       else continueNextSentence d;
                     str := str d |})
          end
        else Ok (false, d)
    end.
Proof.
  unfold NextNumeral, bind, get.
  destruct (len (str d) <=? i d); [reflexivity|].
  destruct (negb (continueNextSentence d)); [reflexivity|].
  rewrite fragment_eq. destruct (index (str d) (i d)) as [s|] eqn:Hs; [|reflexivity].
  destruct (isNumeral s); [|reflexivity].
  rewrite noTrailingSpace_eq, Hs.
  destruct (lastByte s) as [c|]; [|reflexivity].
  destruct (negb (isSpace c)); reflexivity.
Qed.

Lemma Numeral_eq (d : Dispenser) :
  Numeral d =
  if (len (str d) <? i d) || (i d =? 0) then Ok (0%float, d)
  else
    match index (str d) (i d - 1) with
    | None => Panic
    | Some s =>
        match getNumeral s with
        | Some num => Ok (num, d)
        | None => Ok (0%float, d)
        end
    end.
Proof.
  unfold Numeral. rewrite bind_get.
  destruct ((len (str d) <? i d) || (i d =? 0)); [reflexivity|].
  unfold bind. rewrite fragment_eq.
  destruct (index (str d) (i d - 1)) as [s|]; [|reflexivity].
  destruct (getNumeral s); reflexivity.
Qed.

Lemma Word_eq (d : Dispenser) :
  Word d =
  if (len (str d) <? i d) || (i d =? 0) then Ok (EmptyString, d)
  else
    match index (str d) (i d - 1) with
    | None => Panic
    | Some s => Ok (TrimSpace s, d)
    end.
Proof.
  unfold Word. rewrite bind_get.
  destruct ((len (str d) <? i d) || (i d =? 0)); [reflexivity|].
  unfold bind. rewrite fragment_eq.
  destruct (index (str d) (i d - 1)) as [s|]; reflexivity.
Qed.

Lemma scanForNumeral_spec (fuel : nat) : forall d,
  len (str d) - i d <= Z.of_nat fuel ->
  match scanForNumeral fuel d with
  | Ok (_, d') => scanned d d' /\ (i d <= len (str d) -> i d' <= len (str d))
  | Panic => ~ wellFormed d
  | Diverge => False
  end.
Proof.
  induction fuel as [|fuel IH]; intros d Hfuel; cbn [scanForNumeral];
    unfold bind at 1; rewrite AtEndOfSentence_eq.
  - destruct (continueNextSentence d) eqn:Hopen; cbn [negb orb].
    + destruct (Z.leb_spec (len (str d)) (i d)); [|lia]. cbn.
      split; [|lia]. unfold scanned. repeat split; try lia.
    + cbn. split; [|lia]. unfold scanned. repeat split; try lia; try (left; now left).
  - destruct (continueNextSentence d) eqn:Hopen; cbn [negb orb].
    2:{ cbn. split; [|lia]. unfold scanned. repeat split; try lia; try (left; now left). }
    destruct (Z.leb_spec (len (str d)) (i d)) as [Hge|Hlt].
    { cbn. split; [|lia]. unfold scanned. repeat split; try lia. }
    unfold bind at 1. rewrite NextNumeral_eq.
    destruct (Z.leb_spec (len (str d)) (i d)); [lia|]. rewrite Hopen.
    cbn [negb].
    destruct (index (str d) (i d)) as [s|] eqn:Hs.
    2:{ intros [[Hlo Hhi] _]. apply index_None in Hs. lia. }
    destruct (isNumeral s) eqn:Hnum.
    + destruct (lastByte s) as [c|] eqn:Hc.
      2:{ intros [_ Hne]. apply lastByte_empty in Hc. subst s.
          now apply (fragment_nonempty _ _ _ Hne Hs). }
      rewrite bind_get, bind_put_i. unfold put_continue.
      cbv beta iota. cbn [i str continueNextSentence setI setContinue].
      replace (i d + 1 - 1) with (i d) by lia.
      unfold scanned. cbn [i str continueNextSentence setI setContinue].
      split; [|lia].
      split; [reflexivity|]. split; [lia|]. split; [intros k Hk; lia|].
      right. split; [reflexivity|]. exists s.
      repeat split; try assumption.
      intros ->. discriminate.
    + unfold bind at 1. rewrite NextWord_eq.
      destruct (Z.leb_spec (len (str d)) (i d)); [lia|]. rewrite Hopen, Hs, Hnum.
      cbn [negb].
      destruct (lastByte s) as [c|] eqn:Hc.
      2:{ intros [_ Hne]. apply lastByte_empty in Hc. subst s.
          now apply (fragment_nonempty _ _ _ Hne Hs). }
      set (d1 := {| i := i d + 1; continueNextSentence := _; str := str d |}).
      specialize (IH d1). cbn [i str d1] in IH.
      destruct (scanForNumeral fuel d1) as [[[] d']| |].
      * destruct IH as [[Hstr [Hle [Hwords Hend]]] Hhi]; [lia|].
        change (str d1) with (str d) in *. change (i d1) with (i d + 1) in *.
        split; [|lia]. unfold scanned.
        split; [exact Hstr|]. split; [lia|]. split; [|exact Hend].
        intros k Hk. destruct (Z.eq_dec k (i d)) as [->|Hne].
        -- now exists s.
        -- apply Hwords. lia.
      * intros [[Hlo Hhi] Hne]. apply IH; [lia|]. split; cbn [i str d1]; [lia|exact Hne].
      * apply IH. lia.
Qed.

Lemma isNumeral_getNumeral (s : string) :
  isNumeral s = true -> exists num, getNumeral s = Some num.
Proof.
  unfold isNumeral. destruct (getNumeral s) as [num|]; [|discriminate].
  intros _. now exists num.
Qed.

(** [JumpNextNumeral], outcome by outcome. *)
Lemma JumpNextNumeral_spec (d : Dispenser) :
  match JumpNextNumeral d with
  | Ok (true, d') =>
      str d' = str d /\ continueNextSentence d' = true /\ i d < i d'
      /\ (exists s, index (str d) (i d' - 1) = Some s /\ isNumeral s = true)
      /\ (forall k, i d <= k < i d' - 1 ->
          exists s, index (str d) k = Some s /\ isNumeral s = false)
  | Ok (false, d') => str d' = str d /\ i d' = i d
  | Panic => ~ wellFormed d
  | Diverge => False
  end.
Proof.
  unfold JumpNextNumeral. rewrite bind_get. cbv zeta. unfold bind at 1.
  pose proof (scanForNumeral_spec (Z.to_nat (len (str d) - i d)) d) as Hscan.
  destruct (scanForNumeral _ d) as [[[] d1]| |]; try (apply Hscan; lia).
  destruct Hscan as [(Hstr & Hle & Hwords & Hend) _]; [lia|].
  unfold bind at 1. rewrite NextNumeral_eq. rewrite Hstr.
  destruct Hend as [Hend|(Hopen & s & Hs & Hnum & Hne)].
  - assert (Hfalse : (if len (str d) <=? i d1 then Ok (false, d1)
                      else if negb (continueNextSentence d1) then Ok (false, d1)
                      else
                        match index (str d) (i d1) with
                        | Some s =>
                            if isNumeral s then
                              match lastByte s with
                              | Some c =>
                                  Ok (true,
                                      {| i := i d1 + 1;
                                         continueNextSentence :=
                                           if negb (isSpace c) then false
                                           else continueNextSentence d1;
                                         str := str d |})
                              | None => Panic
                              end
                            else Ok (false, d1)
                        | None => Panic
                        end) = Ok (false, d1)).
    { destruct Hend as [Hclosed|Hpast].
      - rewrite Hclosed. cbn. destruct (len (str d) <=? i d1); reflexivity.
      - destruct (Z.leb_spec (len (str d)) (i d1)); [reflexivity|lia]. }
    rewrite Hfalse. unfold bind at 1. rewrite AtEndOfSentence_eq, Hstr.
    assert (Hat : negb (continueNextSentence d1) || (len (str d) <=? i d1) = true).
    { destruct Hend as [Hclosed|Hpast].
      - now rewrite Hclosed.
      - destruct (Z.leb_spec (len (str d)) (i d1)); [apply orb_true_r|lia]. }
    rewrite Hat. cbn. now split.
  - pose proof (index_range _ _ _ Hs) as Hrange.
    destruct (Z.leb_spec (len (str d)) (i d1)); [lia|].
    rewrite Hopen, Hs, Hnum. cbn [negb].
    destruct (lastByte_nonempty s Hne) as [c Hc]. rewrite Hc.
    unfold bind at 1. rewrite AtEndOfSentence_eq. cbn.
    replace (i d1 + 1 - 1) with (i d1) by lia.
    split; [reflexivity|]. split; [reflexivity|]. split; [lia|].
    split; [now exists s|exact Hwords].
Qed.

Lemma safe_JumpNextNumeral : safe JumpNextNumeral.
Proof.
  intros d Hwf. pose proof (JumpNextNumeral_spec d) as Hspec.
  destruct (JumpNextNumeral d) as [[[|] d']| |].
  - destruct Hspec as (Hstr & _ & Hlt & (s & Hs & _) & _).
    exists true, d'. split; [reflexivity|].
    pose proof (index_range _ _ _ Hs) as Hrange.
    destruct Hwf as [[Hlo Hhi] Hne]. split; rewrite Hstr; [lia|exact Hne].
  - destruct Hspec as [Hstr Hi]. exists false, d'. split; [reflexivity|].
    destruct Hwf as [[Hlo Hhi] Hne]. split; rewrite Hstr, ?Hi; [lia|exact Hne].
  - contradiction.
  - contradiction.
Qed.

(** C3.  [JumpNextNumeral] either answers true, and then the fragment just
    consumed is a numeral whose value [Numeral] returns, or it answers false,
    and then the cursor is where it was before the call.  It never loops for
    ever, and it returns (rather than panics) on every well-formed
    dispenser. *)
Theorem JumpNextNumeral_contract (d : Dispenser) :
  (forall d', JumpNextNumeral d = Ok (true, d') ->
      i d < i d'
      /\ exists s num,
           index (str d) (i d' - 1) = Some s
           /\ getNumeral s = Some num
           /\ Numeral d' = Ok (num, d'))
  /\ (forall d', JumpNextNumeral d = Ok (false, d') ->
      i d' = i d /\ str d' = str d)
  /\ JumpNextNumeral d <> Diverge
  /\ (wellFormed d ->
      exists found d', JumpNextNumeral d = Ok (found, d') /\ wellFormed d').
Proof.
  pose proof (JumpNextNumeral_spec d) as Hspec.
  split; [|split; [|split]].
  - intros d' H. rewrite H in Hspec.
    destruct Hspec as (Hstr & _ & Hlt & (s & Hs & Hnum) & _).
    split; [exact Hlt|].
    destruct (isNumeral_getNumeral s Hnum) as [num Hget].
    exists s, num. repeat split; try assumption.
    rewrite Numeral_eq, Hstr, Hs, Hget.
    pose proof (index_range _ _ _ Hs) as Hrange.
    destruct (Z.ltb_spec (len (str d)) (i d')); [lia|].
    destruct (Z.eqb_spec (i d') 0); [lia|]. reflexivity.
  - intros d' H. rewrite H in Hspec. destruct Hspec as [Hstr Hi]. now split.
  - intros H. now rewrite H in Hspec.
  - apply safe_JumpNextNumeral.
Qed.

End NumeralFacts.

(** ** Positioning: [StartOfSentence] and [LastSentence]; the safe operations *)

Section SafetyFacts.

Context {L : GoLib}.
Import dispenser.

Lemma rewindToSentenceStart_safe (fuel : nat) : forall d,
  nonEmptyFragments (str d) ->
  0 <= i d -> (i d = 0 \/ i d < len (str d)) ->
  i d <= Z.of_nat fuel ->
  exists d', rewindToSentenceStart fuel d = Ok (tt, d')
             /\ str d' = str d /\ 0 <= i d' <= len (str d).
Proof.
  induction fuel as [|fuel IH]; intros d Hne Hlo Hhi Hfuel;
    cbn [rewindToSentenceStart]; rewrite bind_get;
    destruct (Z.ltb_spec 0 (i d)) as [Hpos|Hzero]; try lia.
  - exists d. pose proof (len_nonneg (str d)). repeat split; lia.
  - destruct (index_Some (str d) (i d)) as [s Hs]; [lia|].
    rewrite (bind_Ok _ _ _ _ _
               (noTrailingSpace_ok _ _ _ Hs (fragment_nonempty _ _ _ Hne Hs))).
    destruct (endsSentence s).
    + eexists. split; [reflexivity|]. cbn [i str setI]. repeat split; lia.
    + rewrite bind_put_i.
      destruct (IH (setI d (i d - 1))) as (d' & Hrun & Hstr & Hrange);
        cbn [i str setI]; try assumption; try lia.
      exists d'. now repeat split.
  - exists d. pose proof (len_nonneg (str d)). repeat split; lia.
Qed.

Lemma singleWordSentence_safe (d : Dispenser) :
  wellFormed d ->
  exists single, singleWordSentence d = Ok (single, d)
                 /\ (single = true -> 0 < i d < len (str d)).
Proof.
  intros [[Hlo Hhi] Hne]. unfold singleWordSentence. rewrite bind_get.
  destruct (Z.ltb_spec 0 (i d)) as [Hpos|Hzero]; cbn [andb].
  2:{ exists false. split; [reflexivity|discriminate]. }
  destruct (Z.ltb_spec (i d) (len (str d))) as [Hlt|Hge].
  2:{ exists false. split; [reflexivity|discriminate]. }
  destruct (index_Some (str d) (i d)) as [s Hs]; [lia|].
  destruct (index_Some (str d) (i d - 1)) as [s' Hs']; [lia|].
  rewrite (bind_Ok _ _ _ _ _
             (noTrailingSpace_ok _ _ _ Hs (fragment_nonempty _ _ _ Hne Hs))).
  destruct (endsSentence s).
  - rewrite (noTrailingSpace_ok _ _ _ Hs' (fragment_nonempty _ _ _ Hne Hs')).
    eexists. split; [reflexivity|]. intros _. lia.
  - exists false. split; [reflexivity|discriminate].
Qed.

Lemma safe_StartOfSentence : safe StartOfSentence.
Proof.
  intros d Hwf. destruct (singleWordSentence_safe d Hwf) as (single & Hsingle & Hrange).
  destruct Hwf as [[Hlo Hhi] Hne].
  unfold StartOfSentence. rewrite bind_get, (bind_Ok _ _ _ _ _ Hsingle).
  destruct single.
  { specialize (Hrange eq_refl).
    destruct (negb (continueNextSentence d)).
    - eexists _, _. split; [reflexivity|]. split; cbn [i str setI setContinue]; [lia|exact Hne].
    - eexists _, _. split; [reflexivity|]. now split. }
  destruct (Z.eqb_spec (i d) 0) as [Hzero|Hnz].
  { eexists _, _. split; [reflexivity|]. split; cbn [i str setContinue]; [lia|exact Hne]. }
  destruct (Z.eqb_spec (len (str d)) 1) as [Hone|Hmany].
  { eexists _, _. split; [reflexivity|]. split; cbn [i str setI]; [lia|exact Hne]. }
  assert (Hrewind : forall k, 0 <= k < len (str d) ->
            exists a d',
              bind (put_continue true)
                (fun _ => bind get
                   (fun d0 => rewindToSentenceStart (Z.to_nat (i d0))))
                (setI d k) = Ok (a, d') /\ wellFormed d').
  { intros k Hk. rewrite bind_put_continue, bind_get.
    destruct (rewindToSentenceStart_safe (Z.to_nat k) (setContinue (setI d k) true))
      as (d' & Hrun & Hstr & Hrange'); cbn [i str setI setContinue];
      try assumption; try lia.
    exists tt, d'. cbn [i setI setContinue]. split; [exact Hrun|].
    cbn [str setI setContinue] in Hstr, Hrange'.
    split; rewrite Hstr; [lia|exact Hne]. }
  destruct ((i d =? len (str d)) || negb (continueNextSentence d)) eqn:Hback.
  - rewrite bind_put_i, bind_get. cbn [i setI].
    destruct (Z.ltb_spec (i d - 2) 0) as [Hneg|Hok].
    + rewrite bind_put_i, setI_setI. apply Hrewind. lia.
    + rewrite bind_ret. apply Hrewind. lia.
  - apply orb_false_elim in Hback as [Hnotend _]. apply Z.eqb_neq in Hnotend.
    rewrite bind_ret, bind_get.
    destruct (Z.ltb_spec (i d) 0) as [Hneg|Hok]; [lia|].
    rewrite bind_ret. specialize (Hrewind (i d)). rewrite setI_same in Hrewind.
    apply Hrewind. lia.
Qed.

Lemma safe_NextWord : safe NextWord.
Proof.
  intros d [[Hlo Hhi] Hne]. rewrite NextWord_eq.
  destruct (Z.leb_spec (len (str d)) (i d)).
  { eexists _, _. split; [reflexivity|]. now split. }
  destruct (negb (continueNextSentence d)).
  { eexists _, _. split; [reflexivity|]. now split. }
  destruct (index_Some (str d) (i d)) as [s Hs]; [lia|]. rewrite Hs.
  destruct (isNumeral s).
  { eexists _, _. split; [reflexivity|]. now split. }
  destruct (lastByte_nonempty s (fragment_nonempty _ _ _ Hne Hs)) as [c ->].
  eexists _, _. split; [reflexivity|]. split; cbn [i str]; [lia|exact Hne].
Qed.

Lemma safe_NextNumeral : safe NextNumeral.
Proof.
  intros d [[Hlo Hhi] Hne]. rewrite NextNumeral_eq.
  destruct (Z.leb_spec (len (str d)) (i d)).
  { eexists _, _. split; [reflexivity|]. now split. }
  destruct (negb (continueNextSentence d)).
  { eexists _, _. split; [reflexivity|]. now split. }
  destruct (index_Some (str d) (i d)) as [s Hs]; [lia|]. rewrite Hs.
  destruct (isNumeral s).
  2:{ eexists _, _. split; [reflexivity|]. now split. }
  destruct (lastByte_nonempty s (fragment_nonempty _ _ _ Hne Hs)) as [c ->].
  eexists _, _. split; [reflexivity|]. split; cbn [i str]; [lia|exact Hne].
Qed.

Lemma safe_Word : safe Word.
Proof.
  intros d [[Hlo Hhi] Hne]. rewrite Word_eq.
  destruct (Z.ltb_spec (len (str d)) (i d)); [lia|].
  destruct (Z.eqb_spec (i d) 0); cbn [orb].
  { eexists _, _. split; [reflexivity|]. now split. }
  destruct (index_Some (str d) (i d - 1)) as [s Hs]; [lia|]. rewrite Hs.
  eexists _, _. split; [reflexivity|]. now split.
Qed.

Lemma safe_Numeral : safe Numeral.
Proof.
  intros d [[Hlo Hhi] Hne]. rewrite Numeral_eq.
  destruct (Z.ltb_spec (len (str d)) (i d)); [lia|].
  destruct (Z.eqb_spec (i d) 0); cbn [orb].
  { eexists _, _. split; [reflexivity|]. now split. }
  destruct (index_Some (str d) (i d - 1)) as [s Hs]; [lia|]. rewrite Hs.
  destruct (getNumeral s); eexists _, _; (split; [reflexivity|]); now split.
Qed.

Lemma wellFormed_NewDispenser (fragments : list string) :
  nonEmptyFragments fragments -> wellFormed (NewDispenser fragments).
Proof.
  intros Hne. split; [|exact Hne]. cbn. pose proof (len_nonneg fragments). lia.
Qed.

(** On an empty fragment the trailing-space test reads [s[-1]]. *)
Lemma empty_fragment_panics (d : Dispenser) :
  continueNextSentence d = true ->
  index (str d) (i d) = Some EmptyString ->
  NextSentence d = Panic /\ DumpSentence d = Panic
  /\ (forall n, DumpNSentences n d = Panic)
  /\ (isNumeral EmptyString = false ->
      NextWord d = Panic /\ JumpNextNumeral d = Panic
      /\ NextNumeral d = Ok (false, d)).
Proof.
  intros Hopen Hs. pose proof (index_range _ _ _ Hs) as Hrange.
  assert (Hfuel : exists fuel, Z.to_nat (len (str d) - i d) = S fuel).
  { exists (Z.to_nat (len (str d) - i d - 1)). lia. }
  destruct Hfuel as [fuel Hfuel]. repeat split.
  - unfold NextSentence. rewrite bind_get.
    destruct (Z.leb_spec (len (str d)) (i d)); [lia|]. rewrite Hopen. cbn [negb].
    apply bind_Panic. rewrite Hfuel. cbn [skipToNextSentence]. rewrite bind_get.
    destruct (Z.ltb_spec (i d) (len (str d))); [|lia].
    apply bind_Panic. now apply noTrailingSpace_empty.
  - unfold DumpSentence. rewrite bind_get, Hopen. cbn [negb].
    apply bind_Panic. rewrite Hfuel. cbn [dumpLoop]. rewrite bind_get.
    destruct (Z.ltb_spec (i d) (len (str d))); [|lia].
    unfold bind at 1. rewrite fragment_eq, Hs.
    apply bind_Panic. now apply noTrailingSpace_empty.
  - intros n. rewrite DumpNSentences_eq. unfold bind at 1.
    assert (Hdump : DumpSentence d = Panic).
    { unfold DumpSentence. rewrite bind_get, Hopen. cbn [negb].
      apply bind_Panic. rewrite Hfuel. cbn [dumpLoop]. rewrite bind_get.
      destruct (Z.ltb_spec (i d) (len (str d))); [|lia].
      unfold bind at 1. rewrite fragment_eq, Hs.
      apply bind_Panic. now apply noTrailingSpace_empty. }
    now rewrite Hdump.
  - rewrite NextWord_eq.
    destruct (Z.leb_spec (len (str d)) (i d)); [lia|].
    now rewrite Hopen, Hs, H.
  - unfold JumpNextNumeral. rewrite bind_get. cbv zeta. apply bind_Panic.
    rewrite Hfuel. cbn [scanForNumeral]. unfold bind at 1.
    rewrite AtEndOfSentence_eq, Hopen.
    destruct (Z.leb_spec (len (str d)) (i d)); [lia|]. cbn [negb orb].
    unfold bind at 1. rewrite NextNumeral_eq.
    destruct (Z.leb_spec (len (str d)) (i d)); [lia|].
    rewrite Hopen, Hs, H. cbn [negb].
    apply bind_Panic. rewrite NextWord_eq.
    destruct (Z.leb_spec (len (str d)) (i d)); [lia|].
    now rewrite Hopen, Hs, H.
  - rewrite NextNumeral_eq.
    destruct (Z.leb_spec (len (str d)) (i d)); [lia|].
    now rewrite Hopen, Hs, H.
Qed.

(** [Word] and [Numeral] read the fragment before the cursor and never its
    last byte: they return whatever the fragments are. *)
Lemma Word_Numeral_return (d : Dispenser) :
  0 <= i d <= len (str d) ->
  (exists w, Word d = Ok (w, d)) /\ (exists num, Numeral d = Ok (num, d)).
Proof.
  intros [Hlo Hhi]. rewrite Word_eq, Numeral_eq.
  destruct (Z.ltb_spec (len (str d)) (i d)); [lia|].
  destruct (Z.eqb_spec (i d) 0); cbn [orb]; [split; eexists; reflexivity|].
  destruct (index_Some (str d) (i d - 1)) as [s Hs]; [lia|]. rewrite Hs.
  split; [eexists; reflexivity|]. destruct (getNumeral s); eexists; reflexivity.
Qed.

(** C10, as the code has it.  On a dispenser whose fragments are all
    non-empty and whose cursor is within the sequence or just after it (a
    new dispenser is one), each of [NextWord], [NextNumeral], [NextSentence],
    [StartOfSentence], [DumpSentence], [DumpNSentences], [JumpNextNumeral],
    [Word] and [Numeral] returns without an index out of range and leaves
    such a dispenser.  With the cursor of an open sentence on an empty
    fragment, [NextSentence], [DumpSentence] and [DumpNSentences] panic, and
    so do [NextWord] and [JumpNextNumeral] as the empty string is no
    numeral, while [NextNumeral] answers false; [Word] and [Numeral] return
    whatever the fragments are. *)
Theorem safe_operations :
  (forall fragments, nonEmptyFragments fragments ->
                     wellFormed (NewDispenser fragments))
  /\ safe NextWord /\ safe NextNumeral /\ safe NextSentence
  /\ safe StartOfSentence /\ safe DumpSentence
  /\ (forall n, safe (DumpNSentences n))
  /\ safe JumpNextNumeral /\ safe Word /\ safe Numeral
  /\ (forall d, continueNextSentence d = true ->
                index (str d) (i d) = Some EmptyString ->
                NextSentence d = Panic /\ DumpSentence d = Panic
                /\ (forall n, DumpNSentences n d = Panic)
                /\ (isNumeral EmptyString = false ->
                    NextWord d = Panic /\ JumpNextNumeral d = Panic
                    /\ NextNumeral d = Ok (false, d)))
  /\ (forall d, 0 <= i d <= len (str d) ->
                (exists w, Word d = Ok (w, d))
                /\ (exists num, Numeral d = Ok (num, d))).
Proof.
  split; [exact wellFormed_NewDispenser|].
  split; [exact safe_NextWord|]. split; [exact safe_NextNumeral|].
  split; [exact safe_NextSentence|]. split; [exact safe_StartOfSentence|].
  split; [exact safe_DumpSentence|]. split; [exact safe_DumpNSentences|].
  split; [exact safe_JumpNextNumeral|]. split; [exact safe_Word|].
  split; [exact safe_Numeral|]. split; [exact empty_fragment_panics|].
  exact Word_Numeral_return.
Qed.

End SafetyFacts.

(** ** The extraction pass *)

Section ExtractionFacts.

Context {L : GoLib}.
Variable rangeOrder :
  string -> statement.Statement -> list (pdf.headerType * list string).
Import dispenser statement pdf.

Lemma matchesHeader_unpopulated (lowered : string) (h : headerType)
    (phrases : list string) (state : Statement) :
  matchesHeader lowered h phrases state = true -> populated h state = false.
Proof.
  induction phrases as [|p phrases IH]; cbn [matchesHeader]; [discriminate|].
  destruct (strings.HasPrefix lowered p); [|exact IH].
  destruct (populated h state); [exact IH|reflexivity].
Qed.

Lemma numeralHeader_unpopulated (range : list (headerType * list string))
    (s : string) (state : Statement) (h : headerType) :
  numeralHeader range s state = Some h -> populated h state = false.
Proof.
  unfold numeralHeader. generalize (ToLower s) as lowered. intros lowered.
  induction range as [|[h' phrases] range IH]; cbn [firstHeader]; [discriminate|].
  destruct (matchesHeader lowered h' phrases state) eqn:Hm; [|exact IH].
  intros H. injection H as <-. exact (matchesHeader_unpopulated _ _ _ _ Hm).
Qed.

Lemma populated_setAccountHolders (h : headerType) (state : Statement)
    (v : list string) :
  populated h (setAccountHolders state v) = populated h state.
Proof. now destruct h. Qed.

Lemma populated_matchHolders (h : headerType) (text : string)
    (holders : list string) (state : Statement) :
  populated h (matchHolders text holders state) = populated h state.
Proof.
  unfold matchHolders. destruct (len (AccountHolders state) =? 0); [|reflexivity].
  revert state. induction holders as [|holder holders IH]; intros state;
    cbn [fold_left]; [reflexivity|].
  rewrite IH. destruct (strings.Contains _ _); [|reflexivity].
  apply populated_setAccountHolders.
Qed.

Lemma NewDispenserFromSentence_len (sentence : string) :
  1 <= len (str (NewDispenserFromSentence sentence)).
Proof.
  unfold NewDispenserFromSentence, len. cbn [str].
  rewrite length_app. cbn [List.length]. lia.
Qed.

Lemma NextSentence_opens (sentence : string) :
  NextSentence (NewDispenserFromSentence sentence) =
    Ok (true, setContinue (NewDispenserFromSentence sentence) true).
Proof.
  pose proof (NewDispenserFromSentence_len sentence) as Hlen.
  unfold NextSentence. rewrite bind_get.
  change (i (NewDispenserFromSentence sentence)) with 0.
  destruct (Z.leb_spec (len (str (NewDispenserFromSentence sentence))) 0); [lia|].
  reflexivity.
Qed.

Lemma bindField_headerOther (num : float) (state : Statement) :
  bindField headerOther num state = state.
Proof. now destruct state. Qed.

(** The last part of a round, outcome by outcome: the queue and the state
    are left as they are, or the first numeral of the sentence, found at a
    position below 5, is bound to the oldest header. *)
Lemma bindPending_spec (sentence : string) (state state' : Statement)
    (tracker tracker' : list headerType) :
  bindPending sentence state tracker = Ok (state', tracker') ->
  (state' = state /\ tracker' = tracker)
  \/ exists oldest k w num,
       tracker = oldest :: tracker'
       /\ index (str (NewDispenserFromSentence sentence)) k = Some w
       /\ getNumeral w = Some num
       /\ (forall j, 0 <= j < k ->
           exists w', index (str (NewDispenserFromSentence sentence)) j = Some w'
                      /\ getNumeral w' = None)
       /\ k + 1 < 5
       /\ state' = bindField oldest num state.
Proof.
  unfold bindPending. destruct tracker as [|oldest remaining].
  { intros H. injection H as <- <-. now left. }
  rewrite NextSentence_opens. cbn [andThen].
  set (numD := setContinue (NewDispenserFromSentence sentence) true).
  pose proof (JumpNextNumeral_spec numD) as Hspec.
  destruct (JumpNextNumeral numD) as [[[|] d']| |]; cbn [andThen];
    try discriminate.
  2:{ unfold Position. rewrite bind_get. cbn [andThen ret andb].
      intros H. injection H as <- <-. now left. }
  destruct Hspec as (Hstr & _ & Hlt & (w & Hw & Hnum) & Hwords).
  change (str numD) with (str (NewDispenserFromSentence sentence)) in *.
  change (i numD) with 0 in *.
  unfold Position. rewrite bind_get. cbn [andThen ret andb].
  destruct (Z.ltb_spec (i d') 5) as [Hpos|Hfar].
  2:{ intros H. injection H as <- <-. now left. }
  destruct (isNumeral_getNumeral w Hnum) as [num Hget].
  assert (HNumeral : Numeral d' = Ok (num, d')).
  { rewrite Numeral_eq, Hstr, Hw, Hget.
    pose proof (index_range _ _ _ Hw) as Hrange.
    destruct (Z.ltb_spec (len (str (NewDispenserFromSentence sentence))) (i d')); [lia|].
    destruct (Z.eqb_spec (i d') 0); [lia|]. reflexivity. }
  intros H. right. exists oldest, (i d' - 1), w, num.
  assert (Hresult : state' = bindField oldest num state /\ tracker' = remaining).
  { destruct oldest; rewrite ?HNumeral in H; cbn [andThen] in H;
      injection H as <- <-; rewrite ?bindField_headerOther; now split. }
  destruct Hresult as [-> ->].
  repeat split; try assumption; try lia.
  intros j Hj. destruct (Hwords j Hj) as (w' & Hw' & Hnot).
  exists w'. split; [exact Hw'|].
  unfold isNumeral in Hnot. now destruct (getNumeral w').
Qed.

Lemma populated_set_others (h : headerType) (state : Statement) :
  (forall v, populated h (setEntity state v) = populated h state)
  /\ (forall v, populated h (setASXCode state v) = populated h state)
  /\ (forall v, populated h (setPaymentDate state v) = populated h state).
Proof. now destruct h. Qed.

Lemma findOtherData_populated (sentence : string) (d d' : Dispenser)
    (state state' : Statement) (h : headerType) :
  findOtherData sentence d state = Ok (d', state') ->
  populated h state' = populated h state.
Proof.
  unfold findOtherData.
  destruct (populated_set_others h state) as (HE & HA & HP).
  set (first := if (3 <? _) && _ then _ else _).
  assert (Hfirst : forall d1 st1, first = Ok (d1, st1) ->
                                  populated h st1 = populated h state).
  { subst first. intros d1 st1. destruct ((3 <? _) && _).
    - destruct (LastSentence d) as [[[] d2]| |]; cbn [andThen]; try discriminate.
      destruct (DumpSentence d2) as [[sent d3]| |]; cbn [andThen]; try discriminate.
      destruct (NextSentence d3) as [[b d4]| |]; cbn [andThen]; try discriminate.
      intros H. injection H as _ <-. apply HE.
    - intros H. now injection H as _ <-. }
  destruct first as [[d1 st1]| |]; cbn [andThen]; try discriminate.
  specialize (Hfirst d1 st1 eq_refl).
  set (st2 := if (10 <? _) && _ then _ else _).
  assert (Hst2 : populated h st2 = populated h state).
  { subst st2. destruct ((10 <? _) && _); [|exact Hfirst].
    destruct (populated_set_others h st1) as (_ & HA1 & _). now rewrite HA1. }
  clearbody st2.
  destruct (strings.Contains _ _ || strings.Contains _ _).
  - destruct (NextSentence d1) as [[b d2]| |]; cbn [andThen]; try discriminate.
    destruct (DumpSentence d2) as [[sent d3]| |]; cbn [andThen]; try discriminate.
    destruct (LastSentence d3) as [[[] d4]| |]; cbn [andThen]; try discriminate.
    intros H. injection H as _ <-.
    destruct (ParseTime dateLayout sent); [|exact Hst2].
    destruct (populated_set_others h st2) as (_ & _ & HP2). now rewrite HP2.
  - intros H. now injection H as _ <-.
Qed.

Lemma populated_bindField (h oldest : headerType) (num : float)
    (state : Statement) :
  isCurrency h = true -> populated h state = true ->
  populated h (bindField oldest num state) = true.
Proof. destruct h, oldest; cbn; intros; try discriminate; congruence. Qed.

(** A round of the extraction pass, outcome by outcome: a recognised label
    is enqueued last, with its field not populated; otherwise the round ends
    with [bindPending] on the sentence of the round. *)
Lemma processSentence_spec (holders : list string) (d d' : Dispenser)
    (state state' : Statement) (tracker tracker' : list headerType) :
  processSentence rangeOrder holders d state tracker = Ok (d', state', tracker') ->
  exists sentence d1,
    DumpSentence d = Ok (sentence, d1)
    /\ ((exists h, tracker' = (tracker ++ [h])%list
                   /\ populated h state' = false
                   /\ forall h', populated h' state' = populated h' state)
        \/ exists state1,
             (forall h', populated h' state1 = populated h' state)
             /\ bindPending sentence state1 tracker = Ok (state', tracker')).
Proof.
  unfold processSentence.
  destruct (DumpSentence d) as [[sentence d1]| |]; cbn [andThen]; try discriminate.
  intros H. exists sentence, d1. split; [reflexivity|].
  destruct (numeralHeader (rangeOrder sentence state) sentence state)
    as [h|] eqn:Hfirst.
  { injection H as _ <- <-. left. exists h. repeat split.
    exact (numeralHeader_unpopulated _ _ _ _ Hfirst). }
  destruct (StartOfSentence d1) as [[[] d2]| |]; cbn [andThen] in H; try discriminate.
  destruct (DumpNSentences 5 d2) as [[sentences d3]| |]; cbn [andThen] in H;
    try discriminate.
  set (text := strings.Join sentences " ") in H.
  set (state1 := matchHolders text holders state) in H.
  assert (Hstate1 : forall h', populated h' state1 = populated h' state)
    by (intros h'; apply populated_matchHolders).
  destruct (numeralHeader (rangeOrder text state1) text state1) as [h|] eqn:Hsecond.
  { injection H as _ <- <-. left. exists h. repeat split; [|exact Hstate1].
    exact (numeralHeader_unpopulated _ _ _ _ Hsecond). }
  destruct (findOtherData sentence d3 state1) as [[d4 state2]| |] eqn:Hother;
    cbn [andThen] in H; try discriminate.
  destruct (bindPending sentence state2 tracker) as [[state3 tracker3]| |] eqn:Hbind;
    cbn [andThen] in H; try discriminate.
  injection H as _ <- <-. right. exists state2. split; [|exact Hbind].
  intros h'. rewrite <- Hstate1. exact (findOtherData_populated _ _ _ _ _ h' Hother).
Qed.

Lemma Split_nonempty (s : string) (sep : ascii) : strings.Split s sep <> [].
Proof.
  destruct s as [|c rest]; cbn [strings.Split]; [discriminate|].
  destruct (Ascii.eqb c sep); [discriminate|].
  destruct (strings.Split rest sep); discriminate.
Qed.

(** The last word of the split is empty only for the empty string and for
    a string that ends with the separator. *)
Lemma Split_last (sep : ascii) (s : string) :
  last (strings.Split s sep) EmptyString = EmptyString ->
  s = EmptyString \/ lastByte s = Some sep.
Proof.
  induction s as [|c rest IH]; [now left|]. intros Hlast. right.
  cbn [strings.Split] in Hlast.
  destruct (Ascii.eqb_spec c sep) as [->|Hc].
  - pose proof (Split_nonempty rest sep) as Hne.
    destruct (strings.Split rest sep) as [|w ws] eqn:Hsplit; [congruence|].
    cbn [last] in Hlast. destruct (IH Hlast) as [->|Hrest]; [reflexivity|].
    destruct rest; [discriminate|exact Hrest].
  - pose proof (Split_nonempty rest sep) as Hne.
    destruct (strings.Split rest sep) as [|w ws] eqn:Hsplit; [congruence|].
    destruct ws as [|w' ws]; [discriminate|].
    change (last (String c w :: w' :: ws) EmptyString)
      with (last (w :: w' :: ws) EmptyString) in Hlast.
    destruct (IH Hlast) as [->|Hrest]; [discriminate|].
    destruct rest; [discriminate|exact Hrest].
Qed.

Lemma dropLastByte_append_space (w : string) :
  dropLastByte (w ++ " ") = w.
Proof.
  induction w as [|c w IH]; [reflexivity|].
  cbn [String.append dropLastByte]. rewrite IH.
  destruct w; reflexivity.
Qed.

(** The fragments of the dispenser of a sentence: every word but the last
    with its space, then the last word. *)
Lemma NewDispenserFromSentence_str (sentence : string) :
  str (NewDispenserFromSentence sentence) =
    (map (fun word => word ++ " ")%string
         (removelast (strings.Split sentence space))
     ++ [last (strings.Split sentence space) EmptyString])%list.
Proof.
  unfold NewDispenserFromSentence. cbn [str].
  pose proof (Split_nonempty sentence space) as Hne.
  rewrite (app_removelast_last EmptyString Hne) at 1 2.
  rewrite map_app. cbn [map]. rewrite removelast_last, last_last.
  now rewrite dropLastByte_append_space.
Qed.

Lemma NewDispenserFromSentence_wellFormed (sentence : string) :
  sentence <> EmptyString -> lastByte sentence <> Some space ->
  wellFormed (setContinue (NewDispenserFromSentence sentence) true).
Proof.
  intros Hne Hlast. split.
  - pose proof (NewDispenserFromSentence_len sentence). cbn [i str setContinue].
    change (i (NewDispenserFromSentence sentence)) with 0. lia.
  - cbn [str setContinue]. rewrite NewDispenserFromSentence_str.
    unfold nonEmptyFragments. apply Forall_app. split.
    + apply Forall_map. apply Forall_forall. intros w _. now destruct w.
    + constructor; [|constructor]. intros Hempty.
      destruct (Split_last space sentence Hempty); [contradiction|congruence].
Qed.

(** On a sentence that is not empty and does not end with a space the last
    part of a round returns. *)
Lemma bindPending_returns (sentence : string) (state : Statement)
    (tracker : list headerType) :
  sentence <> EmptyString -> lastByte sentence <> Some space ->
  exists state' tracker',
    bindPending sentence state tracker = Ok (state', tracker').
Proof.
  intros Hne Hlast. unfold bindPending.
  destruct tracker as [|oldest remaining]; [now eexists _, _|].
  rewrite NextSentence_opens. cbn [andThen].
  destruct (safe_JumpNextNumeral _
              (NewDispenserFromSentence_wellFormed sentence Hne Hlast))
    as (found & d' & -> & Hwf).
  cbn [andThen]. unfold Position. rewrite bind_get. cbn [andThen ret].
  destruct (found && (i d' <? 5)); [|now eexists _, _].
  destruct (safe_Numeral d' Hwf) as (num & d'' & HNumeral & _).
  destruct oldest; rewrite ?HNumeral; cbn [andThen]; now eexists _, _.
Qed.

(** C4.  With a header pending, the last part of a round either leaves the
    state and the queue as they are, or binds the first numeral of the
    sentence to the oldest header of the queue, which it removes: the
    numeral is then at a position [k + 1] below 5 of the words of the
    sentence, so within its first 5 positions, and no earlier word is a
    numeral.  When none of the first 5 words is a numeral nothing is bound
    and the queue is unchanged.  The call never loops for ever, and it
    returns on every sentence that is not empty and does not end with a
    space.  Over a whole round the queue is left as it is, gains one header at its end or loses
    its first header: the headers leave in the order they came. *)
Theorem pending_numeral_fifo (sentence : string) (state : Statement)
    (tracker : list headerType) :
  tracker <> [] ->
  (forall state' tracker',
      bindPending sentence state tracker = Ok (state', tracker') ->
      let words := str (NewDispenserFromSentence sentence) in
      ((state' = state /\ tracker' = tracker)
       \/ exists oldest k w num,
            tracker = oldest :: tracker'
            /\ index words k = Some w /\ getNumeral w = Some num
            /\ (forall j, 0 <= j < k ->
                exists w', index words j = Some w' /\ getNumeral w' = None)
            /\ k + 1 < 5 /\ 0 <= k < 5
            /\ state' = bindField oldest num state)
      /\ ((forall k w, 0 <= k < 5 -> index words k = Some w ->
                       getNumeral w = None) ->
          state' = state /\ tracker' = tracker))
  /\ bindPending sentence state tracker <> Diverge
  /\ (sentence <> EmptyString -> lastByte sentence <> Some space ->
      exists state' tracker',
        bindPending sentence state tracker = Ok (state', tracker'))
  /\ (forall holders d d' st st' queue queue',
        processSentence rangeOrder holders d st queue = Ok (d', st', queue') ->
        queue' = queue
        \/ (exists h, queue' = (queue ++ [h])%list)
        \/ (exists oldest, queue = oldest :: queue')).
Proof.
  intros Hpending. split; [|split; [|split; [apply bindPending_returns|]]].
  - intros state' tracker' H. cbv zeta.
    apply bindPending_spec in H.
    destruct H as [[-> ->]|(oldest & k & w & num & Hq & Hw & Hnum & Hbefore & Hk & Hst)].
    + split; [now left|]. now intros _.
    + pose proof (index_range _ _ _ Hw) as Hrange. split.
      * right. exists oldest, k, w, num. repeat split; try assumption; lia.
      * intros Hnone. rewrite (Hnone k w) in Hnum; [discriminate|lia|exact Hw].
  - unfold bindPending. destruct tracker as [|oldest remaining]; [discriminate|].
    rewrite NextSentence_opens. cbn [andThen].
    set (numD := setContinue (NewDispenserFromSentence sentence) true).
    pose proof (JumpNextNumeral_spec numD) as Hspec.
    destruct (JumpNextNumeral numD) as [[found d']| |]; cbn [andThen];
      try discriminate; [|contradiction].
    unfold Position. rewrite bind_get. cbn [andThen ret].
    destruct (found && (i d' <? 5)); [|discriminate].
    assert (HNumeral : Numeral d' <> Diverge).
    { rewrite Numeral_eq. destruct (_ || _); [discriminate|].
      destruct (index (str d') (i d' - 1)) as [w|]; [|discriminate].
      destruct (getNumeral w); discriminate. }
    destruct oldest; try discriminate;
      destruct (Numeral d') as [[num d'']| |]; cbn [andThen];
      try discriminate; contradiction.
  - intros holders d d' st st' queue queue' H.
    apply processSentence_spec in H as (s & d1 & _ & [(h & -> & _)|(st1 & _ & H)]).
    + right. left. now exists h.
    + apply bindPending_spec in H
        as [[_ ->]|(oldest & k & w & num & -> & _)]; [now left|].
      right. right. now exists oldest.
Qed.

(** The test of [numeralHeader] reads the field the header stands for: a
    currency field is populated when its present flag is set, a count when
    it is not zero. *)
Lemma populated_fieldOf (h : headerType) (state : Statement) :
  populated h state
  = match fieldOf h state with
    | Some (inl dollar) => HasValue dollar
    | Some (inr count) => negb (count =? 0)
    | None => false
    end.
Proof. now destruct h. Qed.

(** The field [bindField] writes for a header is the field [numeralHeader]
    tests for it: binding populates a currency field, and a count unless
    the numeral converts to 0. *)
Lemma populated_bindField_self (h : headerType) (num : float) (state : Statement) :
  populated h (bindField h num state)
  = match fieldOf h state with
    | Some (inl _) => true
    | Some (inr _) => negb (int64_of_float num =? 0)
    | None => false
    end.
Proof. now destruct h. Qed.

Lemma fieldOf_bindField_currency (h : headerType) (num : float) (state : Statement) :
  isCurrency h = true ->
  fieldOf h (bindField h num state) = Some (inl (NewDollar num)).
Proof. destruct h; first [reflexivity|discriminate]. Qed.

(** A round of the extraction pass, by what it does to the queue: it
    enqueues one header whose field is not populated, or leaves the queue as
    it is, or takes the oldest header from it and binds a numeral to its
    field. *)
Lemma processSentence_round (holders : list string) (d d' : Dispenser)
    (state state' : Statement) (tracker tracker' : list headerType) :
  processSentence rangeOrder holders d state tracker = Ok (d', state', tracker') ->
  (exists h, tracker' = (tracker ++ [h])%list
             /\ populated h state = false
             /\ forall h', populated h' state' = populated h' state)
  \/ (tracker' = tracker
      /\ forall h', populated h' state' = populated h' state)
  \/ (exists oldest num state1,
        tracker = oldest :: tracker'
        /\ (forall h', populated h' state1 = populated h' state)
        /\ state' = bindField oldest num state1).
Proof.
  intros H. apply processSentence_spec in H
    as (s & d1 & _ & [(h0 & Hq & Hun & Hsame)|(st1 & Hsame & H)]).
  - left. exists h0. split; [exact Hq|]. split; [|exact Hsame].
    now rewrite <- Hsame.
  - apply bindPending_spec in H
      as [[-> ->]|(oldest & k & w & num & Hq & _ & _ & _ & _ & ->)].
    + right. left. now split.
    + right. right. now exists oldest, num, st1.
Qed.

Lemma headerIndex_injective (h h' : headerType) :
  headerIndex h = headerIndex h' -> h = h'.
Proof. destruct h, h'; cbn; intros Heq; first [reflexivity|discriminate Heq]. Qed.

Lemma pendingCount_enqueue (h h' : headerType) (queue : list headerType) :
  h' <> h -> pendingCount h (queue ++ [h']) = pendingCount h queue.
Proof.
  intros Hneq. unfold pendingCount. rewrite filter_app, length_app.
  cbn [filter]. destruct (Z.eqb_spec (headerIndex h') (headerIndex h)) as [Heq|_].
  - apply headerIndex_injective in Heq. contradiction.
  - cbn. lia.
Qed.

Lemma pendingCount_dequeue (h oldest : headerType) (queue : list headerType) :
  (pendingCount h queue <= pendingCount h (oldest :: queue))%nat.
Proof.
  unfold pendingCount. cbn [filter].
  destruct (headerIndex oldest =? headerIndex h); cbn; lia.
Qed.

(** One round leaves a populated currency field populated and does not
    enqueue its header. *)
Lemma processSentence_keeps_bound (holders : list string) (d d' : Dispenser)
    (state state' : Statement) (tracker tracker' : list headerType)
    (h : headerType) :
  processSentence rangeOrder holders d state tracker = Ok (d', state', tracker') ->
  isCurrency h = true -> populated h state = true ->
  populated h state' = true
  /\ (pendingCount h tracker' <= pendingCount h tracker)%nat.
Proof.
  intros H Hcur Hpop. apply processSentence_round in H
    as [(h0 & -> & Hun & Hsame)|[(-> & Hsame)|(oldest & num & st1 & -> & Hsame & ->)]].
  - split; [now rewrite Hsame|]. rewrite pendingCount_enqueue; [lia|].
    intros ->. congruence.
  - split; [now rewrite Hsame|lia].
  - split; [|apply pendingCount_dequeue].
    apply populated_bindField; [exact Hcur|now rewrite Hsame].
Qed.

Lemma processRounds_keeps_bound (rounds : nat) :
  forall (holders : list string) (d d' : Dispenser) (state state' : Statement)
         (tracker tracker' : list headerType) (h : headerType),
  processRounds rangeOrder rounds holders d state tracker
    = Ok (d', state', tracker') ->
  isCurrency h = true -> populated h state = true ->
  populated h state' = true
  /\ (pendingCount h tracker' <= pendingCount h tracker)%nat.
Proof.
  induction rounds as [|rounds IH];
    intros holders d d' state state' tracker tracker' h; cbn [processRounds].
  - intros H Hcur Hpop. injection H as _ <- <-. split; [exact Hpop|lia].
  - destruct (NextSentence d) as [[[] d1]| |]; cbn [andThen]; try discriminate.
    + destruct (processSentence rangeOrder holders d1 state tracker)
        as [[[d2 state2] tracker2]| |] eqn:Hround; cbn [andThen];
        try discriminate.
      intros Hrest Hcur Hpop.
      destruct (processSentence_keeps_bound _ _ _ _ _ _ _ h Hround Hcur Hpop)
        as [Hpop2 Hcount2].
      destruct (IH _ _ _ _ _ _ _ h Hrest Hcur Hpop2) as [Hpop' Hcount'].
      split; [exact Hpop'|lia].
    + intros H Hcur Hpop. injection H as _ <- <-. split; [exact Hpop|lia].
Qed.

Lemma processLoop_keeps_bound (fuel : nat) :
  forall (holders : list string) (d d' : Dispenser) (state state' : Statement)
         (tracker tracker' : list headerType) (h : headerType),
  processLoop rangeOrder fuel holders d state tracker
    = Ok (d', state', tracker') ->
  isCurrency h = true -> populated h state = true ->
  populated h state' = true
  /\ (pendingCount h tracker' <= pendingCount h tracker)%nat.
Proof.
  induction fuel as [|fuel IH];
    intros holders d d' state state' tracker tracker' h; cbn [processLoop];
    destruct (NextSentence d) as [[[] d1]| |]; cbn [andThen]; try discriminate;
    try (intros H Hcur Hpop; injection H as _ <- <-; split; [exact Hpop|lia]).
  destruct (processSentence rangeOrder holders d1 state tracker)
    as [[[d2 state2] tracker2]| |] eqn:Hround; cbn [andThen]; try discriminate.
  intros Hrest Hcur Hpop.
  destruct (processSentence_keeps_bound _ _ _ _ _ _ _ h Hround Hcur Hpop)
    as [Hpop2 Hcount2].
  destruct (IH _ _ _ _ _ _ _ h Hrest Hcur Hpop2) as [Hpop' Hcount'].
  split; [exact Hpop'|lia].
Qed.

(** C2, as the code has it.  Label recognition rejects a label phrase whose
    field is already populated (a currency field with its present flag set,
    a count that is not zero): in every round at most one header is
    enqueued, and the field of a header that is enqueued is not populated
    at that moment; [headerOther] has no field and is never rejected.  The
    test reads the very field the binding writes: a header that leaves the
    queue has had a numeral bound to its field, which for a currency header
    sets the present flag.  A currency field that is populated stays
    populated in every later round, to the end of the pass, and in none of
    them is its header enqueued: the number of times it stands in the queue
    does not grow. *)
Theorem enqueue_only_unpopulated (holders : list string) (d d' : Dispenser)
    (state state' : Statement) (tracker tracker' : list headerType) :
  processSentence rangeOrder holders d state tracker = Ok (d', state', tracker') ->
  (forall h, tracker' = (tracker ++ [h])%list ->
             populated h state = false /\ populated h state' = false)
  /\ (tracker' = tracker
      \/ (exists h, tracker' = (tracker ++ [h])%list)
      \/ (exists oldest, tracker = oldest :: tracker'))
  /\ (forall h, isCurrency h = true -> populated h state = true ->
                populated h state' = true)
  /\ (forall st, populated headerOther st = false)
  /\ (forall h st,
        populated h st
        = match fieldOf h st with
          | Some (inl dollar) => HasValue dollar
          | Some (inr count) => negb (count =? 0)
          | None => false
          end)
  /\ (forall h num st,
        populated h (bindField h num st)
        = match fieldOf h st with
          | Some (inl _) => true
          | Some (inr _) => negb (int64_of_float num =? 0)
          | None => false
          end)
  /\ (forall oldest, tracker = oldest :: tracker' ->
        exists num state1,
          state' = bindField oldest num state1
          /\ (forall h, populated h state1 = populated h state)
          /\ (isCurrency oldest = true ->
              populated oldest state' = true
              /\ fieldOf oldest state' = Some (inl (NewDollar num))))
  /\ (forall h, isCurrency h = true -> populated h state = true ->
                tracker' <> (tracker ++ [h])%list
                /\ (pendingCount h tracker' <= pendingCount h tracker)%nat)
  /\ (forall rounds holders0 d0 d1 state0 state1 tracker0 tracker1 h,
        processRounds rangeOrder rounds holders0 d0 state0 tracker0
          = Ok (d1, state1, tracker1) ->
        isCurrency h = true -> populated h state0 = true ->
        populated h state1 = true
        /\ (pendingCount h tracker1 <= pendingCount h tracker0)%nat)
  /\ (forall fuel holders0 d0 d1 state0 state1 tracker0 tracker1 h,
        processLoop rangeOrder fuel holders0 d0 state0 tracker0
          = Ok (d1, state1, tracker1) ->
        isCurrency h = true -> populated h state0 = true ->
        populated h state1 = true
        /\ (pendingCount h tracker1 <= pendingCount h tracker0)%nat).
Proof.
  intros H.
  assert (Hlen : forall (q : list headerType) h oldest,
            q <> (oldest :: (q ++ [h]))%list).
  { intros q h oldest Heq. apply (f_equal (@List.length _)) in Heq.
    cbn in Heq. rewrite length_app in Heq. cbn in Heq. lia. }
  pose proof (processSentence_round _ _ _ _ _ _ _ H) as Hround.
  split; [|split; [|split; [|split; [|split; [|split; [|split; [|split;
    [|split]]]]]]]].
  - intros h Hq.
    destruct Hround
      as [(h0 & Hq0 & Hun & Hsame)|[(Hq0 & _)|(oldest & num & st1 & Hq0 & _)]].
    + rewrite Hq0 in Hq. apply app_inj_tail in Hq as [_ ->].
      split; [exact Hun|now rewrite Hsame].
    + exfalso. rewrite Hq0 in Hq. apply (f_equal (@List.length _)) in Hq.
      rewrite length_app in Hq. cbn in Hq. lia.
    + exfalso. rewrite Hq in Hq0. exact (Hlen _ _ _ Hq0).
  - destruct Hround
      as [(h0 & Hq0 & _)|[(Hq0 & _)|(oldest & num & st1 & Hq0 & _)]].
    + right. left. now exists h0.
    + now left.
    + right. right. now exists oldest.
  - intros h Hcur Hpop.
    exact (proj1 (processSentence_keeps_bound _ _ _ _ _ _ _ h H Hcur Hpop)).
  - reflexivity.
  - apply populated_fieldOf.
  - apply populated_bindField_self.
  - intros oldest Hq.
    destruct Hround
      as [(h0 & Hq0 & _)|[(Hq0 & _)|(oldest0 & num & st1 & Hq0 & Hsame & Hst)]].
    + exfalso. rewrite Hq0 in Hq. exact (Hlen _ _ _ Hq).
    + exfalso. rewrite Hq0 in Hq. apply (f_equal (@List.length _)) in Hq.
      cbn in Hq. lia.
    + rewrite Hq in Hq0. injection Hq0 as <-.
      exists num, st1. split; [exact Hst|]. split; [exact Hsame|].
      intros Hcur. rewrite Hst. split.
      * rewrite populated_bindField_self.
        destruct oldest; first [reflexivity|discriminate Hcur].
      * now apply fieldOf_bindField_currency.
  - intros h Hcur Hpop.
    destruct (processSentence_keeps_bound _ _ _ _ _ _ _ h H Hcur Hpop)
      as [_ Hcount].
    split; [|exact Hcount].
    destruct Hround
      as [(h0 & Hq0 & Hun & _)|[(Hq0 & _)|(oldest & num & st1 & Hq0 & _)]].
    + rewrite Hq0. intros Heq. apply app_inj_tail in Heq as [_ ->]. congruence.
    + rewrite Hq0. intros Heq. apply (f_equal (@List.length _)) in Heq.
      rewrite length_app in Heq. cbn in Heq. lia.
    + intros Heq. rewrite Heq in Hq0. exact (Hlen _ _ _ Hq0).
  - intros rounds. apply processRounds_keeps_bound.
  - intros fuel. apply processLoop_keeps_bound.
Qed.

End ExtractionFacts.

(** ** The text tracker *)

Section InterpreterFacts.

Variable ForcedArray : string -> list string.
Variable Decode : string -> string -> string.
Import pdf.

Lemma drop_top (t : textTracker) (below top : list string) :
  stack t = (below ++ top)%list ->
  drop t (List.length top) = Ok (top, setStack t below).
Proof.
  intros Hstack. unfold drop. rewrite Hstack, length_app.
  destruct (Nat.ltb_spec (List.length below + List.length top) (List.length top));
    [lia|].
  replace (List.length below + List.length top - List.length top)%nat
    with (List.length below) by lia.
  rewrite skipn_app, firstn_app, Nat.sub_diag, skipn_all, firstn_all.
  cbn [skipn firstn]. now rewrite app_nil_r.
Qed.

(** The operand of a text-showing operator: the top of the stack for [Tj],
    [TJ] and the single-quote operator, the third of the three operands of
    the double-quote operator. *)
Lemma showText_writes (t : textTracker) (op a : string) (below : list string) :
  (In op ["'"; "TJ"; "Tj"] /\ stack t = (below ++ [a])%list)
  \/ (op = String (ascii_of_nat 34) EmptyString
      /\ exists x y, stack t = (below ++ [x; y; a])%list) ->
  processToken ForcedArray Decode t op =
    writeElements Decode (setStack t below) (ForcedArray a).
Proof.
  intros [[Hop Hstack]|[-> (x & y & Hstack)]].
  - pose proof (drop_top t below [a] Hstack) as Hdrop. cbn [List.length] in Hdrop.
    cbn [In] in Hop.
    destruct Hop as [<-|[<-|[<-|[]]]]; unfold processToken; cbn [isOneOf existsb String.eqb Ascii.eqb Bool.eqb orb];
      rewrite Hdrop; reflexivity.
  - pose proof (drop_top t below [x; y; a] Hstack) as Hdrop.
    cbn [List.length] in Hdrop.
    unfold processToken. cbn [isOneOf existsb String.eqb Ascii.eqb Bool.eqb orb].
    cbv [ascii_of_nat ascii_of_pos Pos.of_succ_nat Pos.succ Ascii.eqb Bool.eqb].
    cbn [orb]. change (Pos.to_nat 3) with 3%nat in *.
    rewrite Hdrop. reflexivity.
Qed.

Lemma appendToLast_shape (tx : list string) :
  tx <> [] ->
  List.length (appendToLast tx) = List.length tx
  /\ removelast (appendToLast tx) = removelast tx
  /\ last (appendToLast tx) EmptyString = (last tx EmptyString ++ " ")%string.
Proof.
  intros Hne. unfold appendToLast. repeat split.
  - rewrite length_app. cbn [List.length].
    rewrite (app_removelast_last EmptyString Hne) at 2.
    rewrite length_app. reflexivity.
  - now rewrite removelast_last.
  - now rewrite last_last.
Qed.

(** C7, as the code has it.  A text-showing operator hands its operand to
    [write], element by element.  For an element that is a string (it starts
    with an opening parenthesis or angle bracket), decoded to [s]: when [s]
    is a single space and the fragment list is not empty, the space is merged
    into the last fragment (the list keeps its length and its other
    fragments); in every other case, a single space met while the list is
    still empty included, [s] is appended as a new fragment. *)
Theorem write_merges_space (t : textTracker) :
  (forall op a below,
      (In op ["'"; "TJ"; "Tj"] /\ stack t = (below ++ [a])%list)
      \/ (op = String (ascii_of_nat 34) EmptyString
          /\ exists x y, stack t = (below ++ [x; y; a])%list) ->
      processToken ForcedArray Decode t op =
        writeElements Decode (setStack t below) (ForcedArray a))
  /\ (forall c rest,
      c = "("%char \/ c = "<"%char ->
      let e := String c rest in
      let s := Decode (font t) e in
      (s = " " -> text t <> [] ->
       exists t', writeElement Decode t e = Ok t'
                  /\ List.length (text t') = List.length (text t)
                  /\ removelast (text t') = removelast (text t)
                  /\ last (text t') EmptyString
                     = (last (text t) EmptyString ++ " ")%string
                  /\ font t' = font t /\ stack t' = stack t)
      /\ (s <> " " \/ text t = [] ->
          writeElement Decode t e = Ok (setText t (text t ++ [s])))).
Proof.
  split; [intros op a below; apply showText_writes|].
  intros c rest Hc e s. subst e.
  assert (Hstring : (Ascii.eqb c "("%char || Ascii.eqb c "<"%char) = true).
  { destruct Hc as [->| ->]; reflexivity. }
  split.
  - intros Hs Hne. unfold writeElement. rewrite Hstring. fold s. rewrite Hs.
    assert (Hlen : (0 <? len (text t)) = true).
    { apply Z.ltb_lt. unfold len. destruct (text t); [congruence|]. cbn. lia. }
    rewrite Hlen. cbn [String.eqb Ascii.eqb Bool.eqb andb].
    eexists. split; [reflexivity|]. cbn [text font stack setText].
    destruct (appendToLast_shape (text t) Hne) as (H1 & H2 & H3).
    now repeat split.
  - intros Hother. unfold writeElement. rewrite Hstring. fold s.
    destruct Hother as [Hs|Hempty].
    + apply String.eqb_neq in Hs. now rewrite Hs.
    + rewrite Hempty. change (0 <? len (@nil string)) with false.
      now rewrite andb_false_r.
Qed.

End InterpreterFacts.

(** ** Currency values *)

Section DollarFacts.

Import statement.

Lemma exactDen_pos (e : Z) : 0 < exactDen e.
Proof.
  unfold exactDen. destruct (Z.leb_spec 0 e); [lia|].
  apply Z.pow_pos_nonneg; lia.
Qed.

Lemma exactNum_pos (m : positive) (e : Z) : 0 < exactNum m e.
Proof.
  unfold exactNum. destruct (Z.leb_spec 0 e); [|lia].
  apply Z.mul_pos_pos; [lia|]. apply Z.pow_pos_nonneg; lia.
Qed.

(** [int64(x)] of a float64 that is not negative and below 2^63 is the
    integer below its exact value. *)
Lemma int64_of_float_floor (x : float) (m : positive) (e : Z) :
  Prim2SF x = S754_finite false m e ->
  floatFloor m e < 2 ^ 63 ->
  int64_of_float x = floatFloor m e.
Proof.
  intros Hx Hsmall. unfold int64_of_float. rewrite Hx.
  assert (Hfloor : (if 0 <=? e then Z.shiftl (Z.pos m) e
                    else Z.shiftr (Z.pos m) (- e)) = floatFloor m e).
  { unfold floatFloor, exactNum, exactDen. destruct (Z.leb_spec 0 e).
    - rewrite Z.shiftl_mul_pow2 by lia. now rewrite Z.div_1_r.
    - rewrite Z.shiftr_div_pow2 by lia. reflexivity. }
  rewrite Hfloor.
  assert (Hnonneg : 0 <= floatFloor m e).
  { unfold floatFloor. apply Z.div_pos; [|apply exactDen_pos].
    pose proof (exactNum_pos m e). lia. }
  destruct (Z.leb_spec (- 2 ^ 63) (floatFloor m e)); [|lia].
  destruct (Z.ltb_spec (floatFloor m e) (2 ^ 63)); [reflexivity|lia].
Qed.

Lemma div_cross (a b c d : Z) :
  0 < b -> 0 < d -> a * d = c * b -> a / b = c / d.
Proof.
  intros Hb Hd Heq.
  rewrite <- (Z.div_mul_cancel_r a b d) by lia.
  rewrite Heq, (Z.mul_comm b d).
  now rewrite Z.div_mul_cancel_r by lia.
Qed.

(** C1, as the code has it.  [NewDollar] sets the present flag and stores
    the integer part of the float64 number [number*100 + 0.5], each operation
    rounded to float64: for a number whose sum is not negative and below
    2^63 that is the integer below the sum, and, whenever adding 0.5 to the
    float64 product was exact, the product rounded to the nearest integer,
    halves upwards.  The numeral 36.005 is stored as 3601 cents; 0 is stored
    as 0 cents with the flag set and serializes as 0.00, a field that was
    never bound serializes as null. *)
Theorem NewDollar_rounds :
  (forall number, HasValue (NewDollar number) = true)
  /\ (forall number m e,
        Prim2SF (number * 100 + 0.5)%float = S754_finite false m e ->
        floatFloor m e < 2 ^ 63 ->
        Cents (NewDollar number) = floatFloor m e
        /\ forall mp ep,
             Prim2SF (number * 100)%float = S754_finite false mp ep ->
             2 * exactNum m e * exactDen ep
               = (2 * exactNum mp ep + exactDen ep) * exactDen e ->
             Cents (NewDollar number)
               = roundHalfUp (exactNum mp ep) (exactDen ep))
  /\ (forall number s,
        Prim2SF (number * 100 + 0.5)%float = S754_zero s ->
        Cents (NewDollar number) = 0)
  /\ option_map NewDollar (dispenser.getNumeral "36.005")
       = Some {| Cents := 3601; HasValue := true |}
  /\ option_map NewDollar (dispenser.getNumeral "0")
       = Some {| Cents := 0; HasValue := true |}
  /\ MarshalJSON {| Cents := 0; HasValue := true |} = "0.00"
  /\ MarshalJSON noDollar = "null".
Proof.
  split; [reflexivity|]. split; [|split].
  - intros number m e Hsum Hsmall.
    assert (Hcents : Cents (NewDollar number) = floatFloor m e)
      by (apply int64_of_float_floor; assumption).
    split; [exact Hcents|].
    intros mp ep _ Hexact. rewrite Hcents. unfold floatFloor, roundHalfUp.
    pose proof (exactDen_pos e). pose proof (exactDen_pos ep).
    apply div_cross; lia.
  - intros number s Hzero. cbn [Cents NewDollar]. unfold int64_of_float.
    now rewrite Hzero.
  - repeat split; vm_compute; reflexivity.
Qed.

(** The hypotheses of the rounding clause hold for the numeral 36.005: the
    sum 3601.0000000000005 lies below 2^63 and adding 0.5 was exact. *)
Lemma NewDollar_rounds_witness :
  exists number,
    dispenser.getNumeral "36.005" = Some number
    /\ Cents (NewDollar number) = floatFloor 7918682743242753 (-41)
    /\ Cents (NewDollar number)
       = roundHalfUp (exactNum 7917583231614977 (-41)) (exactDen (-41))
    /\ roundHalfUp (exactNum 7917583231614977 (-41)) (exactDen (-41)) = 3601.
Proof.
  eexists. split; [vm_compute; reflexivity|].
  destruct NewDollar_rounds as (_ & Hround & _).
  destruct (Hround 0x1.200a3d70a3d71p+5%float 7918682743242753%positive (-41))
    as [Hfloor Hhalf]; [vm_compute; reflexivity|vm_compute; reflexivity|].
  split; [exact Hfloor|]. split; [|vm_compute; reflexivity].
  apply Hhalf; vm_compute; reflexivity.
Defined.

(** C1, where the claim fails.  The numeral 1.005 is stored as 100 cents,
    where the decimal value 100.5 rounds, halves upwards, to 101: the float64
    nearest to 1.005 lies below it.  The numeral 0.004999999999999999 is
    stored as 1 cent although it is less than half a cent: the float64 sum
    of 0.49999999999999994 and 0.5 is 1. *)
Lemma NewDollar_not_decimal_rounding :
  option_map NewDollar (dispenser.getNumeral "1.005")
    = Some {| Cents := 100; HasValue := true |}
  /\ roundHalfUp (100 * 1005) 1000 = 101
  /\ option_map NewDollar (dispenser.getNumeral "0.004999999999999999")
       = Some {| Cents := 1; HasValue := true |}
  /\ roundHalfUp (100 * 4999999999999999) (10 ^ 18) = 0.
Proof. repeat split; vm_compute; reflexivity. Qed.

(** A negative numeral loses a cent: [int64] discards the fraction of
    [-100 + 0.5] towards zero. *)
Lemma NewDollar_negative :
  option_map NewDollar (dispenser.getNumeral "-1")
    = Some {| Cents := -99; HasValue := true |}
  /\ roundHalfUp (100 * -1) 1 = -100.
Proof. split; vm_compute; reflexivity. Qed.

End DollarFacts.

(** ** Every loop of the dispenser ends *)

Section TerminationFacts.

Context {L : GoLib}.
Import dispenser.

Lemma rewindToSentenceStart_terminates (fuel : nat) : forall d,
  i d <= Z.of_nat fuel -> rewindToSentenceStart fuel d <> Diverge.
Proof.
  induction fuel as [|fuel IH]; intros d Hfuel;
    cbn [rewindToSentenceStart]; rewrite bind_get;
    destruct (Z.ltb_spec 0 (i d)) as [Hpos|Hzero];
    try lia; try discriminate.
  unfold bind at 1. rewrite noTrailingSpace_eq.
  destruct (index (str d) (i d)) as [s|]; [|discriminate].
  destruct (lastByte s) as [c|]; [|discriminate].
  destruct (negb (isSpace c)); [discriminate|].
  rewrite bind_put_i. apply IH. cbn. lia.
Qed.

Lemma terminates_noTrailingSpace (k : Z) : terminates (noTrailingSpace k).
Proof.
  intros d. rewrite noTrailingSpace_eq.
  destruct (index (str d) k) as [s|]; [|discriminate].
  destruct (lastByte s); discriminate.
Qed.

Lemma terminates_get_bind {B : Type} (k : Dispenser -> M B) :
  (forall d, k d d <> Diverge) -> terminates (bind get k).
Proof. intros Hk d. rewrite bind_get. apply Hk. Qed.

Lemma StartOfSentence_terminates : terminates StartOfSentence.
Proof.
  unfold StartOfSentence. apply terminates_get_bind. intros d.
  apply terminates_bind.
  - unfold singleWordSentence. apply terminates_get_bind. intros d0.
    destruct ((0 <? i d0) && (i d0 <? len (str d0))); [|discriminate].
    apply terminates_bind; [apply terminates_noTrailingSpace|].
    intros [|]; [apply terminates_noTrailingSpace|apply terminates_ret].
  - intros [|].
    + destruct (negb (continueNextSentence d)); intros d0; discriminate.
    + destruct (i d =? 0); [intros d0; discriminate|].
      destruct (len (str d) =? 1); [intros d0; discriminate|].
      apply terminates_bind.
      { destruct (_ || _); intros d0; discriminate. }
      intros _. apply terminates_get_bind. intros d0.
      apply terminates_bind.
      { destruct (i d0 <? 0); intros d1; discriminate. }
      intros _. apply terminates_bind; [intros d1; discriminate|].
      intros _. apply terminates_get_bind. intros d1.
      apply rewindToSentenceStart_terminates. lia.
Qed.

Lemma LastSentence_terminates : terminates LastSentence.
Proof.
  unfold LastSentence. apply terminates_bind; [apply StartOfSentence_terminates|].
  intros _. apply terminates_get_bind. intros d.
  apply terminates_bind; [apply terminates_noTrailingSpace|].
  intros [|]; [intros d0; discriminate|].
  apply terminates_bind; [intros d0; discriminate|].
  intros _. apply terminates_get_bind. intros d0.
  destruct (i d0 <=? 0); [discriminate|].
  apply StartOfSentence_terminates.
Qed.

End TerminationFacts.

(** ** The theorems at work on sample documents *)

Section Samples.

Import dispenser statement pdf.

Lemma sampleDispenser_wellFormed : wellFormed sampleDispenser.
Proof.
  split; [vm_compute; split; discriminate|].
  repeat constructor; discriminate.
Qed.

(** C8 at work: the word "total " is consumed, the sentence stays open. *)
Lemma NextWord_contract_witness :
  exists d', NextWord sampleDispenser = Ok (true, d')
             /\ i d' = 1 /\ continueNextSentence d' = true.
Proof.
  destruct (NextWord_contract sampleDispenser) as (_ & _ & _ & Hsuccess & Htotal).
  destruct (Htotal "total ") as [d' Hd'];
    [reflexivity|reflexivity|reflexivity|discriminate|].
  exists d'. split; [exact Hd'|].
  destruct (Hsuccess d' Hd') as (s & Hs & _ & _ & Hclose & Hi & _).
  split; [exact Hi|].
  destruct (continueNextSentence d'); [reflexivity|].
  injection Hs as <-.
  destruct (proj1 Hclose eq_refl) as [Hends|Hlast]; discriminate.
Defined.

(** C3 at work: the numeral "$4,500.50 " is found and consumed. *)
Lemma JumpNextNumeral_contract_witness :
  wellFormed sampleDispenser
  /\ exists d', JumpNextNumeral sampleDispenser = Ok (true, d')
                /\ i d' = 2
                /\ Numeral d' = Ok (4500.5%float, d').
Proof.
  split; [exact sampleDispenser_wellFormed|].
  destruct (JumpNextNumeral_contract sampleDispenser) as (Htrue & _ & _ & _).
  eexists. split; [vm_compute; reflexivity|]. split; [reflexivity|].
  match goal with
  | |- Numeral ?d = _ =>
      destruct (Htrue d) as (_ & s & num & Hs & Hnum & HNumeral);
        [vm_compute; reflexivity|]
  end.
  rewrite HNumeral. injection Hs as <-. vm_compute in Hnum.
  injection Hnum as <-. reflexivity.
Defined.

(** C5 at work: the lookahead over the first sentences returns the
    dispenser it was given. *)
Lemma DumpNSentences_peek_witness :
  wellFormed sampleDispenser
  /\ DumpNSentences 5 sampleDispenser
     = Ok (["total $4,500.50 paid"; "next"], sampleDispenser).
Proof.
  split; [exact sampleDispenser_wellFormed|].
  destruct (DumpNSentences_peek 5 sampleDispenser) as (_ & _ & Hreturns).
  destruct (Hreturns sampleDispenser_wellFormed) as [sentences Hs].
  rewrite Hs. vm_compute in Hs. injection Hs as Hs. subst sentences. reflexivity.
Defined.

(** C6 at work. *)
Lemma DumpSentence_contract_witness :
  wellFormed sampleDispenser
  /\ DumpSentence sampleDispenser
     = Ok ("total $4,500.50 paid",
           {| i := 3; continueNextSentence := false; str := str sampleDispenser |}).
Proof.
  split; [exact sampleDispenser_wellFormed|].
  destruct (DumpSentence_contract sampleDispenser) as [_ Hopen].
  destruct (Hopen sampleDispenser_wellFormed eq_refl) as [Heq _].
  exact Heq.
Defined.

(** C9 at work: with the cursor after the two fragments, [LastNWords 1]
    returns the first one. *)
Lemma LastNWords_two_back_witness :
  lastNWordsGuard 1 {| i := 2; continueNextSentence := true; str := twoWords |}
  /\ LastNWords 1 {| i := 2; continueNextSentence := true; str := twoWords |}
     = Ok ("a ", {| i := 2; continueNextSentence := true; str := twoWords |}).
Proof.
  assert (Hguard : lastNWordsGuard 1
            {| i := 2; continueNextSentence := true; str := twoWords |})
    by (vm_compute; split; [discriminate|reflexivity]).
  split; [exact Hguard|].
  exact (proj1 (LastNWords_two_back 1 _ Hguard)).
Defined.

(** C9, at an input where the code does not return the fragment.  The
    guard of [LastNWords] tests [d.i-n-1] while the fragment read is
    [d.str[d.i-2]] ([LastWord] tests the index it reads): with the cursor
    at 1 and [n = 0] the guard passes ([d.i-n-1] is 0), and the access to
    [d.str[-1]] panics. *)
Lemma LastNWords_guard_passes_and_panics :
  lastNWordsGuard 0 {| i := 1; continueNextSentence := true; str := ["a"] |}
  /\ LastNWords 0 {| i := 1; continueNextSentence := true; str := ["a"] |}
     = Panic.
Proof. split; [vm_compute; split; [discriminate|reflexivity]|reflexivity]. Qed.

(** C10, where the claim fails.  Every fragment of [twoWords] is non-empty,
    and after [NextSentence] and [NextWord] the call of [LastSentence] reads
    [d.str[2]] of two fragments: [StartOfSentence] has left the cursor at 2.
    On the other side, with the cursor on an empty fragment [NextNumeral],
    [Word] and [Numeral] return. *)
Lemma LastSentence_out_of_range :
  nonEmptyFragments twoWords
  /\ bind NextSentence (fun _ => NextWord) (NewDispenser twoWords)
     = Ok (true, {| i := 1; continueNextSentence := true; str := twoWords |})
  /\ StartOfSentence {| i := 1; continueNextSentence := true; str := twoWords |}
     = Ok (tt, {| i := 2; continueNextSentence := true; str := twoWords |})
  /\ LastSentence {| i := 1; continueNextSentence := true; str := twoWords |}
     = Panic
  /\ NextNumeral {| i := 0; continueNextSentence := true; str := [""] |}
     = Ok (false, {| i := 0; continueNextSentence := true; str := [""] |})
  /\ Word {| i := 1; continueNextSentence := true; str := [""] |}
     = Ok ("", {| i := 1; continueNextSentence := true; str := [""] |})
  /\ Numeral {| i := 1; continueNextSentence := true; str := [""] |}
     = Ok (0%float, {| i := 1; continueNextSentence := true; str := [""] |}).
Proof.
  split; [repeat constructor; discriminate|].
  repeat split; vm_compute; reflexivity.
Qed.

(** C10 at work. *)
Lemma safe_operations_witness :
  wellFormed sampleDispenser
  /\ exists d', StartOfSentence sampleDispenser = Ok (tt, d') /\ wellFormed d'.
Proof.
  split; [exact sampleDispenser_wellFormed|].
  destruct safe_operations as (_ & _ & _ & _ & Hstart & _).
  destruct (Hstart sampleDispenser sampleDispenser_wellFormed)
    as ([] & d' & Hd' & Hwf).
  now exists d'.
Defined.

(** The order of the range does not matter for a sentence that only one
    header matches. *)
Lemma firstHeader_unique {L : GoLib} (lowered : string) (state : Statement)
    (h : headerType) (range : list (headerType * list string)) :
  (forall h' phrases, In (h', phrases) range ->
                      matchesHeader lowered h' phrases state = true -> h' = h) ->
  (exists phrases, In (h, phrases) range
                   /\ matchesHeader lowered h phrases state = true) ->
  firstHeader lowered range state = Some h.
Proof.
  induction range as [|[h0 p0] range IH]; intros Honly (phrases & Hin & Hm).
  - contradiction.
  - cbn [firstHeader]. destruct (matchesHeader lowered h0 p0 state) eqn:Hm0.
    + f_equal. apply (Honly h0 p0); [now left|exact Hm0].
    + apply IH.
      * intros h' p' Hin'. apply Honly. now right.
      * exists phrases. split; [|exact Hm].
        destruct Hin as [Heq|Hin]; [|exact Hin].
        injection Heq as -> ->. congruence.
Qed.

Lemma labels_in_any_order (range : list (headerType * list string)) :
  Permutation range numeralHeaders ->
  numeralHeader range "dividend rate" zeroStatement = Some headerOther
  /\ numeralHeader range "net amount" zeroStatement = Some headerOther
  /\ numeralHeader range "franked amount" zeroStatement = Some headerFranked
  /\ numeralHeader range "number of shares allotted" zeroStatement
     = Some headerSharesAllotted.
Proof.
  intros Hperm.
  assert (Hall : forall lowered h,
            (forall h' phrases, In (h', phrases) numeralHeaders ->
               matchesHeader lowered h' phrases zeroStatement = true -> h' = h) ->
            (exists phrases, In (h, phrases) numeralHeaders
               /\ matchesHeader lowered h phrases zeroStatement = true) ->
            firstHeader lowered range zeroStatement = Some h).
  { intros lowered h Honly (phrases & Hin & Hm). apply firstHeader_unique.
    - intros h' p' Hin'. apply Honly. exact (Permutation_in _ Hperm Hin').
    - exists phrases. split; [|exact Hm].
      exact (Permutation_in _ (Permutation_sym Hperm) Hin). }
  unfold numeralHeader. repeat split; apply Hall;
    try (intros h' p' Hin; cbn [In numeralHeaders] in Hin;
         repeat (destruct Hin as [Heq|Hin];
                 [injection Heq as <- <-; vm_compute;
                  first [reflexivity|discriminate]|]);
         contradiction).
  - eexists. split; [do 8 right; now left|vm_compute; reflexivity].
  - eexists. split; [do 8 right; now left|vm_compute; reflexivity].
  - eexists. split; [now left|vm_compute; reflexivity].
  - eexists. split; [do 3 right; now left|vm_compute; reflexivity].
Qed.

(** C2, where the claim fails.  The labels "dividend rate" and "net amount"
    both belong to [headerOther], which has no field that could be
    populated: after two rounds the queue holds that header twice.  A count
    of 0 is what an unset count holds: once 0 is bound to the number of
    shares allotted, its label is recognised again, its header enqueued a
    second time and the field bound a second time. *)
Lemma header_enqueued_twice :
  afterRounds 2 otherLabels = Some ([headerOther; headerOther], noDollar, 0)
  /\ afterRounds 1 sharesTwice = Some ([headerSharesAllotted], noDollar, 0)
  /\ afterRounds 2 sharesTwice = Some ([], noDollar, 0)
  /\ afterRounds 3 sharesTwice = Some ([headerSharesAllotted], noDollar, 0)
  /\ afterRounds 4 sharesTwice = Some ([], noDollar, 7).
Proof. repeat split; vm_compute; reflexivity. Qed.

(** A label that comes again while its header is still pending is enqueued
    again, its field being populated only when the numeral is bound: the
    franked amount is then bound twice, to 1.00 and then to 2.00. *)
Lemma pending_label_bound_twice :
  afterRounds 2 frankedTwice
    = Some ([headerFranked; headerFranked], noDollar, 0)
  /\ afterRounds 3 frankedTwice
     = Some ([headerFranked], {| Cents := 100; HasValue := true |}, 0)
  /\ afterRounds 4 frankedTwice
     = Some ([], {| Cents := 200; HasValue := true |}, 0)
  /\ option_map FrankedAmount
       (match processText declaredOrder 10 frankedTwice [] with
        | Ok state => Some state
        | _ => None
        end)
     = Some {| Cents := 200; HasValue := true |}.
Proof. repeat split; vm_compute; reflexivity. Qed.

(** C2 at work: with 1.00 bound to the franked amount, the round on the
    second "franked amount" of [frankedAgain] does not enqueue
    [headerFranked], and the field keeps its 100 cents to the end of the
    pass. *)
Lemma enqueue_only_unpopulated_witness :
  processRounds declaredOrder 2 [] (NewDispenser frankedAgain) zeroStatement []
    = Ok ({| i := 1; continueNextSentence := true; str := frankedAgain |},
          frankedBound, [])
  /\ FrankedAmount frankedBound = {| Cents := 100; HasValue := true |}
  /\ processSentence declaredOrder []
       {| i := 2; continueNextSentence := true; str := frankedAgain |}
       frankedBound []
     = Ok ({| i := 2; continueNextSentence := true; str := frankedAgain |},
           frankedBound, [])
  /\ populated headerFranked frankedBound = true
  /\ ([] : list headerType) <> ([] ++ [headerFranked])%list
  /\ option_map FrankedAmount
       (match processText declaredOrder 30 frankedAgain [] with
        | Ok state => Some state
        | _ => None
        end)
     = Some {| Cents := 100; HasValue := true |}.
Proof.
  assert (Hround :
            processSentence declaredOrder []
              {| i := 2; continueNextSentence := true; str := frankedAgain |}
              frankedBound []
            = Ok ({| i := 2; continueNextSentence := true; str := frankedAgain |},
                  frankedBound, []))
    by reflexivity.
  split; [reflexivity|]. split; [reflexivity|]. split; [exact Hround|].
  destruct (enqueue_only_unpopulated declaredOrder [] _ _ _ _ _ _ Hround)
    as (_ & _ & Hstays & _ & _ & _ & _ & Hnot & _).
  split; [exact (Hstays headerFranked eq_refl eq_refl)|].
  split; [exact (proj1 (Hnot headerFranked eq_refl eq_refl))|].
  reflexivity.
Defined.

(** C4 at work: with [headerFranked] pending, the numeral of the sentence
    "Amount $36.00 paid" is its second word and is bound. *)
Lemma pending_numeral_fifo_witness :
  [headerFranked] <> []
  /\ bindPending "Amount $36.00 paid" zeroStatement [headerFranked]
     = Ok (bindField headerFranked 36%float zeroStatement, [])
  /\ bindPending "Amount $36.00 paid" zeroStatement [headerFranked] <> Diverge
  /\ FrankedAmount (bindField headerFranked 36%float zeroStatement)
     = {| Cents := 3600; HasValue := true |}.
Proof.
  assert (Hpending : [headerFranked] <> []) by discriminate.
  split; [exact Hpending|]. split; [reflexivity|].
  split; [|reflexivity].
  exact (proj1 (proj2 (pending_numeral_fifo declaredOrder
                         "Amount $36.00 paid" zeroStatement [headerFranked]
                         Hpending))).
Defined.

(** With the numeral as fifth word nothing is bound: [Position] is 5. *)
Lemma fifth_word_is_not_bound :
  bindPending "a b c d $36.00" zeroStatement [headerFranked]
    = Ok (zeroStatement, [headerFranked])
  /\ bindPending "a b c $36.00" zeroStatement [headerFranked]
     = Ok (bindField headerFranked 36%float zeroStatement, []).
Proof. split; reflexivity. Qed.

(** C7, where the claim fails.  The first string a page shows is a single
    space: there is no previous fragment, and the space is appended as a
    fragment of its own. *)
Lemma leading_space_is_appended :
  identityDecode (font freshTracker) "( )" = " "
  /\ processToken oneElementArray identityDecode freshTracker "Tj"
     = Ok {| text := [" "]; font := "F1"; stack := [] |}.
Proof. split; vm_compute; reflexivity. Qed.

(** C7 at work: after the fragment "Franked", a space is merged into it and
    the next string is appended. *)
Lemma write_merges_space_witness :
  process oneElementArray identityDecode
    {| text := []; font := "F1"; stack := [] |}
    ["(Franked)"; "Tj"; "( )"; "Tj"; "(Amount)"; "Tj"]
  = Ok {| text := ["Franked "; "Amount"]; font := "F1"; stack := [] |}
  /\ processToken oneElementArray identityDecode
       {| text := ["Franked"]; font := "F1"; stack := ["( )"] |} "Tj"
     = writeElements identityDecode
         {| text := ["Franked"]; font := "F1"; stack := [] |} ["( )"].
Proof.
  split; [vm_compute; reflexivity|].
  destruct (write_merges_space oneElementArray identityDecode
              {| text := ["Franked"]; font := "F1"; stack := ["( )"] |})
    as [Hshow _].
  apply (Hshow "Tj" "( )" []). left. split; [|reflexivity].
  right. right. now left.
Defined.

End Samples.

(** ** The dispenser: the operations beside the claims *)

Section CursorFacts.

Context {L : GoLib}.
Import dispenser.

(** [AtEndOfSentence] never panics and never changes the dispenser.  When it
    answers true, [NextWord] and [NextNumeral] both answer false and change
    nothing; when it answers false on a well-formed dispenser, exactly one
    of the two answers true, [NextNumeral] on a numeral and [NextWord] on
    any other fragment. *)
Theorem AtEndOfSentence_agrees (d : Dispenser) :
  (exists atEnd, AtEndOfSentence d = Ok (atEnd, d))
  /\ (AtEndOfSentence d = Ok (true, d) ->
      NextWord d = Ok (false, d) /\ NextNumeral d = Ok (false, d))
  /\ (wellFormed d -> AtEndOfSentence d = Ok (false, d) ->
      exists s,
        index (str d) (i d) = Some s
        /\ (isNumeral s = true ->
            NextWord d = Ok (false, d)
            /\ exists d', NextNumeral d = Ok (true, d'))
        /\ (isNumeral s = false ->
            NextNumeral d = Ok (false, d)
            /\ exists d', NextWord d = Ok (true, d'))).
Proof.
  rewrite AtEndOfSentence_eq, NextWord_eq, NextNumeral_eq.
  split; [eexists; reflexivity|]. split.
  - intros Hend. injection Hend as Hend.
    destruct (len (str d) <=? i d); [now split|].
    rewrite orb_false_r in Hend. rewrite Hend. now split.
  - intros [[Hlo Hhi] Hne] Hend. injection Hend as Hend.
    apply orb_false_iff in Hend as [Hopen Hin]. rewrite Hopen, Hin.
    apply Z.leb_gt in Hin.
    destruct (index_Some (str d) (i d)) as [s Hs]; [lia|].
    exists s. split; [exact Hs|]. rewrite Hs.
    destruct (lastByte_nonempty s (fragment_nonempty _ _ _ Hne Hs)) as [c ->].
    split; intros ->; (split; [reflexivity|eexists; reflexivity]).
Qed.

(** [NextNumeral] answers false and changes nothing at the end of the
    fragments, in a closed sentence and on a fragment that is no numeral.
    When it answers true the consumed fragment is a numeral of the open
    sentence, the cursor has advanced by one, and the sentence is closed
    exactly when the numeral has no trailing space: unlike [NextWord], it
    leaves the sentence open after the last fragment of the sequence when
    that fragment ends with a space. *)
Theorem NextNumeral_contract (d : Dispenser) :
  (len (str d) <= i d \/ continueNextSentence d = false ->
   NextNumeral d = Ok (false, d))
  /\ (forall s, index (str d) (i d) = Some s -> isNumeral s = false ->
      NextNumeral d = Ok (false, d))
  /\ (forall d', NextNumeral d = Ok (true, d') ->
      exists s,
        index (str d) (i d) = Some s /\ isNumeral s = true
        /\ continueNextSentence d = true
        /\ continueNextSentence d' = negb (endsSentence s)
        /\ i d' = i d + 1 /\ str d' = str d)
  /\ (forall s, continueNextSentence d = true ->
      index (str d) (i d) = Some s -> isNumeral s = true ->
      s <> EmptyString ->
      NextNumeral d
        = Ok (true, {| i := i d + 1;
                       continueNextSentence := negb (endsSentence s);
                       str := str d |})).
Proof.
  rewrite NextNumeral_eq. split; [|split; [|split]].
  - intros [Hend|Hclosed].
    + destruct (Z.leb_spec (len (str d)) (i d)); [reflexivity|lia].
    + rewrite Hclosed. cbn. destruct (len (str d) <=? i d); reflexivity.
  - intros s Hs Hnum. rewrite Hs, Hnum.
    destruct (len (str d) <=? i d); [reflexivity|].
    destruct (negb (continueNextSentence d)); reflexivity.
  - intros d'. destruct (len (str d) <=? i d); [discriminate|].
    destruct (continueNextSentence d) eqn:Hopen; cbn; [|discriminate].
    destruct (index (str d) (i d)) as [s|]; [|discriminate].
    destruct (isNumeral s) eqn:Hnum; [|discriminate].
    destruct (lastByte s) as [c|] eqn:Hc; [|discriminate].
    intros Hok. injection Hok as <-. exists s. cbn.
    rewrite (endsSentence_lastByte s c Hc).
    repeat split; try reflexivity. now destruct (negb (isSpace c)).
  - intros s Hopen Hs Hnum Hne. rewrite Hs, Hnum, Hopen. cbn.
    apply index_range in Hs.
    destruct (Z.leb_spec (len (str d)) (i d)); [lia|].
    destruct (lastByte_nonempty s Hne) as [c Hc].
    rewrite (endsSentence_lastByte s c Hc), Hc.
    now destruct (negb (isSpace c)).
Qed.

(** [LastWord] never panics and never changes the dispenser: it returns the
    fragment two positions behind the cursor, and the empty string when
    there is none.  [LastNWords(1)] is the same call. *)
Theorem LastWord_guarded (d : Dispenser) :
  LastWord d
    = Ok (match index (str d) (i d - 2) with
          | Some s => s
          | None => EmptyString
          end, d)
  /\ (- 2 ^ 62 < i d < 2 ^ 62 -> LastNWords 1 d = LastWord d).
Proof.
  assert (Hlast : LastWord d
    = Ok (match index (str d) (i d - 2) with
          | Some s => s
          | None => EmptyString
          end, d)).
  { unfold LastWord. rewrite bind_get.
    destruct (Z.ltb_spec (i d - 2) 0) as [Hneg|Hpos]; cbn [orb].
    - unfold index. destruct (Z.ltb_spec (i d - 2) 0); [reflexivity|lia].
    - destruct (Z.leb_spec (len (str d)) (i d - 2)) as [Hout|Hin].
      + destruct (index (str d) (i d - 2)) as [s|] eqn:Hs; [|reflexivity].
        apply index_range in Hs. lia.
      + rewrite fragment_eq.
        destruct (index_Some (str d) (i d - 2)) as [s ->]; [lia|reflexivity]. }
  split; [exact Hlast|].
  intros Hi. rewrite Hlast. unfold LastNWords. rewrite bind_get. cbv zeta.
  assert (Hw : forall z, - 2 ^ 63 <= z < 2 ^ 63 -> wrap z = z).
  { intros z Hz. unfold wrap. rewrite Z.mod_small; lia. }
  rewrite (Hw (i d - 1)) by lia. rewrite Hw by lia.
  replace (i d - 1 - 1) with (i d - 2) by lia.
  destruct (Z.ltb_spec (i d - 2) 0) as [Hneg|Hpos]; cbn [orb].
  - unfold index, ret. destruct (Z.ltb_spec (i d - 2) 0); [reflexivity|lia].
  - destruct (Z.leb_spec (len (str d)) (i d - 2)) as [Hout|Hin].
    + unfold ret. destruct (index (str d) (i d - 2)) as [s|] eqn:Hs; [|reflexivity].
      apply index_range in Hs. lia.
    + rewrite fragment_eq.
      destruct (index_Some (str d) (i d - 2)) as [s ->]; [lia|reflexivity].
Qed.

(** [Word] and [Numeral] read the fragment the cursor has just passed: after
    [NextWord] answered true, [Word] returns the consumed fragment, trimmed,
    and [Numeral] returns 0; after [NextNumeral] answered true, [Numeral]
    returns the value of the consumed fragment. *)
Theorem Word_reads_consumed (d d' : Dispenser) :
  (NextWord d = Ok (true, d') ->
   exists s,
     index (str d) (i d) = Some s
     /\ Word d' = Ok (TrimSpace s, d')
     /\ Numeral d' = Ok (0%float, d'))
  /\ (NextNumeral d = Ok (true, d') ->
      exists s num,
        index (str d) (i d) = Some s
        /\ getNumeral s = Some num
        /\ Numeral d' = Ok (num, d')
        /\ Word d' = Ok (TrimSpace s, d')).
Proof.
  assert (Hread : forall s c,
    index (str d) (i d) = Some s ->
    Word {| i := i d + 1; continueNextSentence := c; str := str d |}
      = Ok (TrimSpace s, {| i := i d + 1; continueNextSentence := c; str := str d |})
    /\ Numeral {| i := i d + 1; continueNextSentence := c; str := str d |}
       = Ok (match getNumeral s with Some num => num | None => 0%float end,
             {| i := i d + 1; continueNextSentence := c; str := str d |})).
  { intros s c Hs. rewrite Word_eq, Numeral_eq. cbn [i str].
    pose proof (index_range _ _ _ Hs) as Hr.
    destruct (Z.ltb_spec (len (str d)) (i d + 1)); [lia|].
    destruct (Z.eqb_spec (i d + 1) 0); [lia|]. cbn [orb].
    replace (i d + 1 - 1) with (i d) by lia. rewrite Hs.
    split; [reflexivity|]. now destruct (getNumeral s). }
  split.
  - rewrite NextWord_eq.
    destruct (len (str d) <=? i d); [discriminate|].
    destruct (negb (continueNextSentence d)); [discriminate|].
    destruct (index (str d) (i d)) as [s|] eqn:Hs; [|discriminate].
    destruct (isNumeral s) eqn:Hnum; [discriminate|].
    destruct (lastByte s) as [c|]; [|discriminate].
    intros Hok. injection Hok as <-. exists s.
    destruct (Hread s
      (if negb (isSpace c) || (i d + 1 =? len (str d)) then false
       else continueNextSentence d) eq_refl) as [HW HN].
    split; [reflexivity|]. split; [exact HW|].
    rewrite HN. unfold isNumeral in Hnum.
    now destruct (getNumeral s).
  - rewrite NextNumeral_eq.
    destruct (len (str d) <=? i d); [discriminate|].
    destruct (negb (continueNextSentence d)); [discriminate|].
    destruct (index (str d) (i d)) as [s|] eqn:Hs; [|discriminate].
    destruct (isNumeral s) eqn:Hnum; [|discriminate].
    destruct (lastByte s) as [c|]; [|discriminate].
    intros Hok. injection Hok as <-.
    destruct (isNumeral_getNumeral s Hnum) as [num Hg].
    exists s, num.
    destruct (Hread s
      (if negb (isSpace c) then false else continueNextSentence d) eq_refl)
      as [HW HN].
    rewrite Hg in HN. repeat split; assumption.
Qed.

(** [NextSentence] answers false and changes nothing at the end of the
    fragments; on a closed sentence it opens the sentence at the cursor
    without moving.  On an open sentence of a well-formed dispenser it
    moves to the fragment after the current sentence and answers true when
    at least two fragments follow that sentence; when one fragment or none
    follows, it answers false with the cursor after the last fragment: a
    last sentence of one fragment is not delivered.  It never loops. *)
Theorem NextSentence_contract (d : Dispenser) :
  (len (str d) <= i d -> NextSentence d = Ok (false, d))
  /\ (i d < len (str d) -> continueNextSentence d = false ->
      NextSentence d = Ok (true, setContinue d true))
  /\ (wellFormed d -> i d < len (str d) -> continueNextSentence d = true ->
      let next := i d + len (sentenceFrom (fragmentsFrom (str d) (i d))) in
      i d < next <= len (str d)
      /\ (next + 1 < len (str d) -> NextSentence d = Ok (true, setI d next))
      /\ (len (str d) <= next + 1 ->
          NextSentence d = Ok (false, setI d (len (str d)))))
  /\ NextSentence d <> Diverge.
Proof.
  split; [|split; [|split]].
  - intros Hend. unfold NextSentence. rewrite bind_get.
    destruct (Z.leb_spec (len (str d)) (i d)); [reflexivity|lia].
  - intros Hin Hclosed. unfold NextSentence. rewrite bind_get.
    destruct (Z.leb_spec (len (str d)) (i d)); [lia|].
    rewrite Hclosed. reflexivity.
  - intros [[Hlo Hhi] Hne] Hin Hopen. cbv zeta.
    rewrite (NextSentence_spec d Hne Hlo). cbv zeta. rewrite Hopen. cbn [negb].
    destruct (Z.leb_spec (len (str d)) (i d)); [lia|].
    pose proof (len_sentenceFrom (fragmentsFrom (str d) (i d))) as Hle.
    rewrite len_fragmentsFrom in Hle by lia.
    assert (Hpos : 1 <= len (sentenceFrom (fragmentsFrom (str d) (i d)))).
    { apply len_sentenceFrom_pos. intros Hnil.
      assert (Hl : len (fragmentsFrom (str d) (i d)) = len (str d) - i d)
        by (apply len_fragmentsFrom; lia).
      rewrite Hnil in Hl. cbn in Hl. lia. }
    split; [lia|]. split.
    + intros Hfar.
      destruct (Z.eqb_spec
        (i d + len (sentenceFrom (fragmentsFrom (str d) (i d))) + 1)
        (len (str d))); [lia|].
      destruct (Z.leb_spec (len (str d))
        (i d + len (sentenceFrom (fragmentsFrom (str d) (i d))))); [lia|].
      reflexivity.
    + intros Hnear.
      destruct (Z.eqb_spec
        (i d + len (sentenceFrom (fragmentsFrom (str d) (i d))) + 1)
        (len (str d))) as [Heq|Hneq].
      * rewrite Heq. reflexivity.
      * destruct (Z.leb_spec (len (str d))
          (i d + len (sentenceFrom (fragmentsFrom (str d) (i d))))); [|lia].
        f_equal. f_equal. f_equal. lia.
  - apply NextSentence_terminates.
Qed.

End CursorFacts.

(** ** Sentences by position *)

Lemma index_fragmentsFrom (l : list string) (k j : Z) :
  0 <= k -> 0 <= j -> index (fragmentsFrom l k) j = index l (k + j).
Proof.
  intros Hk Hj. unfold index, fragmentsFrom.
  destruct (Z.ltb_spec j 0); [lia|]. destruct (Z.ltb_spec (k + j) 0); [lia|].
  rewrite nth_error_skipn. f_equal. lia.
Qed.

Lemma fragmentsFrom_skip (l x : list string) (k : Z) :
  0 <= k ->
  fragmentsFrom l (k + len x) = skipn (List.length x) (fragmentsFrom l k).
Proof.
  intros Hk. unfold fragmentsFrom, len. rewrite skipn_skipn. f_equal. lia.
Qed.

Lemma index_cons_succ {A : Type} (a : A) (l : list A) (k : Z) :
  0 <= k -> index (a :: l) (k + 1) = index l k.
Proof.
  intros Hk. unfold index.
  destruct (Z.ltb_spec (k + 1) 0); [lia|]. destruct (Z.ltb_spec k 0); [lia|].
  replace (Z.to_nat (k + 1)) with (S (Z.to_nat k)) by lia. reflexivity.
Qed.

Lemma index_zero {A : Type} (a : A) (l : list A) : index (a :: l) 0 = Some a.
Proof. reflexivity. Qed.

(** The fragments of a sentence but its last have a trailing space; its
    last fragment has none when another fragment follows; and the sentence
    is a prefix of the list. *)
Lemma sentenceFrom_index (l : list string) :
  (forall k, 0 <= k < len (sentenceFrom l) - 1 ->
             exists x, index l k = Some x /\ endsSentence x = false)
  /\ (len (sentenceFrom l) < len l ->
      exists x, index l (len (sentenceFrom l) - 1) = Some x
                /\ endsSentence x = true)
  /\ (forall k, 0 <= k < len (sentenceFrom l) ->
                index (sentenceFrom l) k = index l k).
Proof.
  induction l as [|s rest IH].
  - cbn. repeat split; intros; lia.
  - cbn [sentenceFrom]. destruct (endsSentence s) eqn:Hs.
    + change (len [s]) with 1. split; [|split].
      * intros k Hk. lia.
      * intros _. exists s. now split.
      * intros k Hk. assert (k = 0) by lia. subst k. reflexivity.
    + destruct IH as (IH1 & IH2 & IH3). rewrite !len_cons. split; [|split].
      * intros k Hk. destruct (Z.eq_dec k 0) as [->|Hne].
        -- exists s. now split.
        -- destruct (IH1 (k - 1)) as (x & Hx & Hend); [lia|].
           exists x. split; [|exact Hend].
           replace k with (k - 1 + 1) by lia. rewrite index_cons_succ by lia.
           exact Hx.
      * intros Hlt. destruct IH2 as (x & Hx & Hend); [lia|].
        exists x. split; [|exact Hend].
        pose proof (index_range _ _ _ Hx) as Hr.
        replace (1 + len (sentenceFrom rest) - 1)
          with (len (sentenceFrom rest) - 1 + 1) by lia.
        rewrite index_cons_succ by lia. exact Hx.
      * intros k Hk. destruct (Z.eq_dec k 0) as [->|Hne]; [reflexivity|].
        replace k with (k - 1 + 1) by lia. rewrite !index_cons_succ by lia.
        apply IH3. lia.
Qed.

Lemma sentencesOf_nil (count : nat) : sentencesOf count [] = [].
Proof. now destruct count. Qed.

Lemma concatAll_app (l m : list string) :
  concatAll (l ++ m) = (concatAll l ++ concatAll m)%string.
Proof.
  unfold concatAll. induction l as [|s l IH]; [reflexivity|].
  cbn [app fold_right]. now rewrite IH, append_assoc.
Qed.

(** The sentences of a fragment list, put together, are the fragments put
    together: no fragment is left out or read twice. *)
Lemma sentencesOf_complete (count : nat) : forall l,
  (List.length l <= count)%nat ->
  concatAll (sentencesOf count l) = concatAll l.
Proof.
  induction count as [|count IH]; intros l Hlen.
  - destruct l; [reflexivity|cbn in Hlen; lia].
  - destruct l as [|s l']; [reflexivity|]. cbn [sentencesOf].
    destruct (sentenceFrom_shape (s :: l')) as (rest & Hsplit & _).
    set (sentence := sentenceFrom (s :: l')) in *.
    assert (Hskip : skipn (List.length sentence) (s :: l') = rest).
    { rewrite Hsplit at 1. rewrite skipn_app, skipn_all, Nat.sub_diag.
      reflexivity. }
    rewrite Hskip.
    change (concatAll (concatAll sentence :: sentencesOf count rest))
      with (concatAll sentence ++ concatAll (sentencesOf count rest))%string.
    rewrite IH.
    + rewrite <- concatAll_app. now rewrite <- Hsplit.
    + assert (Hpos : 1 <= len sentence)
        by (apply len_sentenceFrom_pos; discriminate).
      assert (Hall : List.length (s :: l')
                     = (List.length sentence + List.length rest)%nat)
        by (rewrite Hsplit at 1; apply length_app).
      unfold len in Hpos. lia.
Qed.

Section SentenceListFacts.

Context {L : GoLib}.
Import dispenser.

Lemma sentence_bounds (d : Dispenser) :
  0 <= i d <= len (str d) ->
  i d + len (sentenceFrom (fragmentsFrom (str d) (i d))) <= len (str d)
  /\ (i d < len (str d) ->
      1 <= len (sentenceFrom (fragmentsFrom (str d) (i d)))).
Proof.
  intros Hi.
  pose proof (len_sentenceFrom (fragmentsFrom (str d) (i d))) as Hle.
  rewrite len_fragmentsFrom in Hle by lia. split; [lia|].
  intros Hin. apply len_sentenceFrom_pos. intros Hnil.
  assert (Hl : len (fragmentsFrom (str d) (i d)) = len (str d) - i d)
    by (apply len_fragmentsFrom; lia).
  rewrite Hnil in Hl. cbn in Hl. lia.
Qed.

(** The loop of [DumpNSentences], entered with the sentence closed. *)
Lemma dumpMore_lists (count : nat) : forall sentences d,
  wellFormed d -> continueNextSentence d = false ->
  exists d',
    dumpMore count sentences d
      = Ok ((sentences ++ sentencesOf count (fragmentsFrom (str d) (i d)))%list, d')
    /\ str d' = str d.
Proof.
  induction count as [|count IH]; intros sentences d [[Hlo Hhi] Hne] Hclosed;
    cbn [dumpMore sentencesOf].
  - exists d. rewrite app_nil_r. now split.
  - unfold bind at 1. rewrite (NextSentence_spec d Hne Hlo), Hclosed. cbn [negb].
    destruct (Z.leb_spec (len (str d)) (i d)) as [Hend|Hin].
    + rewrite fragmentsFrom_end by exact Hend. exists d.
      rewrite app_nil_r. now split.
    + cbv iota beta. unfold bind at 1.
      rewrite (DumpSentence_open (setContinue d true)) by (cbn; auto).
      cbn [i str setContinue].
      destruct (sentence_bounds d) as [Hb1 Hb2]; [lia|].
      set (F := fragmentsFrom (str d) (i d)) in *.
      destruct (IH (sentences ++ [concatAll (sentenceFrom F)])%list
                  {| i := i d + len (sentenceFrom F);
                     continueNextSentence := false; str := str d |})
        as (d' & Hrun & Hstr).
      { split; [|exact Hne]. cbn [i str]. lia. }
      { reflexivity. }
      exists d'. split; [|exact Hstr]. rewrite Hrun. cbn [i str].
      rewrite <- app_assoc. cbn [app].
      rewrite fragmentsFrom_skip by lia. fold F.
      destruct F as [|s F'] eqn:HF; [|reflexivity].
      assert (Hl : len (fragmentsFrom (str d) (i d)) = len (str d) - i d)
        by (apply len_fragmentsFrom; lia).
      fold F in Hl. rewrite HF in Hl. cbn in Hl. lia.
Qed.

Lemma restored (d d' : Dispenser) :
  str d' = str d ->
  {| i := i d; continueNextSentence := continueNextSentence d; str := str d' |} = d.
Proof. intros ->. now destruct d. Qed.

Lemma DumpNSentences_open_lists (n : Z) (d : Dispenser) :
  wellFormed d -> continueNextSentence d = true ->
  DumpNSentences n d
    = Ok ((concatAll (sentenceFrom (fragmentsFrom (str d) (i d)))
           :: sentencesOf (Z.to_nat (wrap (n - 1)))
                (skipn (List.length (sentenceFrom (fragmentsFrom (str d) (i d))))
                       (fragmentsFrom (str d) (i d))))%list, d).
Proof.
  intros [[Hlo Hhi] Hne] Hopen. rewrite DumpNSentences_eq. unfold bind.
  rewrite (DumpSentence_open d Hne Hlo Hopen).
  destruct (sentence_bounds d) as [Hb1 _]; [lia|].
  pose proof (len_nonneg (sentenceFrom (fragmentsFrom (str d) (i d)))) as Hb0.
  destruct (dumpMore_lists (Z.to_nat (wrap (n - 1)))
              [concatAll (sentenceFrom (fragmentsFrom (str d) (i d)))]
              {| i := i d + len (sentenceFrom (fragmentsFrom (str d) (i d)));
                 continueNextSentence := false; str := str d |})
    as (d' & Hrun & Hstr).
  { split; [|exact Hne]. cbn [i str]. lia. }
  { reflexivity. }
  rewrite Hrun. cbn [i str] in *. rewrite (restored d d' Hstr).
  rewrite fragmentsFrom_skip by lia. reflexivity.
Qed.

(** [DumpNSentences(n)] on a well-formed dispenser returns the sentences
    from the cursor on, each as the concatenation of its fragments, and
    leaves the dispenser as it was.  On an open sentence these are the first
    [n] sentences (one sentence for [n <= 1]), fewer when the fragments end
    before; on a closed sentence, or at the end of the fragments, the list
    starts with the empty string, followed by the first [n-1] sentences.
    The sentences of all the fragments, put together, are the fragments put
    together. *)
Theorem DumpNSentences_lists (n : Z) (d : Dispenser) :
  wellFormed d ->
  let count := Z.to_nat (wrap (n - 1)) in
  let rest := fragmentsFrom (str d) (i d) in
  (continueNextSentence d = true -> i d < len (str d) ->
   DumpNSentences n d = Ok (sentencesOf (S count) rest, d))
  /\ (continueNextSentence d = false \/ len (str d) <= i d ->
      DumpNSentences n d = Ok (EmptyString :: sentencesOf count rest, d))
  /\ (1 <= n < 2 ^ 63 -> S count = Z.to_nat n)
  /\ (- 2 ^ 63 < n <= 1 -> count = O)
  /\ (forall m, (List.length rest <= m)%nat ->
                concatAll (sentencesOf m rest) = concatAll rest).
Proof.
  intros Hwf. pose proof Hwf as [[Hlo Hhi] Hne]. cbv zeta.
  pose proof (DumpNSentences_open_lists n d Hwf) as Hopen.
  split; [|split; [|split; [|split]]].
  5:{ intros m Hm. now apply sentencesOf_complete. }
  - intros Hop Hin. rewrite (Hopen Hop). cbn [sentencesOf].
    destruct (fragmentsFrom (str d) (i d)) as [|s F'] eqn:HF; [|reflexivity].
    assert (Hl : len (fragmentsFrom (str d) (i d)) = len (str d) - i d)
      by (apply len_fragmentsFrom; lia).
    rewrite HF in Hl. cbn in Hl. lia.
  - intros [Hclosed|Hend].
    + rewrite DumpNSentences_eq. unfold bind.
      rewrite (DumpSentence_closed d Hclosed).
      destruct (dumpMore_lists (Z.to_nat (wrap (n - 1))) [EmptyString] d Hwf Hclosed)
        as (d' & Hrun & Hstr).
      rewrite Hrun, (restored d d' Hstr). reflexivity.
    + destruct (continueNextSentence d) eqn:Hc.
      * rewrite (Hopen eq_refl). rewrite (fragmentsFrom_end _ _ Hend).
        cbn [sentenceFrom concatAll fold_right List.length skipn]. reflexivity.
      * rewrite DumpNSentences_eq. unfold bind.
        rewrite (DumpSentence_closed d Hc).
        destruct (dumpMore_lists (Z.to_nat (wrap (n - 1))) [EmptyString] d Hwf Hc)
          as (d' & Hrun & Hstr).
        rewrite Hrun, (restored d d' Hstr). reflexivity.
  - intros Hn. unfold wrap. rewrite Z.mod_small by lia. lia.
  - intros Hn. unfold wrap.
    destruct (Z.eq_dec n 1) as [->|Hne1]; [reflexivity|].
    rewrite Z.mod_small by lia. lia.
Qed.

End SentenceListFacts.

Section NumeralSearchFacts.

Context {L : GoLib}.
Import dispenser.

Lemma firstNumeral_Some (l : list string) (k : Z) :
  firstNumeral l = Some k ->
  0 <= k < len l /\ exists s, index l k = Some s /\ isNumeral s = true.
Proof.
  revert k. induction l as [|s rest IH]; intros k; cbn [firstNumeral].
  - discriminate.
  - rewrite len_cons. destruct (isNumeral s) eqn:Hnum.
    + intros Hk. injection Hk as <-. pose proof (len_nonneg rest).
      split; [lia|]. exists s. now split.
    + destruct (firstNumeral rest) as [k'|]; [|discriminate].
      cbn [option_map]. intros Hk. injection Hk as <-.
      destruct (IH k' eq_refl) as (Hr & x & Hx & Hxn).
      split; [lia|]. exists x. split; [|exact Hxn].
      unfold Z.succ. rewrite index_cons_succ by lia. exact Hx.
Qed.

Lemma scanForNumeral_stops (fuel : nat) (d : Dispenser) :
  continueNextSentence d = false \/ len (str d) <= i d ->
  scanForNumeral fuel d = Ok (tt, d).
Proof.
  intros Hend.
  assert (Hat : AtEndOfSentence d = Ok (true, d)).
  { rewrite AtEndOfSentence_eq. destruct Hend as [->|Hend]; [reflexivity|].
    destruct (Z.leb_spec (len (str d)) (i d)); [|lia].
    now rewrite orb_true_r. }
  destruct fuel; cbn [scanForNumeral]; unfold bind; now rewrite Hat.
Qed.

(** The loop of [JumpNextNumeral] on an open sentence: it stops on the
    first numeral of the sentence, or closes the sentence after its last
    fragment. *)
Lemma scanForNumeral_finds (fuel : nat) : forall d,
  wellFormed d -> continueNextSentence d = true -> i d < len (str d) ->
  len (str d) - i d <= Z.of_nat fuel ->
  scanForNumeral fuel d =
    Ok (tt,
        match firstNumeral (sentenceFrom (fragmentsFrom (str d) (i d))) with
        | Some k =>
            {| i := i d + k; continueNextSentence := true; str := str d |}
        | None =>
            {| i := i d + len (sentenceFrom (fragmentsFrom (str d) (i d)));
               continueNextSentence := false; str := str d |}
        end).
Proof.
  induction fuel as [|fuel IH]; intros d [[Hlo Hhi] Hne] Hopen Hin Hfuel; [lia|].
  destruct (index_Some (str d) (i d)) as [s Hs]; [lia|].
  pose proof (fragment_nonempty _ _ _ Hne Hs) as Hsne.
  destruct (lastByte_nonempty s Hsne) as [c Hc].
  rewrite (fragmentsFrom_cons _ _ _ Hs). cbn [sentenceFrom firstNumeral].
  cbn [scanForNumeral]. unfold bind at 1. rewrite AtEndOfSentence_eq, Hopen.
  destruct (Z.leb_spec (len (str d)) (i d)); [lia|]. cbn [negb orb].
  unfold bind at 1. rewrite NextNumeral_eq.
  destruct (Z.leb_spec (len (str d)) (i d)); [lia|]. rewrite Hopen, Hs.
  cbn [negb]. destruct (isNumeral s) eqn:Hnum.
  - rewrite Hc. rewrite bind_get, bind_put_i. unfold put_continue.
    unfold setContinue, setI. cbn [i str continueNextSentence].
    replace (i d + 1 - 1) with (i d + 0) by lia.
    destruct (endsSentence s); cbn [firstNumeral]; rewrite Hnum; reflexivity.
  - unfold bind at 1. rewrite NextWord_eq.
    destruct (Z.leb_spec (len (str d)) (i d)); [lia|]. rewrite Hopen, Hs, Hnum, Hc.
    cbn [negb]. rewrite (endsSentence_lastByte s c Hc).
    destruct (negb (isSpace c)) eqn:Hends; cbn [orb].
    + rewrite scanForNumeral_stops by (now left).
      cbn [firstNumeral]. rewrite Hnum. cbn [firstNumeral option_map].
      reflexivity.
    + cbn [firstNumeral]. rewrite Hnum.
      destruct (Z.eqb_spec (i d + 1) (len (str d))) as [Hlast|Hmore].
      * rewrite scanForNumeral_stops by (now left).
        rewrite (fragmentsFrom_end (str d) (i d + 1)) by lia.
        cbn [sentenceFrom firstNumeral option_map]. reflexivity.
      * rewrite IH; cbn [i str continueNextSentence]; try lia; try reflexivity.
        2:{ split; [cbn [i str]; lia|exact Hne]. }
        rewrite len_cons.
        destruct (firstNumeral (sentenceFrom (fragmentsFrom (str d) (i d + 1))));
          cbn [option_map]; do 3 f_equal; lia.
Qed.

(** [JumpNextNumeral] on an open sentence of a well-formed dispenser looks
    for the first numeral among the fragments of the sentence, from the
    cursor to the fragment that ends the sentence.  When there is one it
    answers true with the cursor just after that numeral and the sentence
    open, also when the numeral ended the sentence.  When there is none it
    answers false with the cursor where it was, and the sentence is closed
    unless the cursor was at the end of the fragments. *)
Theorem JumpNextNumeral_finds_first (d : Dispenser) :
  wellFormed d -> continueNextSentence d = true ->
  JumpNextNumeral d =
    match firstNumeral (sentenceFrom (fragmentsFrom (str d) (i d))) with
    | Some k =>
        Ok (true, {| i := i d + k + 1; continueNextSentence := true;
                     str := str d |})
    | None =>
        Ok (false, {| i := i d; continueNextSentence := (len (str d) <=? i d);
                      str := str d |})
    end.
Proof.
  intros Hwf Hopen. pose proof Hwf as [[Hlo Hhi] Hne].
  unfold JumpNextNumeral. rewrite bind_get. cbv zeta.
  destruct (Z.leb_spec (len (str d)) (i d)) as [Hend|Hin].
  - rewrite (fragmentsFrom_end _ _ Hend). cbn [sentenceFrom firstNumeral].
    unfold bind at 1. rewrite scanForNumeral_stops by (now right).
    unfold bind at 1. rewrite NextNumeral_eq.
    destruct (Z.leb_spec (len (str d)) (i d)); [|lia].
    unfold bind at 1. rewrite AtEndOfSentence_eq.
    destruct (Z.leb_spec (len (str d)) (i d)); [|lia].
    rewrite orb_true_r. cbn [negb andb]. rewrite bind_put_i. unfold ret.
    rewrite setI_same. destruct d; cbn in *. now subst.
  - unfold bind at 1.
    rewrite (scanForNumeral_finds _ d Hwf Hopen Hin) by lia.
    destruct (sentence_bounds d) as [Hb1 Hb2]; [lia|].
    destruct (firstNumeral (sentenceFrom (fragmentsFrom (str d) (i d))))
      as [k|] eqn:Hfirst.
    + destruct (firstNumeral_Some _ _ Hfirst) as (Hk & s & Hs & Hnum).
      destruct (sentenceFrom_index (fragmentsFrom (str d) (i d)))
        as (_ & _ & Hprefix).
      rewrite Hprefix in Hs by lia.
      rewrite index_fragmentsFrom in Hs by lia.
      pose proof (fragment_nonempty _ _ _ Hne Hs) as Hsne.
      destruct (lastByte_nonempty s Hsne) as [c Hc].
      unfold bind at 1. rewrite NextNumeral_eq. cbn [i str continueNextSentence].
      destruct (Z.leb_spec (len (str d)) (i d + k)); [lia|].
      cbn [negb]. rewrite Hs, Hnum, Hc.
      unfold bind at 1. rewrite AtEndOfSentence_eq. cbn [negb andb].
      rewrite bind_put_continue. reflexivity.
    + unfold bind at 1. rewrite NextNumeral_eq. cbn [i str continueNextSentence].
      cbn [negb].
      destruct (len (str d) <=?
                i d + len (sentenceFrom (fragmentsFrom (str d) (i d))));
        unfold bind at 1; rewrite AtEndOfSentence_eq;
        cbn [i str continueNextSentence negb orb andb];
        rewrite bind_put_i; reflexivity.
Qed.

End NumeralSearchFacts.

Section SentenceStartFacts.

Context {L : GoLib}.
Import dispenser.

(** The loop of [StartOfSentence], started within the sentence that begins
    at [start] or on the fragment before it: it ends on [start], except that
    it never reads fragment 0, so that a sentence beginning at 1 is taken to
    begin at 0. *)
Lemma rewindToSentenceStart_finds (fuel : nat) : forall d start,
  nonEmptyFragments (str d) ->
  0 <= start -> start - 1 <= i d -> 0 <= i d ->
  (forall k, start <= k <= i d -> 0 < k ->
             exists x, index (str d) k = Some x /\ endsSentence x = false) ->
  (2 <= start ->
   exists p, index (str d) (start - 1) = Some p /\ endsSentence p = true) ->
  i d <= Z.of_nat fuel ->
  rewindToSentenceStart fuel d
    = Ok (tt, setI d (if start =? 1 then 0 else start)).
Proof.
  induction fuel as [|fuel IH];
    intros d start Hne Hstart Hlow Hlo Hwords Hprev Hfuel;
    cbn [rewindToSentenceStart]; rewrite bind_get;
    destruct (Z.ltb_spec 0 (i d)) as [Hpos|Hzero]; try lia.
  - unfold ret. do 2 f_equal. assert (Hi : i d = 0) by lia.
    destruct (Z.eqb_spec start 1); [|replace start with 0 by lia];
      rewrite <- Hi; symmetry; apply setI_same.
  - destruct (Z_le_gt_dec start (i d)) as [Hin|Hbefore].
    + destruct (Hwords (i d)) as (x & Hx & Hend); [lia|lia|].
      rewrite (bind_Ok _ _ _ _ _
                 (noTrailingSpace_ok _ _ _ Hx (fragment_nonempty _ _ _ Hne Hx))).
      rewrite Hend, bind_put_i.
      rewrite (IH (setI d (i d - 1)) start); cbn [i str setI];
        try assumption; try lia.
      * now rewrite setI_setI.
      * intros k Hk Hk0. apply Hwords; lia.
    + destruct Hprev as (p & Hp & Hend); [lia|].
      replace (start - 1) with (i d) in Hp by lia.
      rewrite (bind_Ok _ _ _ _ _
                 (noTrailingSpace_ok _ _ _ Hp (fragment_nonempty _ _ _ Hne Hp))).
      rewrite Hend. unfold put_i. do 2 f_equal.
      destruct (Z.eqb_spec start 1); [lia|]. f_equal. lia.
  - unfold ret. do 2 f_equal. assert (Hi : i d = 0) by lia.
    destruct (Z.eqb_spec start 1); [|replace start with 0 by lia];
      rewrite <- Hi; symmetry; apply setI_same.
Qed.

(** [StartOfSentence] after [DumpSentence] has returned the sentence that
    begins at the cursor.  It returns to the beginning of that sentence and
    opens it, with three exceptions the code makes: when the fragment after
    the sentence has no trailing space the cursor is put on the last
    fragment of the sentence; when the sequence has one fragment the cursor
    is put on it and the sentence stays closed; and a sentence that begins at
    position 1 is rewound to position 0. *)
Theorem StartOfSentence_after_DumpSentence (d : Dispenser) :
  wellFormed d -> continueNextSentence d = true -> i d < len (str d) ->
  (i d = 0
   \/ exists p, index (str d) (i d - 1) = Some p /\ endsSentence p = true) ->
  let next := i d + len (sentenceFrom (fragmentsFrom (str d) (i d))) in
  let start := if i d =? 1 then 0 else i d in
  bind DumpSentence (fun _ => StartOfSentence) d =
    Ok (tt,
        match index (str d) next with
        | Some following =>
            if endsSentence following
            then {| i := next - 1; continueNextSentence := true; str := str d |}
            else {| i := start; continueNextSentence := true; str := str d |}
        | None =>
            if len (str d) =? 1
            then {| i := 0; continueNextSentence := false; str := str d |}
            else {| i := start; continueNextSentence := true; str := str d |}
        end).
Proof.
  intros [[Hlo Hhi] Hne] Hopen Hin Hprev. cbv zeta.
  destruct (sentence_bounds d) as [Hb1 Hb2]; [lia|]. specialize (Hb2 Hin).
  destruct (sentenceFrom_index (fragmentsFrom (str d) (i d)))
    as (Hwords & Hlast & _).
  rewrite len_fragmentsFrom in Hlast by lia.
  set (n := len (sentenceFrom (fragmentsFrom (str d) (i d)))) in *.
  unfold bind at 1. rewrite (DumpSentence_open d Hne Hlo Hopen). fold n.
  set (d1 := {| i := i d + n; continueNextSentence := false; str := str d |}).
  (* the tail of [StartOfSentence], from the cursor [j] *)
  assert (Htail : forall j,
    j = i d + n - 2 ->
    bind (put_i j)
      (fun _ => bind get (fun d0 =>
         bind (if i d0 <? 0 then put_i 0 else ret tt)
           (fun _ => bind (put_continue true)
              (fun _ => bind get
                 (fun d0 => rewindToSentenceStart (Z.to_nat (i d0))))))) d1
    = Ok (tt, {| i := if i d =? 1 then 0 else i d;
                 continueNextSentence := true; str := str d |})).
  { intros j Hj. rewrite bind_put_i, bind_get. cbn [i setI d1].
    assert (Hrun : forall j', j' = Z.max 0 j ->
      bind (put_continue true)
        (fun _ => bind get (fun d0 => rewindToSentenceStart (Z.to_nat (i d0))))
        (setI d1 j')
      = Ok (tt, {| i := if i d =? 1 then 0 else i d;
                   continueNextSentence := true; str := str d |})).
    { intros j' Hj'. rewrite bind_put_continue, bind_get.
      cbn [i setI setContinue d1].
      rewrite (rewindToSentenceStart_finds _ _ (i d));
        cbn [i str setI setContinue d1]; try assumption; try lia.
      - reflexivity.
      - intros k Hk Hk0.
        destruct (Hwords (k - i d)) as (x & Hx & Hend); [lia|].
        rewrite index_fragmentsFrom in Hx by lia.
        replace (i d + (k - i d)) with k in Hx by lia. now exists x.
      - intros Hstart. destruct Hprev as [Hzero|Hp]; [lia|exact Hp]. }
    destruct (Z.ltb_spec j 0) as [Hneg|Hpos].
    - rewrite bind_put_i, setI_setI. apply Hrun. lia.
    - rewrite bind_ret. apply Hrun. lia. }
  unfold StartOfSentence. rewrite bind_get.
  unfold singleWordSentence at 1. unfold bind at 1. rewrite bind_get.
  cbn [i str d1 continueNextSentence].
  destruct (Z.ltb_spec 0 (i d + n)) as [_|Hbad]; [|lia]. cbn [andb].
  destruct (Z.eqb_spec (i d + n) 0) as [Hbad|_]; [lia|].
  destruct (Z.ltb_spec (i d + n) (len (str d))) as [Hmore|Hend].
  - destruct (index_Some (str d) (i d + n)) as [following Hf]; [lia|].
    rewrite Hf.
    rewrite (bind_Ok _ _ _ _ _
               (noTrailingSpace_ok (i d + n) d1 following Hf
                  (fragment_nonempty _ _ _ Hne Hf))).
    destruct (endsSentence following).
    + destruct Hlast as (x & Hx & Hxend); [lia|].
      rewrite index_fragmentsFrom in Hx by lia.
      replace (i d + (n - 1)) with (i d + n - 1) in Hx by lia.
      rewrite (noTrailingSpace_ok (i d + n - 1) d1 x Hx
                 (fragment_nonempty _ _ _ Hne Hx)).
      rewrite Hxend. cbn [negb]. rewrite bind_put_i. reflexivity.
    + cbv iota beta.
      destruct (Z.eqb_spec (len (str d)) 1) as [Hone|_]; [lia|].
      cbn [negb orb]. rewrite orb_true_r. apply Htail. reflexivity.
  - destruct (index (str d) (i d + n)) as [x|] eqn:Hx.
    { apply index_range in Hx. lia. }
    cbv iota beta.
    destruct (Z.eqb_spec (len (str d)) 1) as [Hone|Hmany]; [reflexivity|].
    cbn [negb orb]. rewrite orb_true_r. apply Htail. reflexivity.
Qed.

End SentenceStartFacts.

Section FromSentenceFacts.

Context {L : GoLib}.
Import dispenser.

Lemma Join_cons (p q : string) (rest : list string) (sep : string) :
  strings.Join (p :: q :: rest) sep
    = (p ++ sep ++ strings.Join (q :: rest) sep)%string.
Proof. reflexivity. Qed.

(** Joining the words of a split string with the separator gives the string
    back. *)
Lemma Join_Split (sep : ascii) (s : string) :
  strings.Join (strings.Split s sep) (String sep EmptyString) = s.
Proof.
  induction s as [|c rest IH]; [reflexivity|]. cbn [strings.Split].
  pose proof (Split_nonempty rest sep) as Hne.
  destruct (strings.Split rest sep) as [|w ws] eqn:Hsplit; [congruence|].
  destruct (Ascii.eqb_spec c sep) as [->|Hc].
  - rewrite Join_cons, IH. reflexivity.
  - destruct ws as [|w' ws].
    + cbn [strings.Join] in *. now rewrite IH.
    + rewrite Join_cons in *. rewrite <- IH. reflexivity.
Qed.

Lemma concatAll_words (ws : list string) :
  ws <> [] ->
  concatAll (map (fun w => w ++ " ")%string (removelast ws)
             ++ [last ws EmptyString])%list
    = strings.Join ws " ".
Proof.
  induction ws as [|w ws IH]; [congruence|]. intros _.
  destruct ws as [|w' ws].
  - cbn. apply append_empty_r.
  - change (removelast (w :: w' :: ws)) with (w :: removelast (w' :: ws)).
    change (last (w :: w' :: ws) EmptyString) with (last (w' :: ws) EmptyString).
    rewrite Join_cons. cbn [map app]. unfold concatAll in *. cbn [fold_right].
    rewrite IH by discriminate. now rewrite append_assoc.
Qed.

Lemma endsSentence_append_space (w : string) :
  endsSentence (w ++ " ") = false.
Proof.
  unfold endsSentence.
  assert (Hlast : lastByte (w ++ " ") = Some space).
  { induction w as [|c w IH]; [reflexivity|].
    cbn [String.append lastByte]. rewrite IH.
    now destruct (w ++ " ")%string. }
  now rewrite Hlast.
Qed.

Lemma sentenceFrom_whole (l : list string) (w : string) :
  Forall (fun s => endsSentence s = false) l ->
  sentenceFrom (l ++ [w]) = (l ++ [w])%list.
Proof.
  induction 1 as [|s l Hs _ IH]; cbn [app sentenceFrom].
  - now destruct (endsSentence w).
  - now rewrite Hs, IH.
Qed.

(** The dispenser of a sentence holds the words of the sentence, every word
    but the last with the space that followed it: the fragments put together
    are the sentence again.  When the sentence is not empty and does not end
    with a space, the dispenser holds it as one sentence: [NextSentence]
    then [DumpSentence] return it whole and leave the cursor after the last
    fragment. *)
Theorem NewDispenserFromSentence_round_trip (sentence : string) :
  concatAll (str (NewDispenserFromSentence sentence)) = sentence
  /\ strings.Join (strings.Split sentence space) " " = sentence
  /\ (sentence <> EmptyString -> lastByte sentence <> Some space ->
      bind NextSentence (fun _ => DumpSentence)
           (NewDispenserFromSentence sentence)
        = Ok (sentence,
              {| i := len (str (NewDispenserFromSentence sentence));
                 continueNextSentence := false;
                 str := str (NewDispenserFromSentence sentence) |})).
Proof.
  assert (Hcat : concatAll (str (NewDispenserFromSentence sentence)) = sentence).
  { rewrite NewDispenserFromSentence_str,
      (concatAll_words _ (Split_nonempty sentence space)).
    apply (Join_Split space). }
  split; [exact Hcat|]. split; [apply (Join_Split space)|].
  intros Hne Hlast.
  pose proof (NewDispenserFromSentence_wellFormed sentence Hne Hlast)
    as [[Hlo Hhi] Hfr].
  unfold bind. rewrite NextSentence_opens.
  rewrite (DumpSentence_open _ Hfr Hlo eq_refl).
  cbn [i str setContinue].
  change (i (NewDispenserFromSentence sentence)) with 0.
  change (fragmentsFrom (str (NewDispenserFromSentence sentence)) 0)
    with (str (NewDispenserFromSentence sentence)).
  assert (Hwhole : sentenceFrom (str (NewDispenserFromSentence sentence))
                   = str (NewDispenserFromSentence sentence)).
  { rewrite NewDispenserFromSentence_str. apply sentenceFrom_whole.
    apply Forall_map. apply Forall_forall. intros w _.
    apply endsSentence_append_space. }
  rewrite Hwhole, Hcat. reflexivity.
Qed.

End FromSentenceFacts.

(** ** The extraction pass beside the claims *)

Section ExtractionRunFacts.

Context {L : GoLib}.
Variable rangeOrder :
  string -> statement.Statement -> list (pdf.headerType * list string).
Import dispenser statement pdf.

Lemma matchesHeader_no_prefix (lowered : string) (h : headerType)
    (phrases : list string) (state : Statement) :
  forallb (fun phrase => negb (strings.HasPrefix lowered phrase)) phrases = true ->
  matchesHeader lowered h phrases state = false.
Proof.
  induction phrases as [|p phrases IH]; [reflexivity|].
  cbn [forallb matchesHeader]. intros Hall.
  apply andb_true_iff in Hall as [Hp Hrest].
  apply negb_true_iff in Hp. rewrite Hp. now apply IH.
Qed.

Lemma numeralHeader_labelFree (range : list (headerType * list string))
    (s : string) (state : Statement) :
  (forall entry, In entry range -> In entry numeralHeaders) ->
  labelFree s = true -> numeralHeader range s state = None.
Proof.
  intros Hsub Hfree. unfold numeralHeader, labelFree in *.
  rewrite forallb_forall in Hfree.
  induction range as [|[h phrases] range IH]; [reflexivity|].
  cbn [firstHeader].
  rewrite (matchesHeader_no_prefix _ h phrases state).
  - apply IH. intros entry Hin. apply Hsub. now right.
  - apply (Hfree (h, phrases)). apply Hsub. now left.
Qed.

Lemma singleWordSentence_true (d : Dispenser) (x p : string) :
  nonEmptyFragments (str d) -> 0 < i d ->
  index (str d) (i d) = Some x -> endsSentence x = true ->
  index (str d) (i d - 1) = Some p -> endsSentence p = true ->
  singleWordSentence d = Ok (true, d).
Proof.
  intros Hne Hpos Hx Hxe Hp Hpe. unfold singleWordSentence. rewrite bind_get.
  pose proof (index_range _ _ _ Hx) as Hr.
  destruct (Z.ltb_spec 0 (i d)); [|lia].
  destruct (Z.ltb_spec (i d) (len (str d))); [|lia]. cbn [andb].
  rewrite (bind_Ok _ _ _ _ _
             (noTrailingSpace_ok _ _ _ Hx (fragment_nonempty _ _ _ Hne Hx))).
  rewrite Hxe.
  rewrite (noTrailingSpace_ok _ _ _ Hp (fragment_nonempty _ _ _ Hne Hp)).
  now rewrite Hpe.
Qed.

Lemma sentenceFrom_single (s : string) : sentenceFrom [s] = [s].
Proof. cbn. now destruct (endsSentence s). Qed.

(** A round of [processText] on a plain sentence, with nothing pending and
    no label at the head of the sentences [DumpNSentences] returns: the
    dispenser is the one [StartOfSentence] left. *)
Lemma processSentence_plain (holders : list string) (d d1 d2 : Dispenser)
    (state : Statement) (sentence : string) (sentences : list string) :
  (forall s st, Permutation (rangeOrder s st) numeralHeaders) ->
  DumpSentence d = Ok (sentence, d1) ->
  plainSentence sentence = true ->
  StartOfSentence d1 = Ok (tt, d2) ->
  DumpNSentences 5 d2 = Ok (sentences, d2) ->
  labelFree (strings.Join sentences " ") = true ->
  exists state',
    processSentence rangeOrder holders d state [] = Ok (d2, state', []).
Proof.
  intros Hperm Hdump Hplain Hstart Hwindow Hfree'. unfold plainSentence in Hplain.
  apply andb_true_iff in Hplain as [Hfree Hother]. unfold noOtherData in Hother.
  apply andb_true_iff in Hother as [Hother Hholder].
  apply andb_true_iff in Hother as [Habn Hdate].
  apply negb_true_iff in Hholder, Hdate, Habn.
  assert (Hsub : forall s st entry,
            In entry (rangeOrder s st) -> In entry numeralHeaders)
    by (intros s st entry; apply Permutation_in, Hperm).
  unfold processSentence. rewrite Hdump. cbn [andThen].
  rewrite (numeralHeader_labelFree _ _ _ (Hsub _ _) Hfree).
  rewrite Hstart. cbn [andThen]. rewrite Hwindow. cbn [andThen].
  rewrite (numeralHeader_labelFree _ _ _ (Hsub _ _) Hfree').
  unfold findOtherData. rewrite Habn, andb_false_r. cbn [andThen].
  rewrite Hdate, Hholder. cbn [orb bindPending andThen].
  eexists. reflexivity.
Qed.

(** [processText] never returns on a document of one fragment that is a
    plain sentence: after [DumpSentence] the cursor is at the end,
    [StartOfSentence] puts it back on the fragment and leaves the sentence
    closed, and the next [NextSentence] opens the same sentence again. *)
Theorem processText_loops_on_one_fragment (fragment : string)
    (holders : list string) (fuel : nat) :
  (forall s st, Permutation (rangeOrder s st) numeralHeaders) ->
  fragment <> EmptyString -> plainSentence fragment = true ->
  labelFree (" " ++ fragment) = true ->
  processText rangeOrder fuel [fragment] holders = Diverge.
Proof.
  intros Hperm Hne Hplain Hfree.
  assert (Hfr : nonEmptyFragments [fragment])
    by (constructor; [exact Hne|constructor]).
  assert (Hdump : DumpSentence
                    {| i := 0; continueNextSentence := true; str := [fragment] |}
                  = Ok (fragment, {| i := 1; continueNextSentence := false;
                                     str := [fragment] |})).
  { rewrite (DumpSentence_open
               {| i := 0; continueNextSentence := true; str := [fragment] |} Hfr)
      by (cbn; auto; lia).
    cbn [i str]. change (fragmentsFrom [fragment] 0) with [fragment].
    rewrite sentenceFrom_single. unfold concatAll. cbn [fold_right].
    now rewrite append_empty_r. }
  assert (Hwindow : DumpNSentences 5 (NewDispenser [fragment])
                    = Ok ([EmptyString; fragment], NewDispenser [fragment])).
  { rewrite DumpNSentences_eq. unfold bind.
    rewrite (DumpSentence_closed (NewDispenser [fragment]) eq_refl).
    change (dumpMore (Z.to_nat (wrap (5 - 1))) [EmptyString]
              (NewDispenser [fragment]))
      with (bind NextSentence
              (fun more => if more
                           then bind DumpSentence
                                  (fun s => dumpMore 3 ([EmptyString] ++ [s]))
                           else ret [EmptyString])
              (NewDispenser [fragment])).
    unfold bind.
    change (NextSentence (NewDispenser [fragment]))
      with (Ok (true, {| i := 0; continueNextSentence := true;
                         str := [fragment] |})).
    cbv iota beta. rewrite Hdump. reflexivity. }
  assert (Hloop : forall state,
            processLoop rangeOrder fuel holders (NewDispenser [fragment]) state []
            = Diverge).
  { induction fuel as [|fuel IH]; intros state; cbn [processLoop].
    - reflexivity.
    - change (NextSentence (NewDispenser [fragment]))
        with (Ok (true, {| i := 0; continueNextSentence := true;
                           str := [fragment] |})).
      cbn [andThen].
      destruct (processSentence_plain holders _ _ (NewDispenser [fragment])
                  state _ _ Hperm Hdump Hplain eq_refl Hwindow Hfree)
        as [state' ->].
      cbn [andThen]. apply IH. }
  unfold processText. now rewrite Hloop.
Qed.

(** [processText] never returns either on a document whose first two
    fragments are plain sentences and whose third fragment has a trailing
    space, when no label stands at the head of the document: after the
    second sentence [StartOfSentence] rewinds to fragment 0, and
    [NextSentence] then opens the second sentence again. *)
Theorem processText_loops_on_second_sentence (a b c : string)
    (rest holders : list string) (fuel : nat) :
  (forall s st, Permutation (rangeOrder s st) numeralHeaders) ->
  nonEmptyFragments (a :: b :: c :: rest) ->
  endsSentence a = true -> endsSentence b = true -> endsSentence c = false ->
  plainSentence a = true -> plainSentence b = true ->
  labelFree (strings.Join (sentencesOf 5 (a :: b :: c :: rest)) " ") = true ->
  processText rangeOrder fuel (a :: b :: c :: rest) holders = Diverge.
Proof.
  intros Hperm Hfr Ha Hb Hc Hpa Hpb Hfree.
  set (F := a :: b :: c :: rest) in *.
  pose proof (len_nonneg rest) as Hrest.
  assert (Hlen : len F = 3 + len rest)
    by (unfold F; rewrite !len_cons; lia).
  set (start := {| i := 0; continueNextSentence := true; str := F |}).
  assert (Hwf : wellFormed start) by (split; [cbn [i str start]; lia|exact Hfr]).
  assert (Hwindow : DumpNSentences 5 start = Ok (sentencesOf 5 F, start)).
  { rewrite (DumpNSentences_open_lists 5 start Hwf eq_refl). reflexivity. }
  assert (Hfirst : DumpSentence start
                   = Ok (a, {| i := 1; continueNextSentence := false; str := F |})).
  { rewrite (DumpSentence_open start Hfr) by (cbn; auto; lia).
    cbn [i str start]. change (fragmentsFrom F 0) with F. unfold F.
    cbn [sentenceFrom]. rewrite Ha. unfold concatAll. cbn [fold_right].
    now rewrite append_empty_r. }
  assert (Hsecond : DumpSentence
                      {| i := 1; continueNextSentence := true; str := F |}
                    = Ok (b, {| i := 2; continueNextSentence := false; str := F |})).
  { rewrite (DumpSentence_open
               {| i := 1; continueNextSentence := true; str := F |} Hfr)
      by (cbn; auto; lia).
    cbn [i str]. change (fragmentsFrom F 1) with (b :: c :: rest).
    cbn [sentenceFrom]. rewrite Hb. unfold concatAll. cbn [fold_right].
    now rewrite append_empty_r. }
  assert (Hne : forall k s, index F k = Some s -> s <> EmptyString)
    by (intros k s; apply fragment_nonempty, Hfr).
  assert (Hback1 : StartOfSentence
                     {| i := 1; continueNextSentence := false; str := F |}
                   = Ok (tt, start)).
  { unfold StartOfSentence. rewrite bind_get.
    rewrite (bind_Ok _ _ _ _ _
               (singleWordSentence_true
                  {| i := 1; continueNextSentence := false; str := F |} b a
                  Hfr ltac:(cbn; lia) eq_refl Hb eq_refl Ha)).
    reflexivity. }
  assert (Hback2 : StartOfSentence
                     {| i := 2; continueNextSentence := false; str := F |}
                   = Ok (tt, start)).
  { unfold StartOfSentence. rewrite bind_get.
    unfold singleWordSentence at 1. unfold bind at 1. rewrite bind_get.
    cbn [i str]. destruct (Z.ltb_spec 2 (len F)); [|lia].
    cbn [Z.ltb Z.compare andb].
    rewrite (bind_Ok _ _ _ _ _
               (noTrailingSpace_ok 2
                  {| i := 2; continueNextSentence := false; str := F |} c
                  eq_refl (Hne 2 c eq_refl))).
    rewrite Hc. unfold ret at 1. cbv iota beta.
    destruct (Z.eqb_spec (len F) 1); [lia|]. cbn [Z.eqb negb].
    rewrite orb_true_r. cbv iota. reflexivity. }
  assert (Hnext : NextSentence start
                  = Ok (true, {| i := 1; continueNextSentence := true; str := F |})).
  { rewrite (NextSentence_spec start Hfr) by (cbn; lia). cbv zeta.
    cbn [i str start continueNextSentence negb].
    change (fragmentsFrom F 0) with F.
    assert (Hsf : sentenceFrom F = [a])
      by (unfold F; cbn [sentenceFrom]; now rewrite Ha).
    rewrite Hsf. change (len [a]) with 1.
    destruct (Z.leb_spec (len F) 0); [lia|].
    destruct (Z.eqb_spec (0 + 1 + 1) (len F)); [lia|].
    destruct (Z.leb_spec (len F) (0 + 1)); [lia|]. reflexivity. }
  assert (Hloop : forall n state,
            processLoop rangeOrder n holders start state [] = Diverge).
  { induction n as [|n IH]; intros state; cbn [processLoop]; rewrite Hnext;
      cbn [andThen]; [reflexivity|].
    destruct (processSentence_plain holders _ _ start state _ _
                Hperm Hsecond Hpb Hback2 Hwindow Hfree) as [state' ->].
    cbn [andThen]. apply IH. }
  unfold processText. destruct fuel as [|fuel]; cbn [processLoop].
  - reflexivity.
  - change (NextSentence (NewDispenser F)) with (Ok (true, start)).
    cbn [andThen].
    destruct (processSentence_plain holders _ _ start zeroStatement _ _
                Hperm Hfirst Hpa Hback1 Hwindow Hfree) as [state' ->].
    cbn [andThen]. now rewrite Hloop.
Qed.

End ExtractionRunFacts.

Section LabelFacts.

Context {L : GoLib}.
Import dispenser statement pdf.

Lemma matchesHeader_true_iff (lowered : string) (h : headerType)
    (phrases : list string) (state : Statement) :
  matchesHeader lowered h phrases state = true
  <-> populated h state = false
      /\ exists phrase, In phrase phrases
                        /\ strings.HasPrefix lowered phrase = true.
Proof.
  induction phrases as [|p phrases IH]; cbn [matchesHeader].
  - split; [discriminate|]. intros (_ & phrase & [] & _).
  - destruct (strings.HasPrefix lowered p) eqn:Hp.
    + destruct (populated h state) eqn:Hpop.
      * rewrite IH. split; [intros [Hf _]; discriminate|intros [Hf _]; discriminate].
      * split; [|reflexivity]. intros _. split; [reflexivity|].
        exists p. split; [now left|exact Hp].
    + rewrite IH. split; intros (Hpop & phrase & Hin & Hpre); (split; [exact Hpop|]);
        exists phrase; (split; [|exact Hpre]).
      * now right.
      * destruct Hin as [->|Hin]; [congruence|exact Hin].
Qed.

Lemma firstHeader_Some (lowered : string)
    (range : list (headerType * list string)) (state : Statement)
    (h : headerType) :
  firstHeader lowered range state = Some h ->
  exists phrases, In (h, phrases) range
                  /\ matchesHeader lowered h phrases state = true.
Proof.
  induction range as [|[h0 p0] range IH]; cbn [firstHeader]; [discriminate|].
  destruct (matchesHeader lowered h0 p0 state) eqn:Hm.
  - intros Heq. injection Heq as <-. exists p0. split; [now left|exact Hm].
  - intros Hrest. destruct (IH Hrest) as (phrases & Hin & Hmatch).
    exists phrases. split; [now right|exact Hmatch].
Qed.

Lemma firstHeader_None (lowered : string)
    (range : list (headerType * list string)) (state : Statement) :
  firstHeader lowered range state = None
  <-> forall h phrases, In (h, phrases) range ->
                        matchesHeader lowered h phrases state = false.
Proof.
  induction range as [|[h0 p0] range IH]; cbn [firstHeader].
  - split; [intros _ h phrases []|reflexivity].
  - destruct (matchesHeader lowered h0 p0 state) eqn:Hm.
    + split; [discriminate|]. intros Hall.
      rewrite (Hall h0 p0) in Hm; [discriminate|now left].
    + rewrite IH. split.
      * intros Hall h phrases [Heq|Hin]; [|now apply Hall].
        injection Heq as <- <-. exact Hm.
      * intros Hall h phrases Hin. apply Hall. now right.
Qed.

(** What [numeralHeader] recognises.  The header it returns is one of the
    table whose field is not populated and one of whose phrases is a prefix
    of the lowered sentence; it returns none exactly when every header with
    such a phrase is populated, in whatever order the table is ranged over.
    Which header it returns does depend on that order: "total amount
    available for reinvestment" is a phrase of [headerOther] and starts with
    "total amount", a phrase of [headerTotalPayment], and either header is
    returned, by the order. *)
Theorem numeralHeader_recognises :
  (forall range s state h,
      numeralHeader range s state = Some h ->
      populated h state = false
      /\ exists phrases phrase,
           In (h, phrases) range /\ In phrase phrases
           /\ strings.HasPrefix (ToLower s) phrase = true)
  /\ (forall range s state,
        numeralHeader range s state = None
        <-> forall h phrases phrase,
              In (h, phrases) range -> In phrase phrases ->
              strings.HasPrefix (ToLower s) phrase = true ->
              populated h state = true)
  /\ (forall range range' s state,
        Permutation range range' ->
        (numeralHeader range s state = None
         <-> numeralHeader range' s state = None))
  /\ (Permutation numeralHeaders (rev numeralHeaders)
      /\ @numeralHeader asciiLib numeralHeaders
           "Total amount available for reinvestment" zeroStatement
         = Some headerTotalPayment
      /\ @numeralHeader asciiLib (rev numeralHeaders)
           "Total amount available for reinvestment" zeroStatement
         = Some headerOther).
Proof.
  assert (Hnone : forall range s state,
    numeralHeader range s state = None
    <-> forall h phrases phrase,
          In (h, phrases) range -> In phrase phrases ->
          strings.HasPrefix (ToLower s) phrase = true ->
          populated h state = true).
  { intros range s state. unfold numeralHeader. rewrite firstHeader_None. split.
    - intros Hall h phrases phrase Hin Hphrase Hpre.
      specialize (Hall h phrases Hin).
      destruct (populated h state) eqn:Hpop; [reflexivity|].
      assert (Hm : matchesHeader (ToLower s) h phrases state = true).
      { apply matchesHeader_true_iff. split; [exact Hpop|]. now exists phrase. }
      congruence.
    - intros Hall h phrases Hin.
      destruct (matchesHeader (ToLower s) h phrases state) eqn:Hm; [|reflexivity].
      apply matchesHeader_true_iff in Hm as (Hpop & phrase & Hphrase & Hpre).
      rewrite (Hall h phrases phrase Hin Hphrase Hpre) in Hpop. discriminate. }
  split; [|split; [exact Hnone|split]].
  - intros range s state h Hfirst. unfold numeralHeader in Hfirst.
    apply firstHeader_Some in Hfirst as (phrases & Hin & Hm).
    apply matchesHeader_true_iff in Hm as (Hpop & phrase & Hphrase & Hpre).
    split; [exact Hpop|]. now exists phrases, phrase.
  - intros range range' s state Hperm. rewrite !Hnone.
    split; intros Hall h phrases phrase Hin; apply Hall.
    + exact (Permutation_in _ (Permutation_sym Hperm) Hin).
    + exact (Permutation_in _ Hperm Hin).
  - split; [apply Permutation_rev|]. split; vm_compute; reflexivity.
Qed.

Lemma keeps_LastSentence : keepsStr LastSentence.
Proof.
  unfold LastSentence.
  apply keeps_bind; [apply keeps_StartOfSentence|intros _].
  apply keeps_bind; [apply keeps_get|intros d0].
  apply keeps_bind; [apply keeps_noTrailingSpace|intros noSpace].
  destruct noSpace; [apply keeps_put_i|].
  apply keeps_bind; [apply keeps_put_i|intros _].
  apply keeps_bind; [apply keeps_get|intros d1].
  destruct (i d1 <=? 0); [apply keeps_put_i|apply keeps_StartOfSentence].
Qed.

(** [findOtherData] changes the statement by its three setters only, and
    never the fragments. *)
Lemma findOtherData_preserves (P : Statement -> Prop) (sentence : string)
    (d d' : Dispenser) (state state' : Statement) :
  (forall st v, P st -> P (setEntity st v)) ->
  (forall st v, P st -> P (setASXCode st v)) ->
  (forall st v, P st -> P (setPaymentDate st v)) ->
  findOtherData sentence d state = Ok (d', state') ->
  P state -> P state' /\ str d' = str d.
Proof.
  intros HE HA HP. unfold findOtherData.
  set (first := if (3 <? _) && _ then _ else _).
  assert (Hfirst : forall d1 st1, first = Ok (d1, st1) ->
                                  P state -> P st1 /\ str d1 = str d).
  { subst first. intros d1 st1. destruct ((3 <? _) && _).
    - destruct (LastSentence d) as [[[] d2]| |] eqn:H2; cbn [andThen];
        try discriminate.
      destruct (DumpSentence d2) as [[sent d3]| |] eqn:H3; cbn [andThen];
        try discriminate.
      destruct (NextSentence d3) as [[b d4]| |] eqn:H4; cbn [andThen];
        try discriminate.
      intros H Hstate. injection H as <- <-. split; [now apply HE|].
      rewrite (keeps_NextSentence _ _ _ H4), (keeps_DumpSentence _ _ _ H3).
      exact (keeps_LastSentence _ _ _ H2).
    - intros H Hstate. injection H as <- <-. now split. }
  destruct first as [[d1 st1]| |]; cbn [andThen]; try discriminate.
  specialize (Hfirst d1 st1 eq_refl).
  set (st2 := if (10 <? _) && _ then _ else _).
  assert (Hst2 : P state -> P st2).
  { subst st2. intros Hstate. destruct ((10 <? _) && _); [apply HA|];
      now apply Hfirst. }
  clearbody st2.
  destruct (strings.Contains _ _ || strings.Contains _ _).
  - destruct (NextSentence d1) as [[b d2]| |] eqn:H2; cbn [andThen];
      try discriminate.
    destruct (DumpSentence d2) as [[sent d3]| |] eqn:H3; cbn [andThen];
      try discriminate.
    destruct (LastSentence d3) as [[[] d4]| |] eqn:H4; cbn [andThen];
      try discriminate.
    intros H Hstate. injection H as <- <-. split.
    + destruct (ParseTime dateLayout sent); [apply HP|]; now apply Hst2.
    + rewrite (keeps_LastSentence _ _ _ H4), (keeps_DumpSentence _ _ _ H3),
        (keeps_NextSentence _ _ _ H2).
      now apply Hfirst.
  - intros H Hstate. injection H as <- <-. split; [now apply Hst2|].
    now apply Hfirst.
Qed.

(** [findOtherData] may set the entity, the ASX code and the payment date,
    and nothing else: the account holders, the six currency amounts and the
    two counts are those of the statement it was given, and the fragments of
    the dispenser are unchanged. *)
Theorem findOtherData_frame (sentence : string) (d d' : Dispenser)
    (state state' : Statement) :
  findOtherData sentence d state = Ok (d', state') ->
  str d' = str d
  /\ AccountHolders state' = AccountHolders state
  /\ amounts state' = amounts state.
Proof.
  intros Hrun.
  assert (Hkeeps : (AccountHolders state' = AccountHolders state
                    /\ amounts state' = amounts state)
                   /\ str d' = str d).
  { apply (findOtherData_preserves
             (fun st => AccountHolders st = AccountHolders state
                        /\ amounts st = amounts state)
             sentence d d' state state');
      try (intros st v Hst; exact Hst); [exact Hrun|now split]. }
  destruct Hkeeps as [[Hholders Hamounts] Hstr]. now repeat split.
Qed.

(** Binding a numeral to a header changes the field of that header and no
    other part of the statement: a currency field gets [NewDollar] of the
    numeral, a count its conversion to an integer, which for a numeral that
    is positive and below 2^63 is its integer part, and [headerOther], which
    has no field, changes nothing. *)
Theorem bindField_one_field (h : headerType) (num : float) (state : Statement) :
  (forall h', h' <> h ->
              fieldOf h' (bindField h num state) = fieldOf h' state)
  /\ fieldOf h (bindField h num state)
     = match fieldOf h state with
       | Some (inl _) => Some (inl (NewDollar num))
       | Some (inr _) => Some (inr (int64_of_float num))
       | None => None
       end
  /\ Entity (bindField h num state) = Entity state
  /\ ASXCode (bindField h num state) = ASXCode state
  /\ AccountHolders (bindField h num state) = AccountHolders state
  /\ PaymentDate (bindField h num state) = PaymentDate state
  /\ (forall m e,
        Prim2SF num = S754_finite false m e -> floatFloor m e < 2 ^ 63 ->
        int64_of_float num = floatFloor m e).
Proof.
  split; [|split; [|repeat split]].
  - intros h' Hneq. destruct h, h'; first [reflexivity|congruence].
  - now destruct h.
  - apply int64_of_float_floor.
Qed.

(** [LastSentence] with the cursor on a sentence of one fragment, the
    fragment before it ending a sentence too: the cursor moves back by
    one. *)
Lemma LastSentence_one_back (d : Dispenser) (x p : string) :
  nonEmptyFragments (str d) -> 0 < i d -> continueNextSentence d = true ->
  index (str d) (i d) = Some x -> endsSentence x = true ->
  index (str d) (i d - 1) = Some p -> endsSentence p = true ->
  LastSentence d = Ok (tt, setI d (i d - 1)).
Proof.
  intros Hne Hpos Hopen Hx Hxe Hp Hpe. unfold LastSentence.
  assert (Hstart : StartOfSentence d = Ok (tt, d)).
  { unfold StartOfSentence. rewrite bind_get.
    rewrite (bind_Ok _ _ _ _ _
               (singleWordSentence_true d x p Hne Hpos Hx Hxe Hp Hpe)).
    now rewrite Hopen. }
  rewrite (bind_Ok _ _ _ _ _ Hstart), bind_get.
  rewrite (bind_Ok _ _ _ _ _
             (noTrailingSpace_ok _ _ _ Hx (fragment_nonempty _ _ _ Hne Hx))).
  now rewrite Hxe.
Qed.

Lemma sentenceFrom_ends (l : list string) (k : Z) (x : string) :
  index l k = Some x -> endsSentence x = true ->
  sentenceFrom (fragmentsFrom l k) = [x].
Proof.
  intros Hx Hxe. rewrite (fragmentsFrom_cons _ _ _ Hx).
  cbn [sentenceFrom]. now rewrite Hxe.
Qed.

(** [findOtherData] in a document whose sentences are single fragments,
    with the cursor on the open sentence it was given.  When the sentence
    starts with "ABN", the entity is the fragment before it; when the
    sentence announces the payment date, the date is read from the fragment
    after it, and kept only if it is a date in the layout.  In both cases
    the dispenser is left as it was. *)
Theorem findOtherData_reads_neighbours (sentence : string) (d : Dispenser)
    (state : Statement) (x : string) :
  wellFormed d -> continueNextSentence d = true -> 0 < i d ->
  index (str d) (i d) = Some x -> endsSentence x = true ->
  (forall p,
      index (str d) (i d - 1) = Some p -> endsSentence p = true ->
      (3 <? Z.of_nat (String.length sentence))
        && String.eqb (substring 0 3 sentence) "ABN" = true ->
      strings.Contains (ToLower sentence) "payment date"
        || strings.Contains (ToLower sentence) "holder reference number" = false ->
      exists state',
        findOtherData sentence d state = Ok (d, state')
        /\ Entity state' = p /\ PaymentDate state' = PaymentDate state)
  /\ (forall date,
        index (str d) (i d + 1) = Some date -> endsSentence date = true ->
        i d + 2 < len (str d) ->
        (3 <? Z.of_nat (String.length sentence))
          && String.eqb (substring 0 3 sentence) "ABN" = false ->
        strings.Contains (ToLower sentence) "payment date"
          || strings.Contains (ToLower sentence) "holder reference number" = true ->
        exists state',
          findOtherData sentence d state = Ok (d, state')
          /\ Entity state' = Entity state
          /\ PaymentDate state'
             = match ParseTime dateLayout date with
               | Some t => t
               | None => PaymentDate state
               end).
Proof.
  intros [[Hlo Hhi] Hne] Hopen Hpos Hx Hxe.
  pose proof (index_range _ _ _ Hx) as Hr.
  assert (Hd : {| i := i d; continueNextSentence := true; str := str d |} = d)
    by (destruct d; cbn in *; now subst).
  split.
  - intros p Hp Hpe Habn Hdate. unfold findOtherData. rewrite Habn, Hdate.
    rewrite (LastSentence_one_back d x p Hne Hpos Hopen Hx Hxe Hp Hpe).
    cbn [andThen].
    rewrite (DumpSentence_open (setI d (i d - 1)) Hne)
      by (cbn [i setI continueNextSentence]; first [lia|exact Hopen]).
    cbn [i str setI andThen].
    rewrite (sentenceFrom_ends _ _ _ Hp Hpe).
    change (len [p]) with 1. replace (i d - 1 + 1) with (i d) by lia.
    unfold NextSentence at 1. rewrite bind_get. cbn [i str continueNextSentence].
    destruct (Z.leb_spec (len (str d)) (i d)); [lia|]. cbn [negb].
    rewrite bind_put_continue. unfold ret, setContinue. cbn [i str andThen].
    rewrite Hd. eexists. split; [reflexivity|].
    unfold concatAll. cbn [fold_right]. rewrite append_empty_r.
    destruct ((10 <? _) && _); now split.
  - intros date Hdt Hdte Hmore Habn Hdate. unfold findOtherData.
    rewrite Habn, Hdate. cbn [andThen].
    rewrite (NextSentence_spec d Hne Hlo). cbv zeta. rewrite Hopen. cbn [negb].
    rewrite (sentenceFrom_ends _ _ _ Hx Hxe). change (len [x]) with 1.
    destruct (Z.leb_spec (len (str d)) (i d)); [lia|].
    destruct (Z.eqb_spec (i d + 1 + 1) (len (str d))); [lia|].
    destruct (Z.leb_spec (len (str d)) (i d + 1)); [lia|].
    cbn [andThen].
    rewrite (DumpSentence_open (setI d (i d + 1)) Hne)
      by (cbn [i setI continueNextSentence]; first [lia|exact Hopen]).
    cbn [i str setI andThen].
    rewrite (sentenceFrom_ends _ _ _ Hdt Hdte). change (len [date]) with 1.
    unfold concatAll. cbn [fold_right]. rewrite append_empty_r.
    replace (i d + 1 + 1) with (i d + 2) by lia.
    assert (Hback : LastSentence
                      {| i := i d + 2; continueNextSentence := false;
                         str := str d |} = Ok (tt, d)).
    { destruct (index_Some (str d) (i d + 2)) as [y Hy]; [lia|].
      pose proof (fragment_nonempty _ _ _ Hne Hy) as Hyne.
      assert (Hstart : StartOfSentence
                         {| i := i d + 2; continueNextSentence := false;
                            str := str d |}
                       = Ok (tt, {| i := i d + 1; continueNextSentence := true;
                                    str := str d |})).
      { unfold StartOfSentence. rewrite bind_get.
        unfold singleWordSentence at 1. unfold bind at 1. rewrite bind_get.
        cbn [i str continueNextSentence].
        destruct (Z.ltb_spec 0 (i d + 2)); [|lia].
        destruct (Z.ltb_spec (i d + 2) (len (str d))); [|lia]. cbn [andb].
        rewrite (bind_Ok _ _ _ _ _
                   (noTrailingSpace_ok (i d + 2)
                      {| i := i d + 2; continueNextSentence := false;
                         str := str d |} y Hy Hyne)).
        destruct (endsSentence y).
        - replace (i d + 2 - 1) with (i d + 1) by lia.
          rewrite (noTrailingSpace_ok (i d + 1)
                     {| i := i d + 2; continueNextSentence := false;
                        str := str d |} date Hdt
                     (fragment_nonempty _ _ _ Hne Hdt)).
          rewrite Hdte. cbn [negb]. rewrite bind_put_i. reflexivity.
        - unfold ret at 1. cbv iota beta.
          destruct (Z.eqb_spec (i d + 2) 0); [lia|].
          destruct (Z.eqb_spec (len (str d)) 1); [lia|].
          cbn [negb]. rewrite orb_true_r. cbv iota.
          rewrite bind_put_i, bind_get. cbn [i setI].
          destruct (Z.ltb_spec (i d + 2 - 2) 0); [lia|].
          rewrite bind_ret, bind_put_continue, bind_get.
          unfold setContinue, setI. cbn [i str continueNextSentence].
          replace (i d + 2 - 2) with (i d) by lia.
          replace (Z.to_nat (i d)) with (S (Z.to_nat (i d - 1))) by lia.
          cbn [rewindToSentenceStart]. rewrite bind_get. cbn [i].
          destruct (Z.ltb_spec 0 (i d)); [|lia].
          rewrite (bind_Ok _ _ _ _ _
                     (noTrailingSpace_ok (i d)
                        {| i := i d; continueNextSentence := true;
                           str := str d |} x Hx
                        (fragment_nonempty _ _ _ Hne Hx))).
          rewrite Hxe. reflexivity. }
      unfold LastSentence. rewrite (bind_Ok _ _ _ _ _ Hstart), bind_get.
      cbn [i].
      rewrite (bind_Ok _ _ _ _ _
                 (noTrailingSpace_ok (i d + 1)
                    {| i := i d + 1; continueNextSentence := true;
                       str := str d |} date Hdt
                    (fragment_nonempty _ _ _ Hne Hdt))).
      rewrite Hdte. unfold put_i, setI. cbn [i str continueNextSentence].
      replace (i d + 1 - 1) with (i d) by lia. now rewrite Hd. }
    rewrite Hback. cbn [andThen]. eexists. split; [reflexivity|].
    destruct ((10 <? _) && _); destruct (ParseTime dateLayout date);
      now split.
Qed.

End LabelFacts.

Section HolderFacts.

Context {L : GoLib}.
Variable rangeOrder :
  string -> statement.Statement -> list (pdf.headerType * list string).
Import dispenser statement pdf.

Lemma fold_holders (text : string) (holders : list string) : forall state,
  AccountHolders
    (fold_left
       (fun st holder =>
          if strings.Contains (ToLower text) (ToLower holder)
          then setAccountHolders st (AccountHolders st ++ [holder])
          else st)
       holders state)
  = (AccountHolders state ++ holdersIn text holders)%list.
Proof.
  unfold holdersIn.
  induction holders as [|holder holders IH]; intros state; cbn [fold_left filter].
  - now rewrite app_nil_r.
  - rewrite IH. destruct (strings.Contains (ToLower text) (ToLower holder)).
    + cbn [AccountHolders setAccountHolders]. now rewrite <- app_assoc.
    + reflexivity.
Qed.

Lemma matchHolders_found (text : string) (holders : list string)
    (state : Statement) :
  AccountHolders (matchHolders text holders state)
  = match AccountHolders state with
    | [] => holdersIn text holders
    | _ :: _ => AccountHolders state
    end.
Proof.
  unfold matchHolders. destruct (AccountHolders state) as [|a rest] eqn:Hacc.
  - cbn [len List.length Z.of_nat Z.eqb]. now rewrite fold_holders, Hacc.
  - destruct (Z.eqb_spec (len (a :: rest)) 0) as [Hlen|_]; [|exact Hacc].
    rewrite len_cons in Hlen. pose proof (len_nonneg rest). lia.
Qed.

Lemma bindPending_holders (sentence : string) (state state' : Statement)
    (tracker tracker' : list headerType) :
  bindPending sentence state tracker = Ok (state', tracker') ->
  AccountHolders state' = AccountHolders state.
Proof.
  intros Hbind. apply bindPending_spec in Hbind
    as [[-> _]|(oldest & k & w & num & _ & _ & _ & _ & _ & ->)]; reflexivity.
Qed.

(** The account holders after one round: those before the round, or, when
    there were none, the holders named in the sentences [DumpNSentences(5)]
    returned in the round.  The round keeps the fragments. *)
Lemma processSentence_holders (holders : list string) (d d' : Dispenser)
    (state state' : Statement) (tracker tracker' : list headerType) :
  processSentence rangeOrder holders d state tracker = Ok (d', state', tracker') ->
  str d' = str d
  /\ (AccountHolders state' = AccountHolders state
      \/ (AccountHolders state = []
          /\ exists window sentences,
               str window = str d
               /\ DumpNSentences 5 window = Ok (sentences, window)
               /\ AccountHolders state'
                  = holdersIn (strings.Join sentences " ") holders)).
Proof.
  unfold processSentence.
  destruct (DumpSentence d) as [[sentence d1]| |] eqn:H1; cbn [andThen];
    try discriminate.
  pose proof (keeps_DumpSentence _ _ _ H1) as K1.
  destruct (numeralHeader (rangeOrder sentence state) sentence state).
  { intros H. injection H as <- <- _. split; [exact K1|now left]. }
  destruct (StartOfSentence d1) as [[[] d2]| |] eqn:H2; cbn [andThen];
    try discriminate.
  pose proof (keeps_StartOfSentence _ _ _ H2) as K2.
  destruct (DumpNSentences 5 d2) as [[sentences d3]| |] eqn:H3; cbn [andThen];
    try discriminate.
  pose proof (DumpNSentences_restores _ _ _ _ H3) as ->.
  set (text := strings.Join sentences " ").
  set (state1 := matchHolders text holders state).
  assert (Hstate1 : AccountHolders state1 = AccountHolders state
                    \/ (AccountHolders state = []
                        /\ AccountHolders state1 = holdersIn text holders)).
  { subst state1. rewrite matchHolders_found.
    destruct (AccountHolders state); [right; now split|now left]. }
  clearbody state1.
  assert (Hgoal : forall st, AccountHolders st = AccountHolders state1 ->
            AccountHolders st = AccountHolders state
            \/ (AccountHolders state = []
                /\ exists window sentences,
                     str window = str d
                     /\ DumpNSentences 5 window = Ok (sentences, window)
                     /\ AccountHolders st
                        = holdersIn (strings.Join sentences " ") holders)).
  { intros st ->. destruct Hstate1 as [Hsame|[Hnone Hfound]];
      [now left|right]. split; [exact Hnone|].
    exists d2, sentences. split; [congruence|]. now split. }
  destruct (numeralHeader (rangeOrder text state1) text state1).
  { intros H. injection H as <- <- _. split; [congruence|now apply Hgoal]. }
  destruct (findOtherData sentence d2 state1) as [[d4 state2]| |] eqn:Hother;
    cbn [andThen]; try discriminate.
  destruct (bindPending sentence state2 tracker) as [[state3 tracker3]| |] eqn:Hbind;
    cbn [andThen]; try discriminate.
  intros H. injection H as <- <- _.
  destruct (findOtherData_preserves
              (fun st => AccountHolders st = AccountHolders state1)
              sentence d2 d4 state1 state2) as [Hkeep K4];
    try (intros st v Hst; exact Hst); [exact Hother|reflexivity|].
  split; [congruence|]. apply Hgoal.
  now rewrite (bindPending_holders _ _ _ _ _ Hbind).
Qed.

(** The account holders [processText] reports are found at one place of the
    document: they are the holders of the list whose name, in lower case,
    occurs in the sentences [DumpNSentences(5)] returns at one position of
    the cursor, joined by spaces and lowered, in the order of the list.
    Every holder reported is thus one of the list, and holders named more
    than five sentences apart are not reported together. *)
Theorem processText_holders (fuel : nat) (fragments holders : list string)
    (state : Statement) :
  processText rangeOrder fuel fragments holders = Ok state ->
  (AccountHolders state = []
   \/ exists window sentences,
        str window = fragments
        /\ DumpNSentences 5 window = Ok (sentences, window)
        /\ AccountHolders state
           = holdersIn (strings.Join sentences " ") holders)
  /\ incl (AccountHolders state) holders.
Proof.
  intros Hrun.
  set (found := fun st : Statement =>
    AccountHolders st = []
    \/ exists window sentences,
         str window = fragments
         /\ DumpNSentences 5 window = Ok (sentences, window)
         /\ AccountHolders st = holdersIn (strings.Join sentences " ") holders).
  assert (Hloop : forall d st tracker d' st' tracker',
    processLoop rangeOrder fuel holders d st tracker = Ok (d', st', tracker') ->
    str d = fragments -> found st -> found st').
  { clear Hrun. induction fuel as [|fuel IH];
      intros d st tracker d' st' tracker'; cbn [processLoop];
      destruct (NextSentence d) as [[[] d1]| |] eqn:Hnext; cbn [andThen];
      try discriminate;
      try (intros H _ Hinv; injection H as _ <- _; exact Hinv).
    destruct (processSentence rangeOrder holders d1 st tracker)
      as [[[d2 st2] tracker2]| |] eqn:Hround; cbn [andThen]; try discriminate.
    intros Hrest Hstr Hinv.
    pose proof (keeps_NextSentence _ _ _ Hnext) as K1.
    destruct (processSentence_holders _ _ _ _ _ _ _ Hround) as [K2 Hholders].
    apply (IH _ _ _ _ _ _ Hrest); [congruence|].
    destruct Hholders as [Hsame|[_ (window & sentences & Hw & Hdump & Hfound)]].
    - unfold found in *. now rewrite Hsame.
    - right. exists window, sentences. split; [congruence|]. now split. }
  unfold processText in Hrun.
  destruct (processLoop rangeOrder fuel holders (NewDispenser fragments)
              zeroStatement []) as [[[d' st'] tracker']| |] eqn:Hl;
    cbn [andThen] in Hrun; try discriminate.
  injection Hrun as <-.
  assert (Hinv := Hloop _ _ _ _ _ _ Hl eq_refl (or_introl eq_refl)).
  split; [exact Hinv|].
  destruct Hinv as [->|(window & sentences & _ & _ & ->)]; [intros x []|].
  intros x Hx. unfold holdersIn in Hx. apply filter_In in Hx. tauto.
Qed.

End HolderFacts.

(** ** The operator interpreter beside the claims *)

Lemma prefix_refl (s : string) : String.prefix s s = true.
Proof.
  induction s as [|c s IH]; [reflexivity|]. cbn [String.prefix].
  destruct (ascii_dec c c); [exact IH|congruence].
Qed.

Lemma prefix_append (s t : string) : String.prefix s (s ++ t) = true.
Proof.
  induction s as [|c s IH]; [now destruct t|]. cbn [String.prefix String.append].
  destruct (ascii_dec c c); [exact IH|congruence].
Qed.

Lemma prefix_trans (s t u : string) :
  String.prefix s t = true -> String.prefix t u = true ->
  String.prefix s u = true.
Proof.
  revert t u. induction s as [|c s IH]; intros t u; [now destruct u|].
  destruct t as [|ct t]; [discriminate|]. destruct u as [|cu u]; [discriminate|].
  cbn [String.prefix].
  destruct (ascii_dec c ct) as [->|]; [|discriminate].
  destruct (ascii_dec ct cu) as [->|]; [|discriminate].
  destruct (ascii_dec cu cu); [apply IH|congruence].
Qed.

Lemma grows_refl (l : list string) : grows l l.
Proof.
  split; [lia|]. intros k s Hk. exists s. split; [exact Hk|apply prefix_refl].
Qed.

Lemma grows_trans (l m n : list string) : grows l m -> grows m n -> grows l n.
Proof.
  intros [Hlen1 H1] [Hlen2 H2]. split; [lia|].
  intros k s Hk. destruct (H1 k s Hk) as (s' & Hk' & Hp).
  destruct (H2 k s' Hk') as (s'' & Hk'' & Hp').
  exists s''. split; [exact Hk''|]. exact (prefix_trans _ _ _ Hp Hp').
Qed.

Lemma grows_append (l : list string) (s : string) : grows l (l ++ [s]).
Proof.
  split; [rewrite length_app; lia|].
  intros k x Hk. exists x. split; [|apply prefix_refl].
  rewrite nth_error_app1; [exact Hk|]. apply nth_error_Some. congruence.
Qed.

Section TrackerFacts.

Variable ForcedArray : string -> list string.
Variable Decode : string -> string -> string.
Import pdf.

Lemma appendToLast_cons (a b : string) (l : list string) :
  appendToLast (a :: b :: l) = a :: appendToLast (b :: l).
Proof. reflexivity. Qed.

Lemma grows_appendToLast (l : list string) : grows l (appendToLast l).
Proof.
  induction l as [|a l IH].
  - split; [cbn; lia|]. intros [|k] s; discriminate.
  - destruct l as [|b l].
    + split; [cbn; lia|]. intros [|k] s Hk.
      * injection Hk as <-. eexists. split; [reflexivity|apply prefix_append].
      * destruct k; discriminate.
    + rewrite appendToLast_cons. destruct IH as [Hlen IH]. split; [cbn in *; lia|].
      intros [|k] s Hk.
      * injection Hk as <-. exists a. split; [reflexivity|apply prefix_refl].
      * exact (IH k s Hk).
Qed.

Lemma writeElement_frame (t t' : textTracker) (e : string) :
  writeElement Decode t e = Ok t' ->
  grows (text t) (text t') /\ font t' = font t /\ stack t' = stack t.
Proof.
  unfold writeElement. destruct e as [|c rest]; [discriminate|].
  destruct (Ascii.eqb c "(" || Ascii.eqb c "<").
  - destruct (String.eqb _ " " && (0 <? len (text t)));
      intros H; injection H as <-; cbn [text font stack setText];
      (split; [|now split]).
    + apply grows_appendToLast.
    + apply grows_append.
  - intros H. injection H as <-. split; [apply grows_refl|now split].
Qed.

Lemma writeElements_frame (tx : list string) : forall t t',
  writeElements Decode t tx = Ok t' ->
  grows (text t) (text t') /\ font t' = font t /\ stack t' = stack t.
Proof.
  induction tx as [|e tx IH]; intros t t'; cbn [writeElements].
  - intros H. injection H as <-. split; [apply grows_refl|now split].
  - destruct (writeElement Decode t e) as [t1| |] eqn:H1; try discriminate.
    intros Hrest. apply writeElement_frame in H1 as (G1 & F1 & S1).
    apply IH in Hrest as (G2 & F2 & S2).
    split; [exact (grows_trans _ _ _ G1 G2)|]. split; congruence.
Qed.

Lemma drop_inv (t t' : textTracker) (num : nat) (operands : list string) :
  drop t num = Ok (operands, t') ->
  stack t = (stack t' ++ operands)%list /\ List.length operands = num
  /\ text t' = text t /\ font t' = font t.
Proof.
  unfold drop. destruct (Nat.ltb_spec (List.length (stack t)) num) as [|Hle];
    [discriminate|].
  intros H. injection H as <- <-. cbn [stack text font setStack].
  split; [symmetry; apply firstn_skipn|]. split; [|now split].
  rewrite length_skipn. lia.
Qed.

Lemma dropOnly_inv (t t' : textTracker) (num : nat) :
  dropOnly t num = Ok t' ->
  exists operands,
    stack t = (stack t' ++ operands)%list /\ List.length operands = num
    /\ text t' = text t /\ font t' = font t.
Proof.
  unfold dropOnly. destruct (drop t num) as [[operands t1]| |] eqn:Hdrop;
    try discriminate.
  intros H. injection H as <-. exists operands. exact (drop_inv _ _ _ _ Hdrop).
Qed.

Lemma isOneOf_single (token name : string) :
  isOneOf token [name] = true -> token = name.
Proof.
  unfold isOneOf. cbn [existsb]. rewrite orb_false_r. apply String.eqb_eq.
Qed.

Ltac head_case tok H :=
  match goal with
  | |- (if isOneOf tok ?names then _ else _) = _ -> _ =>
      destruct (isOneOf tok names) eqn:H
  end.

Lemma processToken_effect (t t' : textTracker) (token : string) :
  processToken ForcedArray Decode t token = Ok t' ->
  ((stack t' = (stack t ++ [token])%list
    /\ text t' = text t /\ font t' = font t)
   \/ exists operands,
        stack t = (stack t' ++ operands)%list
        /\ (List.length operands <= 6)%nat
        /\ (font t' <> font t ->
            token = "Tf" /\ nth_error operands 0 = Some (font t')))
  /\ (showsText token = false -> text t' = text t)
  /\ grows (text t) (text t')
  /\ (text t' = text t
      \/ exists t1 a,
           text t1 = text t /\ font t1 = font t /\ In a (stack t)
           /\ write ForcedArray Decode t1 a = Ok t').
Proof.
  assert (Hshows : showsText token
                   = isOneOf token ["'"; "TJ"; "Tj"]
                     || isOneOf token [String (ascii_of_nat 34) EmptyString]).
  { unfold showsText, isOneOf.
    exact (existsb_app _ ["'"; "TJ"; "Tj"] [String (ascii_of_nat 34) EmptyString]). }
  unfold processToken.
  assert (Hplain : forall num, (num <= 6)%nat -> dropOnly t num = Ok t' ->
    ((stack t' = (stack t ++ [token])%list
      /\ text t' = text t /\ font t' = font t)
     \/ exists operands,
          stack t = (stack t' ++ operands)%list
          /\ (List.length operands <= 6)%nat
          /\ (font t' <> font t ->
              token = "Tf" /\ nth_error operands 0 = Some (font t')))
    /\ text t' = text t).
  { intros num Hnum Hdrop.
    apply dropOnly_inv in Hdrop as (operands & Hstack & Hlen & Htext & Hfont).
    split; [right|exact Htext]. exists operands.
    split; [exact Hstack|]. split; [lia|]. intros Hneq. congruence. }
  assert (Hwrite : forall num operands t1 a,
    (num <= 6)%nat -> drop t num = Ok (operands, t1) ->
    write ForcedArray Decode t1 a = Ok t' ->
    ((stack t' = (stack t ++ [token])%list
      /\ text t' = text t /\ font t' = font t)
     \/ exists operands,
          stack t = (stack t' ++ operands)%list
          /\ (List.length operands <= 6)%nat
          /\ (font t' <> font t ->
              token = "Tf" /\ nth_error operands 0 = Some (font t')))
    /\ grows (text t) (text t')).
  { intros num operands t1 a Hnum Hdrop Hw.
    apply drop_inv in Hdrop as (Hstack & Hlen & Htext & Hfont).
    apply writeElements_frame in Hw as (G & F & S).
    split; [right|now rewrite <- Htext]. exists operands.
    split; [congruence|]. split; [lia|]. intros Hneq. congruence. }
  assert (Hsame : text t' = text t -> grows (text t) (text t'))
    by (intros ->; apply grows_refl).
  head_case token H0.
  { intros H. injection H as <-.
    split; [|split; [reflexivity|split; [apply grows_refl|now left]]].
    right. exists []. rewrite app_nil_r. split; [reflexivity|].
    split; [cbn; lia|]. congruence. }
  head_case token H1.
  { intros H. destruct (Hplain 1%nat) as [Ha Hb]; [lia|exact H|].
    split; [exact Ha|split; [intros _; exact Hb|]].
    split; [exact (Hsame Hb)|now left]. }
  head_case token H2.
  { intros H. destruct (Hplain 2%nat) as [Ha Hb]; [lia|exact H|].
    split; [exact Ha|split; [intros _; exact Hb|]].
    split; [exact (Hsame Hb)|now left]. }
  head_case token H3.
  { intros H. destruct (Hplain 3%nat) as [Ha Hb]; [lia|exact H|].
    split; [exact Ha|split; [intros _; exact Hb|]].
    split; [exact (Hsame Hb)|now left]. }
  head_case token H4.
  { intros H. destruct (Hplain 4%nat) as [Ha Hb]; [lia|exact H|].
    split; [exact Ha|split; [intros _; exact Hb|]].
    split; [exact (Hsame Hb)|now left]. }
  head_case token H6.
  { intros H. destruct (Hplain 6%nat) as [Ha Hb]; [lia|exact H|].
    split; [exact Ha|split; [intros _; exact Hb|]].
    split; [exact (Hsame Hb)|now left]. }
  head_case token Hf.
  { apply isOneOf_single in Hf.
    destruct (drop t 2) as [[operands t1]| |] eqn:Hdrop; try discriminate.
    destruct (nth_error operands 0) as [f|] eqn:Hop; try discriminate.
    intros H. injection H as <-.
    apply drop_inv in Hdrop as (Hstack & Hlen & Htext & Hfont).
    cbn [stack text font setFont].
    split; [|split; [intros _; exact Htext|split; [now apply Hsame|now left]]].
    right. exists operands. split; [exact Hstack|]. split; [lia|].
    intros _. now split. }
  head_case token Hs.
  { destruct (drop t 1) as [[operands t1]| |] eqn:Hdrop; try discriminate.
    destruct (nth_error operands 0) as [a|] eqn:Hop; try discriminate.
    intros H. destruct (Hwrite 1%nat operands t1 a) as [Ha Hb]; [lia|exact Hdrop|exact H|].
    split; [exact Ha|]. split; [|split; [exact Hb|right]].
    2:{ exists t1, a.
        destruct (drop_inv _ _ _ _ Hdrop) as (Hstack & _ & Htext & Hfont).
        split; [exact Htext|]. split; [exact Hfont|]. split; [|exact H].
        rewrite Hstack. apply in_or_app. right. exact (nth_error_In _ _ Hop). }
    rewrite Hshows. try rewrite Hs. discriminate. }
  head_case token Hq.
  { destruct (drop t 3) as [[operands t1]| |] eqn:Hdrop; try discriminate.
    destruct (nth_error operands 2) as [a|] eqn:Hop; try discriminate.
    intros H. destruct (Hwrite 3%nat operands t1 a) as [Ha Hb]; [lia|exact Hdrop|exact H|].
    split; [exact Ha|]. split; [|split; [exact Hb|right]].
    2:{ exists t1, a.
        destruct (drop_inv _ _ _ _ Hdrop) as (Hstack & _ & Htext & Hfont).
        split; [exact Htext|]. split; [exact Hfont|]. split; [|exact H].
        rewrite Hstack. apply in_or_app. right. exact (nth_error_In _ _ Hop). }
    rewrite Hshows. try rewrite Hs. try rewrite Hq.
    rewrite ?orb_true_r. discriminate. }
  intros H. injection H as <-. cbn [stack text font push setStack].
  split; [left; now repeat split|].
  split; [reflexivity|split; [apply grows_refl|now left]].
Qed.

Lemma drop_short (t : textTracker) (num : nat) :
  (List.length (stack t) < num)%nat -> drop t num = Panic.
Proof.
  intros Hshort. unfold drop.
  destruct (Nat.ltb_spec (List.length (stack t)) num); [reflexivity|lia].
Qed.

Lemma setStack_same (t : textTracker) (below : list string) :
  stack t = below -> setStack t below = t.
Proof. intros <-. now destruct t. Qed.

Ltac operator_body :=
  unfold processToken, dropOnly, showsText;
  change (ascii_of_nat 34) with (Ascii false true false false false true false false);
  cbn [isOneOf existsb String.eqb Ascii.eqb Bool.eqb orb].

Ltac operator_case t :=
  split;
  [ intros Hshort; operator_body;
    first [ exfalso; cbn in Hshort; lia
          | rewrite (drop_short t _ Hshort); reflexivity ]
  | intros below operands Hstack Hlen;
    pose proof (drop_top t below operands Hstack) as Hdrop;
    rewrite Hlen in Hdrop; operator_body; try rewrite Hdrop;
    destruct operands as [|o1 [|o2 [|o3 [|o4 [|o5 [|o6 [|o7 operands]]]]]]];
    try discriminate Hlen;
    first [ reflexivity
          | rewrite app_nil_r in Hstack;
            now rewrite (setStack_same t below Hstack) ] ].

(** What one token does to the tracker.  A token that is no operator is
    pushed on the operand stack, and nothing else changes.  An operator
    takes the number of operands the table gives it from the top of the
    stack, and panics when the stack holds fewer: [Tf] makes the first of
    its two operands the font, a text-showing operator writes the last of
    its operands, and any other operator does nothing more. *)
Theorem processToken_operands (t : textTracker) (token : string) :
  match operandCount token with
  | None => processToken ForcedArray Decode t token = Ok (push t token)
  | Some n =>
      ((List.length (stack t) < n)%nat ->
       processToken ForcedArray Decode t token = Panic)
      /\ (forall below operands,
            stack t = (below ++ operands)%list -> List.length operands = n ->
            processToken ForcedArray Decode t token
            = if String.eqb token "Tf"
              then Ok (setFont (setStack t below) (hd EmptyString operands))
              else if showsText token
              then write ForcedArray Decode (setStack t below)
                         (last operands EmptyString)
              else Ok (setStack t below))
  end.
Proof.
  unfold operandCount.
  destruct (find _ operatorTable) as [[name n]|] eqn:Hfind; cbn [option_map snd].
  - apply find_some in Hfind as [Hin Heq]. cbn [fst] in Heq.
    apply String.eqb_eq in Heq. subst name. cbn [operatorTable In] in Hin.
    repeat (destruct Hin as [Hin|Hin];
            [injection Hin as Htoken Hn; subst token n; operator_case t|]).
    contradiction.
  - assert (Hno : forall names,
              (forall name, In name names ->
                            exists n, In (name, n) operatorTable) ->
              isOneOf token names = false).
    { intros names Hall. unfold isOneOf.
      destruct (existsb (String.eqb token) names) eqn:Hex; [|reflexivity].
      apply existsb_exists in Hex as (name & Hin & Heq).
      destruct (Hall name Hin) as [n Htable].
      pose proof (find_none _ _ Hfind (name, n) Htable) as Hneq.
      cbn [fst] in Hneq. congruence. }
    unfold processToken.
    rewrite !Hno; [reflexivity|..];
      intros name Hname; cbn [In] in Hname;
      repeat (destruct Hname as [<-|Hname];
              [eexists; cbn [In operatorTable];
               repeat first [left; reflexivity|right]|]);
      contradiction.
Qed.

(** The fragment list only grows while a page is interpreted: no operator
    removes or reorders a fragment, and what a position of the list holds
    is only ever extended at its end. *)
Theorem process_text_grows (tokens : list string) (t t' : textTracker) :
  process ForcedArray Decode t tokens = Ok t' ->
  grows (text t) (text t').
Proof.
  revert t. induction tokens as [|token tokens IH]; intros t; cbn [process].
  - intros H. injection H as <-. apply grows_refl.
  - destruct token as [|c rest].
    + intros H. injection H as <-. apply grows_refl.
    + destruct (processToken ForcedArray Decode t (String c rest))
        as [t1| |] eqn:H1; try discriminate.
      intros Hrest. apply processToken_effect in H1 as (_ & _ & H1 & _).
      exact (grows_trans _ _ _ H1 (IH _ Hrest)).
Qed.

Lemma nonEmpty_removelast (l : list string) :
  nonEmptyFragments l -> nonEmptyFragments (removelast l).
Proof.
  induction 1 as [|s l Hs Hl IH]; [constructor|].
  destruct l; [constructor|]. cbn [removelast]. now constructor.
Qed.

Lemma nonEmpty_appendToLast (l : list string) :
  nonEmptyFragments l -> nonEmptyFragments (appendToLast l).
Proof.
  intros Hl. unfold appendToLast. apply Forall_app. split.
  - now apply nonEmpty_removelast.
  - constructor; [|constructor]. now destruct (last l EmptyString).
Qed.

Lemma writeElements_nonEmpty (tx : list string) : forall t t',
  (forall e, In e tx -> isStringOperand e = true ->
             Decode (font t) e <> EmptyString) ->
  nonEmptyFragments (text t) ->
  writeElements Decode t tx = Ok t' -> nonEmptyFragments (text t').
Proof.
  induction tx as [|e tx IH]; intros t t' Hdec Hne; cbn [writeElements].
  - intros H. now injection H as <-.
  - destruct (writeElement Decode t e) as [t1| |] eqn:H1; try discriminate.
    pose proof (writeElement_frame _ _ _ H1) as (_ & Hfont & _).
    apply IH.
    { intros e' He'. rewrite Hfont. apply Hdec. now right. }
    unfold writeElement in H1.
    destruct e as [|c rest]; [discriminate|].
    destruct (Ascii.eqb c "(" || Ascii.eqb c "<") eqn:Hc.
    + destruct (String.eqb _ " " && (0 <? len (text t)));
        injection H1 as <-; cbn [text setText].
      * now apply nonEmpty_appendToLast.
      * apply Forall_app. split; [exact Hne|].
        constructor; [|constructor]. apply Hdec; [now left|exact Hc].
    + now injection H1 as <-.
Qed.

(** The operands and the fonts of the part of a page that is still to be
    interpreted come from the operand stack and from the tokens left. *)
Lemma processToken_pool (t t' : textTracker) (token : string) :
  processToken ForcedArray Decode t token = Ok t' ->
  incl (stack t') (stack t ++ [token])
  /\ In (font t') (font t :: stack t).
Proof.
  intros H. apply processToken_effect in H as (Hstack & _).
  destruct Hstack as [(Hs & _ & Hf)|(operands & Hs & _ & Hf)].
  - split; [rewrite Hs; apply incl_refl|left; now rewrite Hf].
  - split.
    + rewrite Hs. intros x Hx. apply in_or_app. left. apply in_or_app. now left.
    + destruct (string_dec (font t') (font t)) as [->|Hneq]; [now left|].
      right. destruct (Hf Hneq) as [_ Hop]. rewrite Hs.
      apply in_or_app. right. exact (nth_error_In _ _ Hop).
Qed.

(** When no string of the page's operands decodes to the empty text under
    a font of the page, every fragment the interpreter writes has a last
    byte: the fragments of the page are then all non-empty, and the
    dispenser [processText] creates over them is well formed.  The
    condition speaks of the operands the page holds (those on the stack and
    those still to be read), of the elements of their arrays that are
    strings, and of the fonts the page can select (the present one and the
    operands).  An operand that does decode to the empty text is written as
    an empty fragment. *)
Theorem process_nonEmptyFragments (tokens : list string) (t t' : textTracker) :
  ((forall f a e,
      In f (font t :: stack t ++ tokens) -> In a (stack t ++ tokens) ->
      In e (ForcedArray a) -> isStringOperand e = true ->
      Decode f e <> EmptyString) ->
   nonEmptyFragments (text t) ->
   process ForcedArray Decode t tokens = Ok t' ->
   nonEmptyFragments (text t')
   /\ wellFormed (dispenser.NewDispenser (text t')))
  /\ (forall t0 rest,
        Decode (font t0) (String "(" rest) = EmptyString ->
        writeElement Decode t0 (String "(" rest)
          = Ok (setText t0 (text t0 ++ [EmptyString]))).
Proof.
  split.
  2:{ intros t0 rest Hempty. unfold writeElement. cbn [Ascii.eqb orb].
      rewrite Hempty. reflexivity. }
  intros Hdec Hne Hrun.
  assert (Hall : nonEmptyFragments (text t')).
  { revert t Hdec Hne Hrun.
    induction tokens as [|token tokens IH]; intros t Hdec Hne; cbn [process].
    - intros H. now injection H as <-.
    - destruct token as [|c rest].
      + intros H. now injection H as <-.
      + destruct (processToken ForcedArray Decode t (String c rest))
          as [t1| |] eqn:H1; try discriminate.
        pose proof (processToken_pool _ _ _ H1) as [Hstack Hfont].
        assert (Hpool : incl (stack t1 ++ tokens)
                             (stack t ++ String c rest :: tokens)).
        { intros x Hx. apply in_app_or in Hx as [Hx|Hx].
          - apply Hstack in Hx. apply in_app_or in Hx as [Hx|[<-|[]]];
              apply in_or_app; [now left|right; now left].
          - apply in_or_app. right. now right. }
        apply IH.
        * intros f a e Hf Ha. apply (Hdec f a e); [|now apply Hpool].
          destruct Hf as [<-|Hf].
          -- destruct Hfont as [Hfont|Hfont]; [now left|].
             right. apply in_or_app. now left.
          -- right. now apply Hpool.
        * apply processToken_effect in H1
            as (_ & _ & _ & [Hsame|(t2 & a & Htext & Hfont2 & Ha & Hw)]).
          -- now rewrite Hsame.
          -- apply (writeElements_nonEmpty (ForcedArray a) t2 t1);
               [|now rewrite Htext|exact Hw].
             intros e He Hstr. rewrite Hfont2.
             apply (Hdec (font t) a e); [now left| |exact He|exact Hstr].
             apply in_or_app. now left. }
  split; [exact Hall|now apply wellFormed_NewDispenser].
Qed.

Lemma writeElements_skips (tx : list string) : forall t,
  Forall (fun e => e <> EmptyString) tx ->
  writeElements Decode t tx = writeElements Decode t (filter isStringOperand tx).
Proof.
  induction tx as [|e tx IH]; intros t Hall; [reflexivity|].
  inversion Hall as [|? ? He Hrest]; subst.
  destruct e as [|c rest]; [congruence|].
  cbn [filter isStringOperand writeElements]. unfold writeElement at 1.
  destruct (Ascii.eqb c "(" || Ascii.eqb c "<") eqn:Hc.
  - cbn [writeElements]. unfold writeElement. rewrite Hc.
    destruct (String.eqb _ " " && (0 <? len (text t))); now apply IH.
  - now apply IH.
Qed.

Lemma writeElements_appends (tx : list string) : forall t,
  Forall (fun e => isStringOperand e = true
                   /\ Decode (font t) e <> " "%string) tx ->
  writeElements Decode t tx
    = Ok (setText t (text t ++ map (Decode (font t)) tx)).
Proof.
  induction tx as [|e tx IH]; intros t Hall; cbn [writeElements map].
  - rewrite app_nil_r. now destruct t.
  - inversion Hall as [|? ? [He Hdec] Hrest]; subst.
    unfold writeElement. destruct e as [|c rest]; [discriminate|].
    cbn [isStringOperand] in He. rewrite He.
    destruct (String.eqb_spec (Decode (font t) (String c rest)) " ");
      [contradiction|]. cbn [andb].
    rewrite IH by exact Hrest. cbn [text font setText].
    now rewrite <- app_assoc.
Qed.

(** [write] shows the strings of its array and nothing else: the elements
    that are no strings (the position adjustments of [TJ]) are skipped, so
    that the pieces of a word set with adjustments become fragments of their
    own.  When no string decodes to a single space, the decoded strings are
    appended to the fragments one by one, in their order.  An empty element
    makes [write] panic. *)
Theorem write_shows_strings_only (t : textTracker) (tx : list string) :
  Forall (fun e => e <> EmptyString) tx ->
  writeElements Decode t tx = writeElements Decode t (filter isStringOperand tx)
  /\ (Forall (fun e => Decode (font t) e <> " "%string)
             (filter isStringOperand tx) ->
      writeElements Decode t tx
        = Ok (setText t (text t
                         ++ map (Decode (font t)) (filter isStringOperand tx))))
  /\ writeElement Decode t EmptyString = Panic.
Proof.
  intros Hall. split; [now apply writeElements_skips|]. split; [|reflexivity].
  intros Hdec. rewrite (writeElements_skips tx t Hall).
  apply writeElements_appends. apply Forall_forall. intros e He.
  rewrite Forall_forall in Hdec. split; [|now apply Hdec].
  now apply filter_In in He.
Qed.

End TrackerFacts.

(** ** Header names, holders and amounts *)

(** The names [String] gives the nine headers are pairwise different, and
    none of them is "Unknown", the name of a value that is no header. *)
Theorem headerType_String_injective (h h' : pdf.headerType) :
  (headerType_String h = headerType_String h' -> h = h')
  /\ headerType_String h <> "Unknown".
Proof.
  split; [|destruct h; discriminate].
  destruct h, h'; cbn; intros Heq; first [reflexivity|discriminate Heq].
Qed.

Lemma Split_no_separator (sep : ascii) (s : string) :
  hasByte sep s = false -> strings.Split s sep = [s].
Proof.
  induction s as [|c s IH]; [reflexivity|]. cbn [hasByte strings.Split].
  intros Hno. apply orb_false_iff in Hno as [Hc Hrest].
  rewrite Hc, (IH Hrest). reflexivity.
Qed.

Lemma Split_append (sep : ascii) (s rest : string) :
  hasByte sep s = false ->
  strings.Split (s ++ String sep rest) sep = s :: strings.Split rest sep.
Proof.
  induction s as [|c s IH]; cbn [hasByte String.append strings.Split].
  - intros _. now rewrite Ascii.eqb_refl.
  - intros Hno. apply orb_false_iff in Hno as [Hc Hrest].
    rewrite Hc, (IH Hrest). reflexivity.
Qed.

(** Splitting what [Join] put together gives the parts back, when no part
    holds the separator. *)
Lemma Split_Join (sep : ascii) (parts : list string) :
  parts <> [] ->
  Forall (fun part => hasByte sep part = false) parts ->
  strings.Split (strings.Join parts (String sep EmptyString)) sep = parts.
Proof.
  induction parts as [|p parts IH]; [congruence|]. intros _ Hall.
  inversion Hall as [|? ? Hp Hrest]; subst.
  destruct parts as [|q parts].
  - cbn [strings.Join]. now apply Split_no_separator.
  - change (strings.Join (p :: q :: parts) (String sep EmptyString))
      with (p ++ String sep (strings.Join (q :: parts) (String sep EmptyString)))%string.
    rewrite (Split_append _ _ _ Hp). f_equal. apply IH; [discriminate|exact Hrest].
Qed.

Lemma append_Join_newline (parts : list string) (sep : string) :
  parts <> [] ->
  (strings.Join parts sep ++ sep)%string
  = strings.Join (parts ++ [EmptyString]) sep.
Proof.
  induction parts as [|p parts IH]; [congruence|]. intros _.
  destruct parts as [|q parts].
  - cbn. now rewrite append_empty_r.
  - change (strings.Join (p :: q :: parts) sep)
      with (p ++ sep ++ strings.Join (q :: parts) sep)%string.
    change ((p :: q :: parts) ++ [EmptyString])%list
      with (p :: q :: (parts ++ [EmptyString]))%list.
    change (strings.Join (p :: q :: (parts ++ [EmptyString])%list) sep)
      with (p ++ sep ++ strings.Join ((q :: parts) ++ [EmptyString])%list sep)%string.
    rewrite <- IH by discriminate. now rewrite !append_assoc.
Qed.

(** The holders [main] reads from a file of names, one on each line, are
    those names, in their order, whether or not the last line ends with a
    newline.  A blank line between two names is read as a holder with the
    empty name. *)
Theorem readHolders_lines (names : list string) :
  names <> [] ->
  Forall (fun name => hasByte newline name = false) names ->
  last names EmptyString <> EmptyString ->
  readHolders (strings.Join names (String newline EmptyString)) = names
  /\ readHolders (strings.Join names (String newline EmptyString)
                  ++ String newline EmptyString) = names.
Proof.
  intros Hne Hall Hlast. unfold readHolders. split.
  - rewrite (Split_Join newline names Hne Hall).
    destruct (String.eqb_spec (last names EmptyString) EmptyString);
      [contradiction|reflexivity].
  - rewrite (append_Join_newline names _ Hne).
    rewrite (Split_Join newline).
    + rewrite last_last, removelast_last. reflexivity.
    + now destruct names.
    + apply Forall_app. split; [exact Hall|]. now constructor.
Qed.

Section AmountFacts.

Import statement.

Lemma allFrom_sound (f : Z -> bool) (count : nat) : forall start,
  allFrom f count start = true ->
  forall c, start <= c < start + Z.of_nat count -> f c = true.
Proof.
  induction count as [|count IH]; intros start; cbn [allFrom]; [lia|].
  intros Hall c Hc. apply andb_true_iff in Hall as [Hstart Hrest].
  destruct (Z.eq_dec c start) as [->|Hneq]; [exact Hstart|].
  apply (IH (start + 1) Hrest). lia.
Qed.

Lemma allChunks_sound (f : Z -> bool) (count chunks : nat) : forall start,
  allChunks f chunks count start = true ->
  forall c, start <= c < start + Z.of_nat chunks * Z.of_nat count -> f c = true.
Proof.
  induction chunks as [|chunks IH]; intros start; cbn [allChunks]; [lia|].
  intros Hall c Hc. apply andb_true_iff in Hall as [Hfirst Hrest].
  destruct (Z_lt_ge_dec c (start + Z.of_nat count)) as [Hin|Hout].
  - apply (allFrom_sound f count start Hfirst). lia.
  - apply (IH (start + Z.of_nat count) Hrest). lia.
Qed.

Lemma amounts_checked : allChunks amountSurvives 10 1000 0 = true.
Proof. vm_compute. reflexivity. Qed.

(** An amount from 0.00 to 99.99, written with two decimals, is reported
    as it was written: the numeral is bound as its number of cents, and the
    field serializes as the same digits.  (The number parser is that of the
    ASCII instance, which rounds a decimal numeral to the nearest
    float64.) *)
Theorem amount_survives (cents : Z) :
  0 <= cents < 10000 ->
  option_map NewDollar (@dispenser.getNumeral asciiLib (decimal2 cents))
    = Some {| Cents := cents; HasValue := true |}
  /\ MarshalJSON {| Cents := cents; HasValue := true |} = decimal2 cents.
Proof.
  intros Hc.
  pose proof (allChunks_sound amountSurvives 1000 10 0 amounts_checked cents)
    as Hok.
  unfold amountSurvives in Hok.
  destruct (@dispenser.getNumeral asciiLib (decimal2 cents)) as [number|];
    [|discriminate Hok; lia].
  specialize (Hok ltac:(lia)). apply andb_true_iff in Hok as [Hcents Hjson].
  apply Z.eqb_eq in Hcents. apply String.eqb_eq in Hjson.
  assert (Hd : NewDollar number = {| Cents := cents; HasValue := true |}).
  { unfold NewDollar in *. cbn [Cents] in Hcents. now rewrite Hcents. }
  rewrite <- Hd. now split.
Qed.

End AmountFacts.

(** ** The theorems at sample inputs *)

Section MoreSamples.

Import dispenser statement pdf.

Lemma DumpNSentences_lists_witness :
  wellFormed sampleDispenser
  /\ DumpNSentences 2 sampleDispenser
     = Ok (["total $4,500.50 paid"; "next"], sampleDispenser).
Proof.
  split; [exact sampleDispenser_wellFormed|].
  exact (proj1 (DumpNSentences_lists 2 sampleDispenser sampleDispenser_wellFormed)
           eq_refl eq_refl).
Defined.

Lemma JumpNextNumeral_finds_first_witness :
  wellFormed sampleDispenser
  /\ JumpNextNumeral sampleDispenser
     = Ok (true, {| i := 2; continueNextSentence := true;
                    str := str sampleDispenser |}).
Proof.
  split; [exact sampleDispenser_wellFormed|].
  exact (JumpNextNumeral_finds_first sampleDispenser
           sampleDispenser_wellFormed eq_refl).
Defined.

(** After [DumpSentence] returned "total $4,500.50 paid", which the
    one-fragment sentence "next" follows, [StartOfSentence] puts the cursor
    on "paid". *)
Lemma StartOfSentence_after_DumpSentence_witness :
  wellFormed sampleDispenser
  /\ bind DumpSentence (fun _ => StartOfSentence) sampleDispenser
     = Ok (tt, {| i := 2; continueNextSentence := true;
                  str := str sampleDispenser |}).
Proof.
  split; [exact sampleDispenser_wellFormed|].
  exact (StartOfSentence_after_DumpSentence sampleDispenser
           sampleDispenser_wellFormed eq_refl eq_refl (or_introl eq_refl)).
Defined.

Lemma processText_loops_on_one_fragment_witness :
  plainSentence "hello" = true
  /\ processText declaredOrder 1000 ["hello"] ["Ann"] = Diverge.
Proof.
  split; [reflexivity|].
  apply (processText_loops_on_one_fragment declaredOrder "hello" ["Ann"] 1000).
  - intros s st. apply Permutation_refl.
  - discriminate.
  - reflexivity.
  - reflexivity.
Defined.

Lemma processText_loops_on_second_sentence_witness :
  nonEmptyFragments loopingDocument
  /\ processText declaredOrder 1000 loopingDocument ["Ann"] = Diverge.
Proof.
  assert (Hfr : nonEmptyFragments loopingDocument)
    by (repeat constructor; discriminate).
  split; [exact Hfr|].
  apply (processText_loops_on_second_sentence declaredOrder "a" "b" "c " ["d"]
           ["Ann"] 1000).
  - intros s st. apply Permutation_refl.
  - exact Hfr.
  - reflexivity.
  - reflexivity.
  - reflexivity.
  - reflexivity.
  - reflexivity.
  - reflexivity.
Defined.

Lemma findOtherData_frame_witness :
  findOtherData "ASX Code: abc" sampleDispenser zeroStatement
    = Ok (sampleDispenser, setASXCode zeroStatement "ABC")
  /\ amounts (setASXCode zeroStatement "ABC") = amounts zeroStatement.
Proof.
  split; [reflexivity|].
  exact (proj2 (proj2 (findOtherData_frame "ASX Code: abc" sampleDispenser
                         sampleDispenser zeroStatement
                         (setASXCode zeroStatement "ABC") eq_refl))).
Defined.

Lemma findOtherData_reads_neighbours_witness :
  wellFormed entityDispenser
  /\ exists state',
       findOtherData "ABN 123" entityDispenser zeroStatement
         = Ok (entityDispenser, state')
       /\ Entity state' = "Foo Ltd"
       /\ PaymentDate state' = PaymentDate zeroStatement.
Proof.
  assert (Hwf : wellFormed entityDispenser).
  { split; [cbn; lia|]. repeat constructor; discriminate. }
  split; [exact Hwf|].
  exact (proj1 (findOtherData_reads_neighbours "ABN 123" entityDispenser
                  zeroStatement "ABN 123" Hwf eq_refl eq_refl eq_refl eq_refl)
           "Foo Ltd" eq_refl eq_refl eq_refl eq_refl).
Defined.

Lemma processText_holders_witness :
  processText declaredOrder 20 holdersDocument holdersList
    = Ok (setAccountHolders zeroStatement ["john smith"; "JANE DOE"])
  /\ incl ["john smith"; "JANE DOE"] holdersList.
Proof.
  split; [reflexivity|].
  exact (proj2 (processText_holders declaredOrder 20 holdersDocument holdersList
                  (setAccountHolders zeroStatement ["john smith"; "JANE DOE"])
                  eq_refl)).
Defined.

Lemma processToken_operands_witness :
  operandCount "Tf" = Some 2%nat
  /\ processToken oneElementArray identityDecode
       {| text := ["a"]; font := "F1"; stack := ["x"; "/F2"; "12"] |} "Tf"
     = Ok {| text := ["a"]; font := "/F2"; stack := ["x"] |}
  /\ processToken oneElementArray identityDecode
       {| text := ["a"]; font := "F1"; stack := ["12"] |} "Tf"
     = Panic.
Proof.
  split; [reflexivity|]. split.
  - exact (proj2 (processToken_operands oneElementArray identityDecode
                    {| text := ["a"]; font := "F1"; stack := ["x"; "/F2"; "12"] |}
                    "Tf")
             ["x"] ["/F2"; "12"] eq_refl eq_refl).
  - refine (proj1 (processToken_operands oneElementArray identityDecode
                     {| text := ["a"]; font := "F1"; stack := ["12"] |} "Tf") _).
    cbn. lia.
Defined.

Lemma process_text_grows_witness :
  process oneElementArray identityDecode
    {| text := ["Franked"]; font := "F1"; stack := [] |}
    ["( )"; "Tj"; "(Amount)"; "Tj"]
  = Ok {| text := ["Franked "; "Amount"]; font := "F1"; stack := [] |}
  /\ grows ["Franked"] ["Franked "; "Amount"].
Proof.
  split; [reflexivity|].
  exact (process_text_grows oneElementArray identityDecode
           ["( )"; "Tj"; "(Amount)"; "Tj"]
           {| text := ["Franked"]; font := "F1"; stack := [] |}
           {| text := ["Franked "; "Amount"]; font := "F1"; stack := [] |}
           eq_refl).
Defined.

Lemma process_nonEmptyFragments_witness :
  process oneElementArray identityDecode
    {| text := []; font := "F1"; stack := [] |}
    ["/F2"; "12"; "Tf"; "(Franked)"; "Tj"; "( )"; "Tj"; "(Amount)"; "Tj"]
  = Ok {| text := ["Franked "; "Amount"]; font := "/F2"; stack := [] |}
  /\ nonEmptyFragments ["Franked "; "Amount"]
  /\ wellFormed (NewDispenser ["Franked "; "Amount"]).
Proof.
  split; [reflexivity|].
  apply (proj1 (process_nonEmptyFragments oneElementArray identityDecode
                  ["/F2"; "12"; "Tf"; "(Franked)"; "Tj"; "( )"; "Tj";
                   "(Amount)"; "Tj"]
                  {| text := []; font := "F1"; stack := [] |}
                  {| text := ["Franked "; "Amount"]; font := "/F2";
                     stack := [] |})).
  - intros f a e _ Ha [<-|[]] Hstr. cbn in Ha.
    repeat (destruct Ha as [<-|Ha]; [first [discriminate Hstr|discriminate]|]).
    contradiction.
  - constructor.
  - reflexivity.
Defined.

Lemma readHolders_lines_witness :
  readHolders (strings.Join ["Ann"; "Bob"] (String newline EmptyString)
               ++ String newline EmptyString)
  = ["Ann"; "Bob"].
Proof.
  refine (proj2 (readHolders_lines ["Ann"; "Bob"] _ _ _)).
  - discriminate.
  - repeat constructor.
  - discriminate.
Defined.

(** The pieces of a word set with a position adjustment between them. *)
Lemma write_shows_strings_only_witness :
  writeElements identityDecode {| text := []; font := "F1"; stack := [] |}
    ["(Fran)"; "-20"; "(ked)"]
  = Ok {| text := ["Fran"; "ked"]; font := "F1"; stack := [] |}.
Proof.
  refine (proj1 (proj2 (write_shows_strings_only identityDecode
                          {| text := []; font := "F1"; stack := [] |}
                          ["(Fran)"; "-20"; "(ked)"] _)) _).
  - repeat constructor; discriminate.
  - repeat constructor; discriminate.
Defined.

End MoreSamples.

Lemma amount_survives_witness :
  decimal2 3600 = "36.00"
  /\ option_map statement.NewDollar (@dispenser.getNumeral asciiLib "36.00")
     = Some {| statement.Cents := 3600; statement.HasValue := true |}
  /\ statement.MarshalJSON {| statement.Cents := 3600; statement.HasValue := true |}
     = "36.00".
Proof.
  split; [reflexivity|].
  apply (amount_survives 3600). split; [discriminate|reflexivity].
Defined.
